(** * PaletteLive website: the colour engine of [src/App.tsx]

    A shallow embedding of the pure helpers of [App.tsx] (the export
    serialisers, the WCAG luminance and contrast functions, the automatic
    contrast repair and the palette import) and of the state derived from
    them in the interactive demo (the swatch grid, the exported colours,
    the handlers that write the overrides and the contrast panel),
    together with the properties stated for them.

    Conventions of the embedding.
    - A JavaScript string is a [string] of 8-bit code units.
    - A JavaScript number is [NaN] or an exact value ([Number A]): an
      integer where the source only manipulates channel bytes, a rational
      where it only uses field operations, a real where it calls
      [Math.pow], [Math.cbrt], [Math.sqrt] or [Math.atan2].  There the
      rounding of IEEE doubles is not modelled; no modelled function
      divides by zero or overflows.
    - The numbers that reach a text, those of the CMYK lines, are binary64
      doubles ([Double]), computed as the program computes them; the same
      arithmetic is given in exact rationals as well.
    - [Record<number,string>] is a [gmap nat string]; the object built by
      [exportToPaletteLive], whose key order is observable in its JSON
      text, is an insertion-ordered association list. *)

From Stdlib Require Import ZArith QArith Qround Reals Psatz Lia Bool.
From Stdlib Require Import String Ascii List.
From Stdlib Require Floats Uint63.
From stdpp Require Import base option list gmap strings.

Local Open Scope string_scope.
Local Open Scope Z_scope.

(** ** JavaScript numbers *)

Inductive Number (A : Type) : Type :=
  | NaN : Number A
  | Num : A -> Number A.
Arguments NaN {A}.
Arguments Num {A} _.

Definition nmap {A B} (f : A -> B) (x : Number A) : Number B :=
  match x with NaN => NaN | Num a => Num (f a) end.

Definition nbind {A B} (x : Number A) (f : A -> Number B) : Number B :=
  match x with NaN => NaN | Num a => f a end.

Definition nlift2 {A B C} (f : A -> B -> C) (x : Number A) (y : Number B)
  : Number C :=
  match x, y with Num a, Num b => Num (f a b) | _, _ => NaN end.

(** A comparison involving [NaN] is false. *)
Definition ncmp {A} (p : A -> A -> bool) (x y : Number A) : bool :=
  match x, y with Num a, Num b => p a b | _, _ => false end.

Definition is_NaN {A} (x : Number A) : bool :=
  match x with NaN => true | Num _ => false end.

(** ** JavaScript strings *)

Module JS.

(** [s.slice(from, to)] for [0 <= from <= to]. *)
Definition slice (from to : nat) (s : string) : string :=
  String.substring from (to - from) s.

(** [s.replace("#", "")]: a string pattern replaces its first occurrence
    only. *)
Fixpoint strip_hash (s : string) : string :=
  match s with
  | EmptyString => EmptyString
  | String c s' => if Ascii.eqb c "#"%char then s' else String c (strip_hash s')
  end.

Definition code (c : ascii) : Z := Z.of_N (N_of_ascii c).

(** The value of a digit in radix 16. *)
Definition hex_digit (c : ascii) : option Z :=
  let n := code c in
  if (48 <=? n) && (n <=? 57) then Some (n - 48)
  else if (97 <=? n) && (n <=? 102) then Some (n - 87)
  else if (65 <=? n) && (n <=? 70) then Some (n - 55)
  else None.

Definition is_hex (c : ascii) : bool :=
  match hex_digit c with Some _ => true | None => false end.

Fixpoint all_hex (s : string) : bool :=
  match s with
  | EmptyString => true
  | String c s' => is_hex c && all_hex s'
  end.

(** White space and line terminators among the code units below 256. *)
Definition is_space (c : ascii) : bool :=
  let n := code c in
  ((9 <=? n) && (n <=? 13)) || (n =? 32) || (n =? 160).

Fixpoint trim_start (s : string) : string :=
  match s with
  | String c s' => if is_space c then trim_start s' else s
  | EmptyString => EmptyString
  end.

(** The longest prefix of radix-16 digits, read as an integer; [NaN] when
    that prefix is empty. *)
Fixpoint digits16 (s : string) (acc : Number Z) : Number Z :=
  match s with
  | EmptyString => acc
  | String c s' =>
      match hex_digit c with
      | Some d =>
          digits16 s' (Num (16 * match acc with Num a => a | NaN => 0 end + d))
      | None => acc
      end
  end.

Definition strip_0x (s : string) : string :=
  match s with
  | String a (String b s') =>
      if Ascii.eqb a "0"%char && (Ascii.eqb b "x"%char || Ascii.eqb b "X"%char)
      then s' else s
  | _ => s
  end.

(** [parseInt(s, 16)]: leading white space, an optional sign, an optional
    [0x] prefix, then the longest run of digits. *)
Definition parseInt16 (s : string) : Number Z :=
  match trim_start s with
  | EmptyString => NaN
  | String c t =>
      if Ascii.eqb c "-"%char then nmap Z.opp (digits16 (strip_0x t) NaN)
      else if Ascii.eqb c "+"%char then digits16 (strip_0x t) NaN
      else digits16 (strip_0x (String c t)) NaN
  end.

Definition digit16 (d : Z) : ascii :=
  if d <? 10 then ascii_of_N (Z.to_N (48 + d))
  else ascii_of_N (Z.to_N (87 + d)).

(** The digits of a positive integer in the given radix, most significant
    first. *)
Fixpoint pos_digits (radix : Z) (fuel : nat) (n : Z) (acc : string) : string :=
  match fuel with
  | O => acc
  | S fuel' =>
      if n <=? 0 then acc
      else pos_digits radix fuel' (n / radix)
             (String (digit16 (n mod radix)) acc)
  end.

(** [v.toString(radix)] for an integer-valued number. *)
Definition toStringRadix (radix : Z) (v : Number Z) : string :=
  match v with
  | NaN => "NaN"
  | Num 0 => "0"
  | Num (Zpos p) => pos_digits radix (Pos.size_nat p) (Zpos p) ""
  | Num (Zneg p) =>
      String "-"%char (pos_digits radix (Pos.size_nat p) (Zpos p) "")
  end.

Definition toString16 : Number Z -> string := toStringRadix 16.

(** [s.padStart(2, "0")]. *)
Definition padStart2 (s : string) : string :=
  match s with
  | EmptyString => "00"
  | String c EmptyString => String "0"%char s
  | _ => s
  end.

(** The line feed, the double quote and the backslash. *)
Definition LF : ascii := ascii_of_nat 10.
Definition DQ : ascii := ascii_of_nat 34.
Definition BS : ascii := ascii_of_nat 92.

(** [lines.join(sep)]. *)
Definition join (sep : string) (lines : list string) : string :=
  String.concat sep lines.

End JS.

(** ** Real-valued numbers *)

Definition Rleb (x y : R) : bool := if Rle_dec x y then true else false.
Definition Rltb (x y : R) : bool := if Rlt_dec x y then true else false.

(** [a <= b], [a < b], [a >= b] and [a > b] on numbers. *)
Definition nle : Number R -> Number R -> bool := ncmp Rleb.
Definition nlt : Number R -> Number R -> bool := ncmp Rltb.
Definition nge (x y : Number R) : bool := nle y x.
Definition ngt (x y : Number R) : bool := nlt y x.

Definition nadd : Number R -> Number R -> Number R := nlift2 Rplus.
Definition nmul : Number R -> Number R -> Number R := nlift2 Rmult.
(** Every divisor of the modelled code is non-zero. *)
Definition ndiv : Number R -> Number R -> Number R := nlift2 Rdiv.

Definition of_int (v : Number Z) : Number R := nmap IZR v.

(** [Math.pow(x, 2.4)]: the only exponent of the source. *)
Definition Math_pow_2_4 (x : Number R) : Number R :=
  nbind x (fun x =>
    if Rltb 0 x then Num (Rpower x 2.4)
    else if Rleb 0 x then Num 0%R
    else NaN).

(** ** WCAG luminance and contrast ([App.tsx], lines 331-342) *)

(** The gamma expansion [f] local to [luminance]. *)
Definition wcag_f (c : Number R) : Number R :=
  if nle c (Num 0.03928%R) then ndiv c (Num 12.92%R)
  else Math_pow_2_4 (ndiv (nadd c (Num 0.055%R)) (Num 1.055%R)).

Definition luminance (hex : string) : Number R :=
  let r := ndiv (of_int (JS.parseInt16 (JS.slice 1 3 hex))) (Num 255%R) in
  let g := ndiv (of_int (JS.parseInt16 (JS.slice 3 5 hex))) (Num 255%R) in
  let b := ndiv (of_int (JS.parseInt16 (JS.slice 5 7 hex))) (Num 255%R) in
  nadd (nadd (nmul (Num 0.2126%R) (wcag_f r)) (nmul (Num 0.7152%R) (wcag_f g)))
       (nmul (Num 0.0722%R) (wcag_f b)).

Definition contrastRatio (a b : string) : Number R :=
  let la := nadd (luminance a) (Num 0.05%R) in
  let lb := nadd (luminance b) (Num 0.05%R) in
  if ngt la lb then ndiv la lb else ndiv lb la.

(** The luminance as the specification words it, on three channel bytes:
    the WCAG transfer function, then the weighted sum. *)
Definition spec_gamma (c : R) : R :=
  if Rleb c 0.03928 then (c / 12.92)%R
  else Rpower ((c + 0.055) / 1.055) 2.4.

Definition spec_luminance (r g b : Z) : R :=
  (0.2126 * spec_gamma (IZR r / 255) + 0.7152 * spec_gamma (IZR g / 255)
   + 0.0722 * spec_gamma (IZR b / 255))%R.

(** A well-formed colour: [#] and six radix-16 digits. *)
Definition well_formed (s : string) : bool :=
  match s with
  | String c s' =>
      Ascii.eqb c "#"%char && (String.length s' =? 6)%nat && JS.all_hex s'
  | EmptyString => false
  end.

(** ** Automatic contrast repair ([App.tsx], lines 144-166) *)

Definition Math_min (x y : Number Z) : Number Z := nlift2 Z.min x y.
Definition Math_max (x y : Number Z) : Number Z := nlift2 Z.max x y.

Record rgb : Type := RGB { red : Number Z; green : Number Z; blue : Number Z }.

(** One pass of the loop body over the three channels; [isDark] is the
    source's name for the flag [luminance(bg) > 0.5]. *)
Definition step_channel (isDark : bool) (v : Number Z) : Number Z :=
  if isDark then Math_min (Num 255) (nlift2 Z.add v (Num 12))
  else Math_max (Num 0) (nlift2 Z.sub v (Num 12)).

Definition step_rgb (isDark : bool) (c : rgb) : rgb :=
  RGB (step_channel isDark (red c)) (step_channel isDark (green c))
      (step_channel isDark (blue c)).

(** ["#" + [r,g,b].map(v => v.toString(16).padStart(2,"0")).join("")] *)
Definition hex_of_rgb (c : rgb) : string :=
  "#" ++ JS.padStart2 (JS.toString16 (red c))
      ++ JS.padStart2 (JS.toString16 (green c))
      ++ JS.padStart2 (JS.toString16 (blue c)).

(** The channels read from [current.replace("#", "")]. *)
Definition rgb_of_hex (current : string) : rgb :=
  let hex := JS.strip_hash current in
  RGB (JS.parseInt16 (JS.slice 0 2 hex)) (JS.parseInt16 (JS.slice 2 4 hex))
      (JS.parseInt16 (JS.slice 4 6 hex)).

Definition AA : Number R := Num 4.5%R.

(** The [for] loop: [budget] counts the iterations left of the 20; the
    result is the colour assigned to [next[i]], if any. *)
Fixpoint repair_loop (budget : nat) (isDark : bool) (bg : string)
    (c : rgb) (ratio : Number R) : option string :=
  match budget with
  | O => None
  | S budget' =>
      if nlt ratio AA then
        let c' := step_rgb isDark c in
        let fixed := hex_of_rgb c' in
        let ratio' := contrastRatio fixed bg in
        if nge ratio' AA then Some fixed
        else repair_loop budget' isDark bg c' ratio'
      else None
  end.

(** The body of [swatches.forEach] at index [i]. *)
Definition fix_entry (swatches : list string) (bg : string)
    (next : gmap nat string) (i : nat) : gmap nat string :=
  if (i <? 3)%nat then next
  else
    match from_option Some (swatches !! i) (next !! i) with
    | None => next
    | Some current =>
        let ratio := contrastRatio current bg in
        if nge ratio AA then next
        else
          let isDark := ngt (luminance bg) (Num 0.5%R) in
          match repair_loop 20 isDark bg (rgb_of_hex current) ratio with
          | Some fixed => <[i := fixed]> next
          | None => next
          end
    end.

Definition fixTextContrast (swatches : list string)
    (customSwatches : gmap nat string) : gmap nat string :=
  match from_option Some (swatches !! 0%nat) (customSwatches !! 0%nat) with
  | None => customSwatches
  | Some bg =>
      foldl (fix_entry swatches bg) customSwatches (seq 0 (length swatches))
  end.

(** The repair as the specification words it: the direction is fixed once
    from the background, the colour is stepped up to 20 times, and the
    first stepped colour that reaches AA is the replacement. *)
Definition spec_lighter (v : Number Z) : Number Z :=
  Math_min (Num 255) (nlift2 Z.add v (Num 12)).
Definition spec_darker (v : Number Z) : Number Z :=
  Math_max (Num 0) (nlift2 Z.sub v (Num 12)).

Definition spec_step (bg : string) (c : rgb) : rgb :=
  if ngt (luminance bg) (Num 0.5%R)
  then RGB (spec_lighter (red c)) (spec_lighter (green c)) (spec_lighter (blue c))
  else RGB (spec_darker (red c)) (spec_darker (green c)) (spec_darker (blue c)).

Definition spec_passes (bg : string) (fixed : string) : bool :=
  nge (contrastRatio fixed bg) AA.

Definition spec_candidates (bg current : string) : list string :=
  List.map (fun k => hex_of_rgb (Nat.iter k (spec_step bg) (rgb_of_hex current)))
    (seq 1 20).

Definition spec_repair (bg current : string) : option string :=
  List.find (spec_passes bg) (spec_candidates bg current).

(** Channels that are [NaN] or an integer between [lo] and 255, and
    colours with such channels. *)
Definition channel_in (lo : Z) (v : Number Z) : Prop :=
  match v with NaN => True | Num z => lo <= z <= 255 end.

Definition rgb_in (lo : Z) (c : rgb) : Prop :=
  channel_in lo (red c) /\ channel_in lo (green c) /\ channel_in lo (blue c).

Definition has_NaN (c : rgb) : bool :=
  is_NaN (red c) || is_NaN (green c) || is_NaN (blue c).

(** ** Colours as the specification writes them *)

(** The value of a radix-16 digit, read off the digits themselves. *)
Definition spec_digit (c : ascii) : option Z :=
  match String.index 0 (String c "") "0123456789abcdef" with
  | Some n => Some (Z.of_nat n)
  | None =>
      match String.index 0 (String c "") "0123456789ABCDEF" with
      | Some n => Some (Z.of_nat n)
      | None => None
      end
  end.

Definition spec_byte (a b : ascii) : option Z :=
  match spec_digit a, spec_digit b with
  | Some x, Some y => Some (16 * x + y)
  | _, _ => None
  end.

(** The three channel bytes of a colour written [#RRGGBB]; [None] for any
    other text. *)
Definition spec_channels (s : string) : option (Z * Z * Z) :=
  match s with
  | String h (String r1 (String r2 (String g1 (String g2
      (String b1 (String b2 "")))))) =>
      if Ascii.eqb h "#"%char then
        match spec_byte r1 r2, spec_byte g1 g2, spec_byte b1 b2 with
        | Some r, Some g, Some b => Some (r, g, b)
        | _, _, _ => None
        end
      else None
  | _ => None
  end.

(** The two lower-case digits of a byte, and the colour of three bytes. *)
Definition spec_hex2 (z : Z) : string :=
  String.substring (Z.to_nat (z / 16)) 1 "0123456789abcdef"
    ++ String.substring (Z.to_nat (z mod 16)) 1 "0123456789abcdef".

Definition spec_colour (r g b : Z) : string :=
  "#" ++ spec_hex2 r ++ spec_hex2 g ++ spec_hex2 b.

(** A channel after [k] steps of 12: lighter and capped at 255, or darker
    and floored at 0. *)
Definition spec_stepped (lighter : bool) (z : Z) (k : nat) : Z :=
  if lighter then Z.min 255 (z + 12 * Z.of_nat k)
  else Z.max 0 (z - 12 * Z.of_nat k).

(** ** Binary64 numbers *)

Module Double.

Import PrimFloat.

(** The double of an integer below [2^53] in magnitude, which is exact. *)
Definition of_Z (z : Z) : float :=
  if z <? 0 then opp (of_uint63 (Uint63.of_Z (- z)))
  else of_uint63 (Uint63.of_Z z).

Definition of_number (v : Number Z) : float :=
  match v with NaN => nan | Num z => of_Z z end.

(** [Math.max(x, y)]: [NaN] as soon as an argument is.  The sign of a zero
    is not tracked; it reaches no text. *)
Definition Math_max (x y : float) : float :=
  if is_nan x || is_nan y then nan else if ltb x y then y else x.

(** The mathematical value of a double. *)
Inductive value : Type :=
  | Finite (q : Q)
  | Infinite (negative : bool)
  | NotANumber.

Definition exact (x : float) : value :=
  match FloatOps.Prim2SF x with
  | SpecFloat.S754_zero _ => Finite 0
  | SpecFloat.S754_infinity s => Infinite s
  | SpecFloat.S754_nan => NotANumber
  | SpecFloat.S754_finite s m e =>
      let n := if s then Zneg m else Zpos m in
      Finite (if 0 <=? e then inject_Z (n * 2 ^ e)
              else Qmake n (2 ^ Z.to_pos (- e)))
  end.

End Double.

(** ** The named colours handed to the serialisers *)

Record ExportColor : Type := Color { name : string; value : string }.

(** ** CMYK export ([App.tsx], lines 72-85) *)

Module CMYK.

Local Open Scope Q_scope.

Definition Qltb (x y : Q) : bool := negb (Qle_bool y x).
Definition Qmaxb (x y : Q) : Q := if Qle_bool x y then y else x.

(** *** The arithmetic of a line in exact rationals *)



(** [x.toFixed(1)]: the sign, then the integer [n] nearest to [10 |x|]
    (the larger one on a tie) printed with its last digit after the point.
    Above [10^21] the source switches to exponent notation; the values of
    this export stay far below. *)
Definition toFixed1 (x : Number Q) : string :=
  match x with
  | NaN => "NaN"
  | Num q =>
      let neg := Qltb q 0 in
      let a := if neg then - q else q in
      let n := Qfloor (a * 10 + (1 # 2)) in
      ((if neg then "-" else "")
        ++ JS.toStringRadix 10 (Num (n / 10)%Z)
        ++ "." ++ JS.toStringRadix 10 (Num (n mod 10)%Z))%string
  end.



(** The payload [c.value.replace("#", "").slice(0, 6)]. *)
Definition payload (c : ExportColor) : string :=
  JS.slice 0 6 (JS.strip_hash (value c)).

Definition sentinel (c : ExportColor) : string :=
  (name c ++ ": cmyk(0%, 0%, 0%, 100%)")%string.


(** *** The line of a colour, in binary64 *)

(** [x.toFixed(1)] on a double: [toFixed1] of its mathematical value, and
    the name of a value that is not finite. *)
Definition toFixed1_64 (x : PrimFloat.float) : string :=
  match Double.exact x with
  | Double.Finite q => toFixed1 (Num q)
  | Double.Infinite negative =>
      if negative then "-Infinity"%string else "Infinity"%string
  | Double.NotANumber => "NaN"%string
  end.

Import PrimFloat.

Local Open Scope float_scope.

(** [parseInt(hex.slice(from, to), 16) / 255]. *)
Definition channel64 (from to : nat) (hex : string) : float :=
  Double.of_number (JS.parseInt16 (JS.slice from to hex)) / 255.

(** [k<1 ? (1-v-k)/(1-k) : 0]. *)
Definition ink64 (v k : float) : float :=
  if ltb k 1 then (1 - v - k) / (1 - k) else 0.

(** The line of a colour with channel bytes [r], [g] and [b], as the
    specification words it: [K = 1 - max(R, G, B)], the other three inks
    [(1 - V - K) / (1 - K)] or 0 when [K = 1], each as a percentage with one
    decimal place. *)
Definition spec_channel (z : Z) : float := Double.of_Z z / 255.

Definition spec_max (x y : float) : float := if ltb x y then y else x.

Definition spec_ink (v k : float) : float :=
  if ltb k 1 then (1 - v - k) / (1 - k) else 0.

Definition spec_percent (x : float) : string := toFixed1_64 (x * 100).

Definition spec_line (name : string) (r g b : Z) : string :=
  let R := spec_channel r in
  let G := spec_channel g in
  let B := spec_channel b in
  let K := 1 - spec_max (spec_max R G) B in
  (name ++ ": cmyk(" ++ spec_percent (spec_ink R K) ++ "%, "
     ++ spec_percent (spec_ink G K) ++ "%, "
     ++ spec_percent (spec_ink B K) ++ "%, "
     ++ spec_percent K ++ "%)")%string.

(** The line pushed for one colour. *)
Definition line (c : ExportColor) : string :=
  let hex := payload c in
  if negb (String.length hex =? 6)%nat then sentinel c
  else
    let r := channel64 0 2 hex in
    let g := channel64 2 4 hex in
    let b := channel64 4 6 hex in
    let k := 1 - Double.Math_max (Double.Math_max r g) b in
    let cy := ink64 r k in
    let ma := ink64 g k in
    let ye := ink64 b k in
    (name c ++ ": cmyk(" ++ toFixed1_64 (cy * 100) ++ "%, "
       ++ toFixed1_64 (ma * 100) ++ "%, " ++ toFixed1_64 (ye * 100) ++ "%, "
       ++ toFixed1_64 (k * 100) ++ "%)")%string.

(** The doubles that [toFixed1_64] prints as [toFixed(1)] does: [NaN] and
    those far below the [10^21] of the exponent notation.  The rounding of
    a quotient lets a double pass the 1600 of the exact arithmetic, by less
    than [10^-11]. *)
Definition printable64 (x : float) : bool :=
  match Double.exact x with
  | Double.Finite q => Qle_bool 0 q && Qle_bool q 1601
  | Double.Infinite _ => false
  | Double.NotANumber => true
  end.

Definition header : string :=
  ("/* CMYK Color Palette */" ++ String JS.LF "")%string.

(** The length of the payload as the specification words it: the value
    loses its first [#], if it has one, and is cut to six characters. *)
Definition spec_has_hash (v : string) : bool :=
  existsb (Ascii.eqb "#"%char) (list_ascii_of_string v).

Definition spec_payload_length (v : string) : nat :=
  Nat.min 6 (String.length v - (if spec_has_hash v then 1 else 0))%nat.

Definition exportToCMYK (colors : list ExportColor) : string :=
  JS.join (String JS.LF "") (header :: List.map line colors).

End CMYK.

(** ** Linearisation and OKLCH ([App.tsx], lines 87-120) *)

Local Open Scope R_scope.

(** [toLinear], declared with the same body inside [exportToLAB] and inside
    [exportToOKLCH]. *)
Definition toLinear (v : Number R) : Number R :=
  let v := ndiv v (Num 255) in
  if nle v (Num 0.04045) then ndiv v (Num 12.92)
  else Math_pow_2_4 (ndiv (nadd v (Num 0.055)) (Num 1.055)).

Module OKLCH.

Definition cbrt (x : R) : R :=
  if Rltb 0 x then Rpower x (1 / 3)
  else if Rltb x 0 then - Rpower (- x) (1 / 3)
  else 0.

Definition Math_cbrt : Number R -> Number R := nmap cbrt.

Definition Math_sqrt (x : Number R) : Number R :=
  nbind x (fun x => if Rleb 0 x then Num (sqrt x) else NaN).

(** [Math.atan2(y, x)] on reals, the zero being the positive one. *)
Definition atan2 (y x : R) : R :=
  if Rltb 0 x then atan (y / x)
  else if Rltb x 0 then
    if Rleb 0 y then atan (y / x) + PI else atan (y / x) - PI
  else if Rltb 0 y then PI / 2
  else if Rltb y 0 then - (PI / 2)
  else 0.

Definition Math_atan2 : Number R -> Number R -> Number R := nlift2 atan2.

Record oklch : Type := Oklch { l : Number R; c : Number R; h : Number R }.

(** A linear combination [k1*x + k2*y + k3*z], as the source writes it
    (a negative coefficient is a subtraction there). *)
Definition lin3 (k1 : R) (x : Number R) (k2 : R) (y : Number R)
    (k3 : R) (z : Number R) : Number R :=
  nadd (nadd (nmul (Num k1) x) (nmul (Num k2) y)) (nmul (Num k3) z).

Definition hexToOklch (hex : string) : oklch :=
  let hex := JS.slice 0 6 (JS.strip_hash hex) in
  let r := toLinear (of_int (JS.parseInt16 (JS.slice 0 2 hex))) in
  let g := toLinear (of_int (JS.parseInt16 (JS.slice 2 4 hex))) in
  let b := toLinear (of_int (JS.parseInt16 (JS.slice 4 6 hex))) in
  let l_ := Math_cbrt (lin3 0.4122214708 r 0.5363325363 g 0.0514459929 b) in
  let m_ := Math_cbrt (lin3 0.2119034982 r 0.6806995451 g 0.1073969566 b) in
  let s_ := Math_cbrt (lin3 0.0883024619 r 0.2817188376 g 0.6299787005 b) in
  let L := lin3 0.2104542553 l_ 0.793617785 m_ (- 0.0040720468) s_ in
  let a := lin3 1.9779984951 l_ (- 2.428592205) m_ 0.4505937099 s_ in
  let bOk := lin3 0.0259040371 l_ 0.7827717662 m_ (- 0.808675766) s_ in
  let C := Math_sqrt (nadd (nmul a a) (nmul bOk bOk)) in
  let H := nmul (Math_atan2 bOk a) (ndiv (Num 180) (Num PI)) in
  let H := if nlt H (Num 0) then nadd H (Num 360) else H in
  Oklch L C H.

End OKLCH.

Local Close Scope R_scope.

(** ** JSON text *)

Module JSON.

(** The values that occur in the exported documents: strings and
    objects. *)
#[warnings="-register-all"]
Inductive json : Type :=
  | JString (s : string)
  | JObject (members : list (string * json)).

Definition hex2 (n : Z) : string := JS.padStart2 (JS.toString16 (Num n)).

(** One code unit inside a quoted string ([QuoteJSONString]). *)
Definition escape (c : ascii) : string :=
  let n := JS.code c in
  if n =? 8 then String JS.BS "b"
  else if n =? 9 then String JS.BS "t"
  else if n =? 10 then String JS.BS "n"
  else if n =? 12 then String JS.BS "f"
  else if n =? 13 then String JS.BS "r"
  else if n =? 34 then String JS.BS (String JS.DQ "")
  else if n =? 92 then String JS.BS (String JS.BS "")
  else if n <? 32 then String JS.BS ("u00" ++ hex2 n)
  else String c "".

Fixpoint escape_all (s : string) : string :=
  match s with
  | EmptyString => EmptyString
  | String c s' => escape c ++ escape_all s'
  end.

Definition quote (s : string) : string :=
  String JS.DQ (escape_all s ++ String JS.DQ "").

(** [JSON.stringify(v, null, 2)] below the indentation [indent]. *)
Fixpoint stringify (indent : string) (v : json) : string :=
  match v with
  | JString s => quote s
  | JObject [] => "{}"
  | JObject ms =>
      let inner := indent ++ "  " in
      "{" ++ String JS.LF inner
        ++ JS.join ("," ++ String JS.LF inner)
             (List.map (fun m => quote (fst m) ++ ": " ++ stringify inner (snd m))
                ms)
        ++ String JS.LF indent ++ "}"
  end.

(** *** Parsing *)

Definition is_ws (c : ascii) : bool :=
  let n := JS.code c in (n =? 32) || (n =? 9) || (n =? 10) || (n =? 13).

Fixpoint skip_ws (s : string) : string :=
  match s with
  | String c s' => if is_ws c then skip_ws s' else s
  | EmptyString => EmptyString
  end.

(** The code unit written [\uXXXX]; the embedding has the code units below
    256 only. *)
Definition unicode_escape (a b c d : ascii) : option ascii :=
  match JS.hex_digit a, JS.hex_digit b, JS.hex_digit c, JS.hex_digit d with
  | Some x, Some y, Some z, Some w =>
      let n := ((x * 16 + y) * 16 + z) * 16 + w in
      if n <? 256 then Some (ascii_of_N (Z.to_N n)) else None
  | _, _, _, _ => None
  end.

Definition simple_escape (c : ascii) : option ascii :=
  let n := JS.code c in
  if n =? 34 then Some JS.DQ
  else if n =? 92 then Some JS.BS
  else if n =? 47 then Some "/"%char
  else if n =? 98 then Some (ascii_of_nat 8)
  else if n =? 102 then Some (ascii_of_nat 12)
  else if n =? 110 then Some (ascii_of_nat 10)
  else if n =? 114 then Some (ascii_of_nat 13)
  else if n =? 116 then Some (ascii_of_nat 9)
  else None.

Definition cons_char (c : ascii) (r : option (string * string))
  : option (string * string) :=
  match r with Some (s, rest) => Some (String c s, rest) | None => None end.

(** The characters of a string literal after its opening quote, up to the
    closing one; the result is the literal's value and the remaining
    text. *)
Fixpoint parse_chars (s : string) : option (string * string) :=
  match s with
  | EmptyString => None
  | String c s' =>
      if JS.code c =? 34 then Some (EmptyString, s')
      else if JS.code c =? 92 then
        match s' with
        | String e s'' =>
            if JS.code e =? 117 then
              match s'' with
              | String a (String b (String x (String y s3))) =>
                  match unicode_escape a b x y with
                  | Some u => cons_char u (parse_chars s3)
                  | None => None
                  end
              | _ => None
              end
            else
              match simple_escape e with
              | Some u => cons_char u (parse_chars s'')
              | None => None
              end
        | EmptyString => None
        end
      else if JS.code c <? 32 then None
      else cons_char c (parse_chars s')
  end.

Fixpoint parse_value (fuel : nat) (s : string) : option (json * string) :=
  match fuel with
  | O => None
  | S fuel' =>
      match skip_ws s with
      | String c t =>
          if JS.code c =? 34 then
            match parse_chars t with
            | Some (str, rest) => Some (JString str, rest)
            | None => None
            end
          else if JS.code c =? 123 then
            match skip_ws t with
            | String d rest =>
                if JS.code d =? 125 then Some (JObject [], rest)
                else
                  match parse_members fuel' (String d rest) with
                  | Some (ms, rest') => Some (JObject ms, rest')
                  | None => None
                  end
            | EmptyString => None
            end
          else None
      | EmptyString => None
      end
  end
with parse_members (fuel : nat) (s : string)
  : option (list (string * json) * string) :=
  match fuel with
  | O => None
  | S fuel' =>
      match skip_ws s with
      | String c t =>
          if JS.code c =? 34 then
            match parse_chars t with
            | Some (key, rest) =>
                match skip_ws rest with
                | String colon rest1 =>
                    if JS.code colon =? 58 then
                      match parse_value fuel' rest1 with
                      | Some (v, rest2) =>
                          match skip_ws rest2 with
                          | String d rest3 =>
                              if JS.code d =? 44 then
                                match parse_members fuel' rest3 with
                                | Some (ms, rest4) => Some ((key, v) :: ms, rest4)
                                | None => None
                                end
                              else if JS.code d =? 125 then Some ([(key, v)], rest3)
                              else None
                          | EmptyString => None
                          end
                      | None => None
                      end
                    else None
                | EmptyString => None
                end
            | None => None
            end
          else None
      | EmptyString => None
      end
  end.

(** The number of nodes and members of a value: the recursion depth the
    parser needs for its text. *)
Fixpoint weight (v : json) : nat :=
  match v with
  | JString _ => 1
  | JObject ms => S (list_sum (List.map (fun m => S (weight (snd m))) ms))
  end.

(** [JSON.parse(text)] on the documents made of strings and objects;
    [None] is the [SyntaxError]. *)
Definition parse (text : string) : option json :=
  match parse_value (S (String.length text)) text with
  | Some (v, rest) =>
      match skip_ws rest with EmptyString => Some v | _ => None end
  | None => None
  end.

End JSON.

(** ** The round-trip format ([App.tsx], lines 122-126) *)

Module PaletteLive.

(** A plain object with string values: its own properties in creation
    order. *)
Definition object : Type := list (string * string).

Fixpoint define (o : object) (k v : string) : object :=
  match o with
  | [] => [(k, v)]
  | (k', v') :: o' =>
      if String.eqb k' k then (k', v) :: o' else (k', v') :: define o' k v
  end.

(** [o[k] = v] on an object created by [{}]: [Object.prototype] has a
    setter for [__proto__], which ignores a string. *)
Definition assign (o : object) (k v : string) : object :=
  if String.eqb k "__proto__" then o else define o k v.

Definition is_digit (c : ascii) : bool :=
  let n := JS.code c in (48 <=? n) && (n <=? 57).

Fixpoint decimal_value (s : string) (acc : Z) : Z :=
  match s with
  | EmptyString => acc
  | String c s' => decimal_value s' (10 * acc + (JS.code c - 48))
  end.

Fixpoint all_digits (s : string) : bool :=
  match s with
  | EmptyString => true
  | String c s' => is_digit c && all_digits s'
  end.

(** The array index a property key denotes: a canonical decimal numeral
    below [2^32 - 1]. *)
Definition array_index (k : string) : option Z :=
  match k with
  | EmptyString => None
  | String c s' =>
      if all_digits k && (negb (Ascii.eqb c "0"%char) || String.eqb s' "")
         && (String.length k <=? 10)%nat
      then let n := decimal_value k 0 in
           if n <? 4294967295 then Some n else None
      else None
  end.

Fixpoint insert_index (n : Z) (p : string * string)
    (l : list (Z * (string * string))) : list (Z * (string * string)) :=
  match l with
  | [] => [(n, p)]
  | (m, q) :: l' =>
      if n <=? m then (n, p) :: l else (m, q) :: insert_index n p l'
  end.

(** The index-keyed properties in ascending order of index. *)
Fixpoint indexed (o : object) : list (Z * (string * string)) :=
  match o with
  | [] => []
  | (k, v) :: o' =>
      match array_index k with
      | Some n => insert_index n (k, v) (indexed o')
      | None => indexed o'
      end
  end.

Definition named (o : object) : object :=
  List.filter (fun p => match array_index (fst p) with
                        | Some _ => false | None => true end) o.

(** The order in which [JSON.stringify] visits the properties: array
    indices ascending, then the other keys in creation order. *)
Definition own_properties (o : object) : object :=
  (List.map snd (indexed o) ++ named o)%list.

Definition overrides_of (colors : list ExportColor) : object :=
  foldl (fun o c => assign o (name c) (value c)) [] colors.

Definition document (colors : list ExportColor) : JSON.json :=
  JSON.JObject
    [ ("version", JSON.JString "1.0");
      ("format", JSON.JString "palettelive");
      ("overrides",
        JSON.JObject
          (List.map (fun p => (fst p, JSON.JString (snd p)))
             (own_properties (overrides_of colors)))) ].

Definition exportToPaletteLive (colors : list ExportColor) : string :=
  JSON.stringify "" (document colors).

(** The name-to-colour map a parsed value denotes, a later member
    replacing an earlier one of the same name. *)
Definition colour_map (v : JSON.json) : option (gmap string string) :=
  match v with
  | JSON.JObject ms =>
      foldl (fun acc m =>
               match acc, snd m with
               | Some g, JSON.JString s => Some (<[fst m := s]> g)
               | _, _ => None
               end) (Some ∅) ms
  | JSON.JString _ => None
  end.

(** The name-to-colour pairs of the input list. *)
Definition pairs (colors : list ExportColor) : list (string * string) :=
  List.map (fun c => (name c, value c)) colors.

End PaletteLive.

(** ** Palette import ([App.tsx], lines 567-578) *)

Module PaletteImport.

(** The state cells that [applyImportText] writes. *)
Inductive mode : Type := menu | clipboard.

Record state : Type := State {
  customSwatches : gmap nat string;
  autoPlay : bool;
  editingHex : string;
  importOpen : bool;
  importMode : mode;
  importText : string
}.

(** Does [#[0-9a-fA-F]{6}] match at the start of [s]? *)
Definition matches_here (s : string) : bool :=
  match s with
  | String c s' =>
      Ascii.eqb c "#"%char && (String.length (JS.slice 0 6 s') =? 6)%nat
        && JS.all_hex (JS.slice 0 6 s')
  | EmptyString => false
  end.

(** [raw.match(/#[0-9a-fA-F]{6}/gi)]: the matches from left to right, a
    search resuming after the end of the previous match; [skip] counts the
    characters of the current match still to pass.  The empty list stands
    for [null]. *)
Fixpoint scan (skip : nat) (s : string) : list string :=
  match s with
  | EmptyString => []
  | String _ s' =>
      match skip with
      | S n => scan n s'
      | O => if matches_here s then JS.slice 0 7 s :: scan 6 s' else scan 0 s'
      end
  end.

Definition match_hexes (raw : string) : list string := scan 0 raw.

Definition applyImportText (raw : string) (st : state) : state :=
  let hexes := match_hexes raw in
  if (length hexes <? 2)%nat then st
  else
    {| customSwatches := map_seq 0 (take 6 hexes);
       autoPlay := false;
       editingHex :=
         default (default "" (hexes !! 0%nat)) (hexes !! 2%nat);
       importOpen := false;
       importMode := menu;
       importText := "" |}.

End PaletteImport.

(** ** CSS, JSON and Tailwind exports ([App.tsx], lines 44-70) *)

Module TextExport.

(** [s.startsWith("--")]. *)
Definition starts_with_dashes (s : string) : bool :=
  match s with
  | String a (String b _) => Ascii.eqb a "-"%char && Ascii.eqb b "-"%char
  | _ => false
  end.

(** [c.name.startsWith("--") ? c.name : "--" + c.name]. *)
Definition css_name (n : string) : string :=
  if starts_with_dashes n then n else "--" ++ n.

(** [c.name.replace(/^--/, "")]. *)
Definition token_key (n : string) : string :=
  match n with
  | String a (String b rest) =>
      if Ascii.eqb a "-"%char && Ascii.eqb b "-"%char then rest else n
  | _ => n
  end.

(** The text appended to [out] for one colour. *)
Definition css_line (c : ExportColor) : string :=
  "  " ++ css_name (name c) ++ ": " ++ value c ++ ";" ++ String JS.LF "".

Definition exportToCSS (colors : list ExportColor) : string :=
  foldl (fun out c => out ++ css_line c) (":root {" ++ String JS.LF "") colors
    ++ "}".

(** The object [tokens] after the [forEach]. *)
Definition tokens_of (colors : list ExportColor) : PaletteLive.object :=
  foldl (fun o c => PaletteLive.assign o (token_key (name c)) (value c))
    [] colors.

Definition exportToJSON (colors : list ExportColor) : string :=
  JSON.stringify ""
    (JSON.JObject
       (List.map (fun p => (fst p, JSON.JString (snd p)))
          (PaletteLive.own_properties (tokens_of colors)))).

Definition tailwind_line (c : ExportColor) : string :=
  "        " ++ String JS.DQ (token_key (name c)) ++ String JS.DQ ": '"
    ++ value c ++ "'," ++ String JS.LF "".

Definition tailwind_header : string :=
  "module.exports = {" ++ String JS.LF ("  theme: {" ++ String JS.LF
    ("    extend: {" ++ String JS.LF ("      colors: {" ++ String JS.LF ""))).

Definition tailwind_footer : string :=
  "      }" ++ String JS.LF ("    }" ++ String JS.LF ("  }" ++ String JS.LF "}")).

Definition exportToTailwind (colors : list ExportColor) : string :=
  foldl (fun out c => out ++ tailwind_line c) tailwind_header colors
    ++ tailwind_footer.

End TextExport.

(** ** CIE LAB ([App.tsx], lines 87-100) *)

Module LAB.

Local Open Scope R_scope.

Definition nsub : Number R -> Number R -> Number R := nlift2 Rminus.

(** [v > 0.008856 ? Math.cbrt(v) : 7.787*v + 16/116]. *)
Definition f (v : Number R) : Number R :=
  if ngt v (Num 0.008856) then OKLCH.Math_cbrt v
  else nadd (nmul (Num 7.787) v) (ndiv (Num 16) (Num 116)).

(** The same function on a number that is not [NaN]. *)
Definition f_num (v : R) : R :=
  if Rltb 0.008856 v then OKLCH.cbrt v else 7.787 * v + 16 / 116.

Record lab : Type := Lab { l : Number R; a : Number R; b : Number R }.

Definition hexToLab (hex : string) : lab :=
  let hex := JS.slice 0 6 (JS.strip_hash hex) in
  let r := toLinear (of_int (JS.parseInt16 (JS.slice 0 2 hex))) in
  let g := toLinear (of_int (JS.parseInt16 (JS.slice 2 4 hex))) in
  let b := toLinear (of_int (JS.parseInt16 (JS.slice 4 6 hex))) in
  let x := ndiv (nadd (nadd (nmul r (Num 0.4124)) (nmul g (Num 0.3576)))
                      (nmul b (Num 0.1805))) (Num 0.95047) in
  let y := nadd (nadd (nmul r (Num 0.2126)) (nmul g (Num 0.7152)))
                (nmul b (Num 0.0722)) in
  let z := ndiv (nadd (nadd (nmul r (Num 0.0193)) (nmul g (Num 0.1192)))
                      (nmul b (Num 0.9505))) (Num 1.08883) in
  let x := f x in
  let y := f y in
  let z := f z in
  Lab (nsub (nmul (Num 116) y) (Num 16)) (nmul (Num 500) (nsub x y))
      (nmul (Num 200) (nsub y z)).

End LAB.

(** ** The palettes, the swatch grid and the exported colours ([App.tsx],
    lines 128-133, 321-328, 533-537 and 583-609) *)

Module Palette.

Record PaletteData : Type := Data {
  name : string;
  bg : string;
  surface : string;
  accent : string;
  text : string;
  primary : string;
  secondary : string
}.

Definition PALETTES : list PaletteData :=
  [ Data "Midnight" "#0B1220" "#111C33" "#818CF8" "#EAF0FF" "#818CF8" "#22C55E";
    Data "Ocean" "#0A192F" "#112240" "#64FFDA" "#CCD6F6" "#64FFDA" "#57CBB6";
    Data "Sunset" "#1A1423" "#2D1B3D" "#F97316" "#FFF1E6" "#F97316" "#FBBF24";
    Data "Forest" "#0D1B0E" "#162A17" "#22C55E" "#E8F5E9" "#22C55E" "#86EFAC";
    Data "Mono" "#18181b" "#27272a" "#a1a1aa" "#f4f4f5" "#d4d4d8" "#71717a";
    Data "Candy" "#1F1226" "#2A1833" "#EC4899" "#FDF2F8" "#EC4899" "#F472B6" ].

(** [[pal.bg, pal.surface, pal.accent, pal.text, pal.primary,
    pal.secondary]]. *)
Definition base (pal : PaletteData) : list string :=
  [bg pal; surface pal; accent pal; text pal; primary pal; secondary pal].

(** The channels read by [parseInt(hex.slice(1, 3), 16)] and its two
    siblings. *)
Definition channels (hex : string) : rgb :=
  RGB (JS.parseInt16 (JS.slice 1 3 hex)) (JS.parseInt16 (JS.slice 3 5 hex))
      (JS.parseInt16 (JS.slice 5 7 hex)).

Definition lighter (hex : string) : string :=
  let c := channels hex in
  hex_of_rgb (RGB (Math_min (Num 255) (nlift2 Z.add (red c) (Num 40)))
                  (Math_min (Num 255) (nlift2 Z.add (green c) (Num 40)))
                  (Math_min (Num 255) (nlift2 Z.add (blue c) (Num 40)))).

Definition darker (hex : string) : string :=
  let c := channels hex in
  hex_of_rgb (RGB (Math_max (Num 0) (nlift2 Z.sub (red c) (Num 30)))
                  (Math_max (Num 0) (nlift2 Z.sub (green c) (Num 30)))
                  (Math_max (Num 0) (nlift2 Z.sub (blue c) (Num 30)))).

(** The memo [swatches]: the six roles, then a lighter and a darker variant
    of each, cut to 18 entries. *)
Definition swatches (pal : PaletteData) : list string :=
  take 18 (base pal ++ flat_map (fun hex => [lighter hex; darker hex]) (base pal))%list.

(** The test [if (customSwatches[i])]: an absent entry and the empty string
    are falsy. *)
Definition truthy (v : option string) : option string :=
  match v with
  | Some (String c s) => Some (String c s)
  | _ => None
  end.

(** The memo [displayPal]: the palette with the overrides of its six
    roles. *)
Definition displayPal (pal : PaletteData) (customSwatches : gmap nat string)
  : PaletteData :=
  Data (name pal)
    (default (bg pal) (truthy (customSwatches !! 0%nat)))
    (default (surface pal) (truthy (customSwatches !! 1%nat)))
    (default (accent pal) (truthy (customSwatches !! 2%nat)))
    (default (text pal) (truthy (customSwatches !! 3%nat)))
    (default (primary pal) (truthy (customSwatches !! 4%nat)))
    (default (secondary pal) (truthy (customSwatches !! 5%nat))).

Definition buildExportColors (swatches : list string)
    (customSwatches : gmap nat string) (roleNames : list string)
  : list ExportColor :=
  imap (fun i c =>
          Color (default ("--color-" ++ JS.toStringRadix 10 (Num (Z.of_nat i)))
                   (roleNames !! i))
                (default c (customSwatches !! i)))
    swatches.

Definition ROLE_NAMES : list string :=
  ["--color-bg"; "--color-surface"; "--color-accent"; "--color-text";
   "--color-primary"; "--color-secondary"].

(** [getExportColors], with the state it reads as arguments. *)
Definition getExportColors (swatches : list string)
    (customSwatches : gmap nat string) : list ExportColor :=
  buildExportColors (take 6 swatches) customSwatches ROLE_NAMES.

End Palette.

(** ** The handlers that write the overrides ([App.tsx], lines 956-963,
    1030-1034, 1247-1260 and 1381-1386) *)

Module Editor.

(** The hex field and the apply button: [/^#[0-9a-fA-F]{6}$/.test(v)]
    guards [{ ...s, [selectedSwatch]: v }]. *)
Definition applyHex (selectedSwatch : option nat) (v : string)
    (s : gmap nat string) : gmap nat string :=
  match selectedSwatch with
  | Some i => if well_formed v then <[i := v]> s else s
  | None => s
  end.

(** The paste box of the generator: the overrides after [Enter]. *)
Definition pastePalette (input : string) (s : gmap nat string)
  : gmap nat string :=
  let hexes := PaletteImport.match_hexes input in
  if (2 <=? length hexes)%nat then map_seq 0 (take 6 hexes) else s.

(** Rescan: [if (Number(k) < 6) kept[Number(k)] = v] over the entries. *)
Definition rescan (prev : gmap nat string) : gmap nat string :=
  filter (fun kv => (kv.1 < 6)%nat) prev.

End Editor.

(** ** The contrast panel ([App.tsx], lines 611-621) *)

Module Panel.

(** [activeColor]: the selected swatch, else the accent of the displayed
    palette; [None] stands for [undefined]. *)
Definition activeColor (selectedSwatch : option nat)
    (customSwatches : gmap nat string) (swatches : list string)
    (displayPal : Palette.PaletteData) : option string :=
  match selectedSwatch with
  | Some i => from_option Some (swatches !! i) (customSwatches !! i)
  | None => Some (Palette.accent displayPal)
  end.

(** [bgForContrast]: the background swatch when a swatch other than the
    first is selected, else the background of the displayed palette. *)
Definition bgForContrast (selectedSwatch : option nat)
    (customSwatches : gmap nat string) (swatches : list string)
    (displayPal : Palette.PaletteData) : option string :=
  match selectedSwatch with
  | Some (S _) => from_option Some (swatches !! 0%nat) (customSwatches !! 0%nat)
  | _ => Some (Palette.bg displayPal)
  end.

(** [contrastRatio(activeColor, bgForContrast)]; [None] is the [TypeError]
    raised by [slice] on [undefined]. *)
Definition ratio (selectedSwatch : option nat)
    (customSwatches : gmap nat string) (swatches : list string)
    (displayPal : Palette.PaletteData) : option (Number R) :=
  match activeColor selectedSwatch customSwatches swatches displayPal,
        bgForContrast selectedSwatch customSwatches swatches displayPal with
  | Some a, Some b => Some (contrastRatio a b)
  | _, _ => None
  end.

Record badges : Type := Badges {
  passAANorm : bool;
  passAAANorm : bool;
  passAALarge : bool;
  passAAALarge : bool
}.

Definition wcag (ratio : Number R) : badges :=
  Badges (nge ratio (Num 4.5%R)) (nge ratio (Num 7%R)) (nge ratio (Num 3%R))
         (nge ratio (Num 4.5%R)).

End Panel.

(** ** The demo contrast ([App.tsx], lines 307-319) *)

Module Demo.

(** The [reduce] over the characters, [i] being the index of the next
    one. *)
Fixpoint weigh (i : Z) (s : string) (acc : Number Z) : Number Z :=
  match s with
  | EmptyString => acc
  | String ch s' =>
      weigh (i + 1) s'
        (nlift2 Z.add acc
           (nlift2 Z.mul (nlift2 Z.add (JS.parseInt16 (String ch "")) (Num 1))
              (Num (i + 1))))
  end.

Definition n (s : string) : Number Z := weigh 0 (JS.strip_hash s) (Num 0).

(** [Math.round(x)]: the integer nearest to [x], the larger one on a
    tie. *)
Definition Math_round (x : Q) : Z := Qfloor (x + (1 # 2)).

Definition fakeContrast (hexA hexB : string) : Number Q :=
  let a := n hexA in
  let b := n hexB in
  let ratio :=
    nmap (fun d => 1 + inject_Z (Z.rem (Z.abs d) 800) / 100)%Q
      (nlift2 Z.sub a b) in
  nmap (fun q => inject_Z (Math_round (q * 10)) / 10)%Q ratio.

(** [calcPct] of the before/after slider ([App.tsx], lines 1791-1796):
    [rect] holds [r.left] and [r.width] of the container, absent before it
    is mounted; the result is the new percentage.  The quotient and the
    product are exact rationals here and doubles in the source, whose
    rounding can move a value off a tie of [Math.round]: 57 pixels into a
    container 200 wide, the exact product is 28.5, rounded to 29, while the
    double is just below 28.5, rounded to 28.  What is proved of [calcPct]
    is the range of the result, not its last unit. *)
Definition Qminb (x y : Q) : Q := if Qle_bool x y then x else y.

Definition calcPct (rect : option (Q * Q)) (clientX : Q) (pct : Number Z)
  : Number Z :=
  match rect with
  | None => pct
  | Some (r_left, r_width) =>
      let x := Qminb (CMYK.Qmaxb 0 (clientX - r_left)) r_width in
      if Qeq_bool r_width 0 then NaN
      else Num (Math_round (x / r_width * 100))
  end.

End Demo.

(** ** Colours made of bytes *)

(** Colours whose three channels are integers between 0 and 255. *)
Definition bytes (c : rgb) : Prop :=
  exists r g b,
    c = RGB (Num r) (Num g) (Num b)
    /\ 0 <= r <= 255 /\ 0 <= g <= 255 /\ 0 <= b <= 255.

(** ** Text that holds no colour *)

(** A text in which [#] does not occur: the import finds nothing in it. *)
Definition hashless (s : string) : Prop :=
  Forall (fun c => c <> "#"%char) (list_ascii_of_string s).

(** The same, as a test on a closed text. *)
Definition hashless_b (s : string) : bool :=
  forallb (fun c => negb (Ascii.eqb c "#"%char)) (list_ascii_of_string s).
(** * Properties *)

(** ** Code units and radix-16 digits *)

(** ** Text *)

Lemma append_Empty (s : string) : "" ++ s = s.
Proof. reflexivity. Qed.

Lemma append_String (c : ascii) (s t : string) :
  String c s ++ t = String c (s ++ t).
Proof. reflexivity. Qed.

Lemma append_assoc (a b c : string) : (a ++ b) ++ c = a ++ (b ++ c).
Proof.
  induction a as [|x a IH]; [done|].
  rewrite !append_String. by rewrite IH.
Qed.

Lemma append_nil_r (a : string) : a ++ "" = a.
Proof.
  induction a as [|x a IH]; [done|]. rewrite append_String. by rewrite IH.
Qed.

Lemma append_cancel_l (p s t : string) : p ++ s = p ++ t -> s = t.
Proof.
  induction p as [|c p IH]; rewrite ?append_String, ?append_Empty;
    intros H; [done|].
  inversion H. auto.
Qed.

Lemma length_append (a b : string) :
  String.length (a ++ b) = (String.length a + String.length b)%nat.
Proof.
  induction a as [|x a IH]; [done|]. rewrite append_String. simpl.
  by rewrite IH.
Qed.

Lemma substring_0_0 (s : string) : String.substring 0 0 s = "".
Proof. by destruct s. Qed.

(** Appends are normalised to the right, one character at a time. *)
Create Rewrite HintDb text.
#[local] Hint Rewrite append_assoc append_String append_Empty : text.

(** Turns the boolean tests on integers of a goal or hypothesis into
    propositions for [lia]. *)
Ltac zbool :=
  repeat match goal with
  | |- context [?a <=? ?b] => destruct (Z.leb_spec a b)
  | |- context [?a <? ?b] => destruct (Z.ltb_spec a b)
  | |- context [?a =? ?b] => destruct (Z.eqb_spec a b)
  | H : context [?a <=? ?b] |- _ => destruct (Z.leb_spec a b)
  | H : context [?a <? ?b] |- _ => destruct (Z.ltb_spec a b)
  | H : context [?a =? ?b] |- _ => destruct (Z.eqb_spec a b)
  end; simpl in *; try discriminate; try lia.

Lemma hex_digit_spec (c : ascii) (d : Z) :
  JS.hex_digit c = Some d ->
  (48 <= JS.code c <= 57 /\ d = JS.code c - 48)
  \/ (97 <= JS.code c <= 102 /\ d = JS.code c - 87)
  \/ (65 <= JS.code c <= 70 /\ d = JS.code c - 55).
Proof.
  unfold JS.hex_digit. intros H. zbool; inversion H; lia.
Qed.

Lemma hex_digit_range (c : ascii) (d : Z) :
  JS.hex_digit c = Some d -> 0 <= d <= 15.
Proof. intros H. apply hex_digit_spec in H. lia. Qed.

Lemma is_hex_digit (c : ascii) :
  JS.is_hex c = true -> exists d, JS.hex_digit c = Some d.
Proof.
  unfold JS.is_hex. destruct (JS.hex_digit c) as [d|]; [eauto | discriminate].
Qed.

Lemma hex_not_space (c : ascii) (d : Z) :
  JS.hex_digit c = Some d -> JS.is_space c = false.
Proof.
  intros H. apply hex_digit_spec in H. unfold JS.is_space. zbool.
Qed.

Lemma hex_not_char (c : ascii) (d : Z) (x : ascii) :
  JS.hex_digit c = Some d -> JS.hex_digit x = None -> Ascii.eqb c x = false.
Proof.
  intros H Hx. destruct (Ascii.eqb_spec c x) as [Heq|Hne].
  - congruence.
  - reflexivity.
Qed.

(** Two radix-16 digits parse to the byte they denote. *)
Lemma parseInt16_byte (a b : ascii) (da db : Z) :
  JS.hex_digit a = Some da -> JS.hex_digit b = Some db ->
  JS.parseInt16 (String a (String b "")) = Num (16 * da + db).
Proof.
  intros Ha Hb. unfold JS.parseInt16. simpl JS.trim_start.
  rewrite (hex_not_space a da Ha).
  rewrite (hex_not_char a da "-"%char Ha eq_refl).
  rewrite (hex_not_char a da "+"%char Ha eq_refl).
  unfold JS.strip_0x.
  rewrite (hex_not_char b db "x"%char Hb eq_refl).
  rewrite (hex_not_char b db "X"%char Hb eq_refl).
  rewrite andb_false_r. simpl. rewrite Ha, Hb. f_equal; lia.
Qed.

Lemma parseInt16_byte_range (a b : ascii) :
  JS.is_hex a = true -> JS.is_hex b = true ->
  exists n, JS.parseInt16 (String a (String b "")) = Num n /\ 0 <= n <= 255.
Proof.
  intros Ha Hb.
  destruct (is_hex_digit a Ha) as [da Hda], (is_hex_digit b Hb) as [db Hdb].
  exists (16 * da + db). split; [by apply parseInt16_byte |].
  apply hex_digit_range in Hda, Hdb. lia.
Qed.

(** The shape of a well-formed colour. *)
Lemma well_formed_inv (s : string) :
  well_formed s = true ->
  exists c1 c2 c3 c4 c5 c6,
    s = String "#" (String c1 (String c2 (String c3 (String c4
          (String c5 (String c6 ""))))))
    /\ JS.is_hex c1 = true /\ JS.is_hex c2 = true /\ JS.is_hex c3 = true
    /\ JS.is_hex c4 = true /\ JS.is_hex c5 = true /\ JS.is_hex c6 = true.
Proof.
  destruct s as [|c s]; [discriminate|]. simpl.
  rewrite !andb_true_iff. intros [[Hc Hlen] Hhex].
  apply Ascii.eqb_eq in Hc. subst c.
  do 6 (destruct s as [|? s]; [discriminate|]).
  destruct s; [|discriminate].
  simpl in Hhex. rewrite !andb_true_iff in Hhex.
  destruct Hhex as (?&?&?&?&?&?&_). eauto 15.
Qed.

(** The three channels of a well-formed colour, as [luminance] and the
    converters read them. *)
Lemma well_formed_channels (s : string) :
  well_formed s = true ->
  exists r g b,
    (0 <= r <= 255 /\ 0 <= g <= 255 /\ 0 <= b <= 255)
    /\ JS.parseInt16 (JS.slice 1 3 s) = Num r
    /\ JS.parseInt16 (JS.slice 3 5 s) = Num g
    /\ JS.parseInt16 (JS.slice 5 7 s) = Num b
    /\ JS.slice 0 6 (JS.strip_hash s) = JS.strip_hash s
    /\ JS.parseInt16 (JS.slice 0 2 (JS.strip_hash s)) = Num r
    /\ JS.parseInt16 (JS.slice 2 4 (JS.strip_hash s)) = Num g
    /\ JS.parseInt16 (JS.slice 4 6 (JS.strip_hash s)) = Num b.
Proof.
  intros H. apply well_formed_inv in H.
  destruct H as (c1&c2&c3&c4&c5&c6&->&H1&H2&H3&H4&H5&H6).
  destruct (parseInt16_byte_range c1 c2 H1 H2) as (r&Hr&?).
  destruct (parseInt16_byte_range c3 c4 H3 H4) as (g&Hg&?).
  destruct (parseInt16_byte_range c5 c6 H5 H6) as (b&Hb&?).
  exists r, g, b. cbn. rewrite Hr, Hg, Hb. done.
Qed.

(** ** Real arithmetic *)

Local Open Scope R_scope.

Lemma Rleb_true (x y : R) : x <= y -> Rleb x y = true.
Proof. intros H. unfold Rleb. destruct (Rle_dec x y); [done | lra]. Qed.

Lemma Rleb_false (x y : R) : y < x -> Rleb x y = false.
Proof. intros H. unfold Rleb. destruct (Rle_dec x y); [lra | done]. Qed.

Lemma Rltb_true (x y : R) : x < y -> Rltb x y = true.
Proof. intros H. unfold Rltb. destruct (Rlt_dec x y); [done | lra]. Qed.

Lemma Rltb_false (x y : R) : y <= x -> Rltb x y = false.
Proof. intros H. unfold Rltb. destruct (Rlt_dec x y); [lra | done]. Qed.

Lemma Rleb_spec (x y : R) : Rleb x y = true <-> x <= y.
Proof. unfold Rleb. destruct (Rle_dec x y); split; (done || lra). Qed.

Lemma Rltb_spec (x y : R) : Rltb x y = true <-> x < y.
Proof. unfold Rltb. destruct (Rlt_dec x y); split; (done || lra). Qed.

Lemma Rpower_one (y : R) : Rpower 1 y = 1.
Proof. unfold Rpower. rewrite ln_1, Rmult_0_r. apply exp_0. Qed.

Lemma Rpower_unit_interval (x y : R) :
  0 < x <= 1 -> 0 < y -> 0 < Rpower x y <= 1.
Proof.
  intros [Hx0 Hx1] Hy. split.
  - unfold Rpower. apply exp_pos.
  - rewrite <- (Rpower_one y). apply Rle_Rpower_l; lra.
Qed.

(** ** The WCAG transfer function *)

Lemma wcag_f_spec (c : R) : wcag_f (Num c) = Num (spec_gamma c).
Proof.
  unfold wcag_f, spec_gamma, nle, ncmp.
  destruct (Rleb c 0.03928) eqn:E; [done|].
  assert (0.03928 < c).
  { unfold Rleb in E. destruct (Rle_dec c 0.03928); [done | lra]. }
  unfold ndiv, nadd, nlift2, Math_pow_2_4, nbind.
  rewrite Rltb_true; [done|].
  apply Rdiv_lt_0_compat; lra.
Qed.

Lemma spec_gamma_range (c : R) : 0 <= c <= 1 -> 0 <= spec_gamma c <= 1.
Proof.
  intros Hc. unfold spec_gamma. destruct (Rleb c 0.03928) eqn:E.
  - apply Rleb_spec in E. lra.
  - assert (0.03928 < c).
    { unfold Rleb in E. destruct (Rle_dec c 0.03928); [done | lra]. }
    assert (0 < (c + 0.055) / 1.055 <= 1) as Hb.
    { split; [apply Rdiv_lt_0_compat; lra|].
      apply Rmult_le_reg_r with 1.055; [lra|].
      unfold Rdiv. rewrite Rmult_assoc, Rinv_l; lra. }
    pose proof (Rpower_unit_interval _ 2.4 Hb ltac:(lra)). lra.
Qed.

Lemma luminance_channels (s : string) (r g b : Z) :
  JS.parseInt16 (JS.slice 1 3 s) = Num r ->
  JS.parseInt16 (JS.slice 3 5 s) = Num g ->
  JS.parseInt16 (JS.slice 5 7 s) = Num b ->
  luminance s = Num (spec_luminance r g b).
Proof.
  intros Hr Hg Hb. unfold luminance. rewrite Hr, Hg, Hb.
  unfold of_int, ndiv, nmap. cbn [nlift2]. rewrite !wcag_f_spec. done.
Qed.

Lemma byte_unit (n : Z) : (0 <= n <= 255)%Z -> 0 <= IZR n / 255 <= 1.
Proof.
  intros [H0 H1]. apply IZR_le in H0, H1. lra.
Qed.

Lemma spec_luminance_range (r g b : Z) :
  (0 <= r <= 255)%Z -> (0 <= g <= 255)%Z -> (0 <= b <= 255)%Z ->
  0 <= spec_luminance r g b <= 1.
Proof.
  intros Hr Hg Hb. unfold spec_luminance.
  pose proof (spec_gamma_range _ (byte_unit r Hr)).
  pose proof (spec_gamma_range _ (byte_unit g Hg)).
  pose proof (spec_gamma_range _ (byte_unit b Hb)). lra.
Qed.

Lemma luminance_well_formed (s : string) :
  well_formed s = true ->
  exists r g b,
    ((0 <= r <= 255)%Z /\ (0 <= g <= 255)%Z /\ (0 <= b <= 255)%Z)
    /\ JS.parseInt16 (JS.slice 1 3 s) = Num r
    /\ JS.parseInt16 (JS.slice 3 5 s) = Num g
    /\ JS.parseInt16 (JS.slice 5 7 s) = Num b
    /\ luminance s = Num (spec_luminance r g b).
Proof.
  intros H. destruct (well_formed_channels s H) as (r&g&b&Hrng&Hr&Hg&Hb&_).
  exists r, g, b. repeat split; try tauto; try done.
  by apply luminance_channels.
Qed.

Lemma luminance_range (s : string) :
  well_formed s = true -> exists x, luminance s = Num x /\ 0 <= x <= 1.
Proof.
  intros H. destruct (luminance_well_formed s H) as (r&g&b&(?&?&?)&_&_&_&->).
  eexists. split; [done|]. by apply spec_luminance_range.
Qed.

(** ** The contrast ratio *)

Lemma contrastRatio_num (a b : string) (la lb : R) :
  luminance a = Num la -> luminance b = Num lb ->
  contrastRatio a b
  = Num (if Rltb (lb + 0.05) (la + 0.05)
         then (la + 0.05) / (lb + 0.05) else (lb + 0.05) / (la + 0.05)).
Proof.
  intros Ha Hb. unfold contrastRatio. rewrite Ha, Hb.
  unfold ngt, nlt, nadd, ndiv. cbn [nlift2 ncmp].
  by destruct (Rltb (lb + 0.05) (la + 0.05)).
Qed.

Lemma contrastRatio_max_min (a b : string) (la lb : R) :
  luminance a = Num la -> luminance b = Num lb ->
  contrastRatio a b = Num ((Rmax la lb + 0.05) / (Rmin la lb + 0.05)).
Proof.
  intros Ha Hb. rewrite (contrastRatio_num a b la lb Ha Hb). f_equal.
  destruct (Rltb (lb + 0.05) (la + 0.05)) eqn:E.
  - apply Rltb_spec in E. rewrite Rmax_left, Rmin_right; lra.
  - assert (la <= lb).
    { unfold Rltb in E. destruct (Rlt_dec (lb + 0.05) (la + 0.05)); [done|lra]. }
    rewrite Rmax_right, Rmin_left; lra.
Qed.

(** Swapping the arguments never changes the ratio, [NaN] included. *)
Lemma contrastRatio_sym (a b : string) : contrastRatio a b = contrastRatio b a.
Proof.
  destruct (luminance a) as [|la] eqn:Ha, (luminance b) as [|lb] eqn:Hb;
    try (unfold contrastRatio; rewrite Ha, Hb; reflexivity).
  rewrite (contrastRatio_max_min a b la lb Ha Hb).
  rewrite (contrastRatio_max_min b a lb la Hb Ha).
  by rewrite Rmax_comm, Rmin_comm.
Qed.

Lemma ratio_bounds (la lb : R) :
  0 <= la <= 1 -> 0 <= lb <= 1 ->
  1 <= (Rmax la lb + 0.05) / (Rmin la lb + 0.05) <= 21.
Proof.
  intros Ha Hb.
  assert (Rmin la lb <= Rmax la lb) by (apply Rle_trans with la;
    [apply Rmin_l | apply Rmax_l]).
  assert (0 <= Rmin la lb) by (apply Rmin_glb; lra).
  assert (Rmax la lb <= 1) by (apply Rmax_lub; lra).
  split.
  - apply Rmult_le_reg_r with (Rmin la lb + 0.05); [lra|].
    unfold Rdiv. rewrite Rmult_assoc, Rinv_l; lra.
  - apply Rmult_le_reg_r with (Rmin la lb + 0.05); [lra|].
    unfold Rdiv. rewrite Rmult_assoc, Rinv_l; lra.
Qed.

(** C3. For well-formed colours the contrast ratio is symmetric, is 1 of a
    colour against itself, and is the quotient
    [(L_max + 0.05) / (L_min + 0.05)] of the two luminances, which lies
    between 1 and 21. *)
Theorem contrastRatio_symmetry_identity_range (a b : string) :
  well_formed a = true -> well_formed b = true ->
  contrastRatio a b = contrastRatio b a
  /\ contrastRatio a a = Num 1
  /\ exists la lb,
       luminance a = Num la /\ luminance b = Num lb
       /\ contrastRatio a b = Num ((Rmax la lb + 0.05) / (Rmin la lb + 0.05))
       /\ 1 <= (Rmax la lb + 0.05) / (Rmin la lb + 0.05) <= 21.
Proof.
  intros Ha Hb.
  destruct (luminance_range a Ha) as (la&Hla&?).
  destruct (luminance_range b Hb) as (lb&Hlb&?).
  split; [apply contrastRatio_sym|]. split.
  - rewrite (contrastRatio_num a a la la Hla Hla). f_equal.
    rewrite Rltb_false by lra. field. lra.
  - exists la, lb. repeat split; try done.
    + by apply contrastRatio_max_min.
    + by apply ratio_bounds.
    + by apply ratio_bounds.
Qed.

Lemma contrastRatio_symmetry_identity_range_witness :
  well_formed "#0B1220" = true /\ well_formed "#EAF0FF" = true
  /\ contrastRatio "#0B1220" "#EAF0FF" = contrastRatio "#EAF0FF" "#0B1220"
  /\ contrastRatio "#0B1220" "#0B1220" = Num 1.
Proof.
  pose proof (contrastRatio_symmetry_identity_range "#0B1220" "#EAF0FF"
                eq_refl eq_refl) as (Hs & Hi & _).
  repeat split; [exact Hs | exact Hi].
Defined.

Local Close Scope R_scope.

(** ** Luminance of black and white; the two thresholds *)

Local Open Scope R_scope.

Lemma toLinear_num (v : R) : exists y, toLinear (Num v) = Num y.
Proof.
  unfold toLinear, nle, ndiv, nadd. cbn [nlift2 ncmp].
  destruct (Rleb (v / 255) 0.04045) eqn:E; [eauto|].
  assert (0.04045 < v / 255).
  { unfold Rleb in E. destruct (Rle_dec (v / 255) 0.04045); [done | lra]. }
  unfold Math_pow_2_4, nbind. rewrite Rltb_true; [eauto|].
  apply Rdiv_lt_0_compat; lra.
Qed.

(** Between the two thresholds [luminance] already uses the power branch
    while [toLinear] still uses the linear one. *)
Lemma thresholds_distinct (c : R) :
  0.03928 < c <= 0.04045 ->
  wcag_f (Num c) = Num (Rpower ((c + 0.055) / 1.055) 2.4)
  /\ toLinear (Num (c * 255)) = Num (c * 255 / 255 / 12.92).
Proof.
  intros [H1 H2]. split.
  - rewrite wcag_f_spec. unfold spec_gamma. by rewrite Rleb_false.
  - unfold toLinear, nle, ndiv. cbn [nlift2 ncmp].
    rewrite Rleb_true; [done|]. lra.
Qed.

(** X2. No channel byte falls between the thresholds: on every integer
    channel value the gamma expansion of [luminance] and [toLinear]
    coincide. *)
Theorem thresholds_agree_on_bytes (n : Z) :
  wcag_f (Num (IZR n / 255)) = toLinear (Num (IZR n)).
Proof.
  rewrite wcag_f_spec. unfold spec_gamma, toLinear, nle, ndiv, nadd.
  cbn [nlift2 ncmp].
  destruct (Z_le_gt_dec n 10) as [Hle|Hgt].
  - apply IZR_le in Hle. rewrite !Rleb_true by lra. done.
  - assert (11 <= n)%Z as Hge by lia. apply IZR_le in Hge.
    rewrite !Rleb_false by lra.
    unfold Math_pow_2_4, nbind. rewrite Rltb_true; [done|].
    apply Rdiv_lt_0_compat; lra.
Qed.

Lemma luminance_black : luminance "#000000" = Num 0.
Proof.
  rewrite (luminance_channels "#000000" 0 0 0) by reflexivity.
  f_equal. unfold spec_luminance, spec_gamma.
  rewrite Rleb_true by lra. lra.
Qed.

Lemma luminance_white : luminance "#FFFFFF" = Num 1.
Proof.
  rewrite (luminance_channels "#FFFFFF" 255 255 255) by reflexivity.
  f_equal. unfold spec_luminance, spec_gamma.
  rewrite Rleb_false by lra.
  replace ((255 / 255 + 0.055) / 1.055) with 1 by lra.
  rewrite Rpower_one. lra.
Qed.

(** C4. The luminance of black is 0 and of white is 1; on a well-formed
    colour the luminance is the weighted sum [0.2126 R + 0.7152 G + 0.0722 B]
    of the gamma-expanded channel bytes, with the WCAG branch at 0.03928;
    and that threshold is not the 0.04045 of [toLinear]: between the two,
    [luminance] takes the power branch and [toLinear] the linear one. *)
Theorem luminance_extremes_formula_thresholds (s : string) :
  well_formed s = true ->
  luminance "#000000" = Num 0
  /\ luminance "#FFFFFF" = Num 1
  /\ (exists r g b,
        JS.parseInt16 (JS.slice 1 3 s) = Num r
        /\ JS.parseInt16 (JS.slice 3 5 s) = Num g
        /\ JS.parseInt16 (JS.slice 5 7 s) = Num b
        /\ luminance s = Num (spec_luminance r g b))
  /\ (forall c, c <= 0.03928 -> wcag_f (Num c) = Num (c / 12.92))
  /\ (forall c, 0.03928 < c ->
        wcag_f (Num c) = Num (Rpower ((c + 0.055) / 1.055) 2.4))
  /\ (forall c, 0.03928 < c <= 0.04045 ->
        toLinear (Num (c * 255)) = Num (c * 255 / 255 / 12.92)).
Proof.
  intros H. split; [apply luminance_black|]. split; [apply luminance_white|].
  split; [|split; [|split]].
  - destruct (luminance_well_formed s H) as (r&g&b&_&Hr&Hg&Hb&Hl).
    exists r, g, b. done.
  - intros c Hc. rewrite wcag_f_spec. unfold spec_gamma.
    by rewrite Rleb_true.
  - intros c Hc. rewrite wcag_f_spec. unfold spec_gamma.
    by rewrite Rleb_false.
  - intros c Hc. by apply thresholds_distinct.
Qed.

Lemma luminance_extremes_formula_thresholds_witness :
  well_formed "#818CF8" = true
  /\ luminance "#000000" = Num 0 /\ luminance "#FFFFFF" = Num 1
  /\ luminance "#818CF8" = Num (spec_luminance 129 140 248)
  /\ toLinear (Num (0.04 * 255)) = Num (0.04 * 255 / 255 / 12.92)
  /\ wcag_f (Num 0.04) = Num (Rpower ((0.04 + 0.055) / 1.055) 2.4).
Proof.
  pose proof (luminance_extremes_formula_thresholds "#818CF8" eq_refl)
    as (Hb & Hw & (r & g & b & Hr & Hg & Hbl & Hl) & _ & Hp & Ht).
  vm_compute in Hr, Hg, Hbl.
  injection Hr as <-. injection Hg as <-. injection Hbl as <-.
  repeat split; try done.
  - apply Ht. lra.
  - apply Hp. lra.
Defined.

(** ** The OKLCH hue *)

Lemma atan_nonpos (x : R) : x <= 0 -> atan x <= 0.
Proof.
  intros [Hlt| ->].
  - rewrite <- atan_0. left. by apply atan_increasing.
  - rewrite atan_0. lra.
Qed.

Lemma atan_pos (x : R) : 0 < x -> 0 < atan x.
Proof. intros H. rewrite <- atan_0. by apply atan_increasing. Qed.

Lemma atan2_range (y x : R) : - PI < OKLCH.atan2 y x <= PI.
Proof.
  pose proof PI_RGT_0 as Hpi.
  unfold OKLCH.atan2.
  destruct (Rltb 0 x) eqn:E1.
  { pose proof (atan_bound (y / x)). lra. }
  destruct (Rltb x 0) eqn:E2.
  { apply Rltb_spec in E2.
    pose proof (atan_bound (y / x)) as Hb.
    destruct (Rleb 0 y) eqn:E3.
    - apply Rleb_spec in E3.
      assert (y / x <= 0) as Hq.
      { pose proof (Rinv_lt_0_compat x E2). unfold Rdiv. nra. }
      pose proof (atan_nonpos _ Hq). lra.
    - assert (y < 0).
      { unfold Rleb in E3. destruct (Rle_dec 0 y); [done | lra]. }
      assert (0 < y / x) as Hq.
      { pose proof (Rinv_lt_0_compat x E2). unfold Rdiv. nra. }
      pose proof (atan_pos _ Hq). lra. }
  destruct (Rltb 0 y); [lra|].
  destruct (Rltb y 0); lra.
Qed.

(** The normalisation of the hue, on any two numeric coordinates. *)
Lemma hue_normalised (y x : R) :
  let H := nmul (OKLCH.Math_atan2 (Num y) (Num x)) (ndiv (Num 180) (Num PI)) in
  exists d, (if nlt H (Num 0) then nadd H (Num 360) else H) = Num d
            /\ 0 <= d < 360.
Proof.
  pose proof PI_RGT_0 as Hpi. pose proof (atan2_range y x) as [Hlo Hhi].
  unfold OKLCH.Math_atan2, nmul, ndiv, nlt, nadd. cbn [nlift2 ncmp].
  set (t := OKLCH.atan2 y x) in *.
  assert (180 / PI * PI = 180) as Hk by (field; lra).
  assert (0 < 180 / PI) as Hkpos by (apply Rdiv_lt_0_compat; lra).
  assert (- 180 < t * (180 / PI) <= 180) as [Hl Hu].
  { split; nra. }
  destruct (Rltb (t * (180 / PI)) 0) eqn:E.
  - apply Rltb_spec in E. eexists. split; [done|]. lra.
  - assert (0 <= t * (180 / PI)).
    { unfold Rltb in E. destruct (Rlt_dec (t * (180 / PI)) 0); [done|lra]. }
    eexists. split; [done|]. lra.
Qed.

(** C7. The hue computed by [hexToOklch] on a well-formed colour is a
    number [H] with [0 <= H < 360]. *)
Theorem oklch_hue_range (s : string) :
  well_formed s = true ->
  exists H, OKLCH.h (OKLCH.hexToOklch s) = Num H /\ 0 <= H < 360.
Proof.
  intros Hs.
  destruct (well_formed_channels s Hs)
    as (r & g & b & _ & _ & _ & _ & Hsl & Hr & Hg & Hb).
  unfold OKLCH.hexToOklch. rewrite Hsl, Hr, Hg, Hb.
  unfold of_int. cbn [nmap].
  destruct (toLinear_num (IZR r)) as [lr ->].
  destruct (toLinear_num (IZR g)) as [lg ->].
  destruct (toLinear_num (IZR b)) as [lb ->].
  unfold OKLCH.lin3, OKLCH.Math_cbrt, nadd, nmul. cbn [nlift2 nmap OKLCH.h].
  apply hue_normalised.
Qed.

Lemma oklch_hue_range_witness :
  well_formed "#818CF8" = true
  /\ exists H, OKLCH.h (OKLCH.hexToOklch "#818CF8") = Num H /\ 0 <= H < 360.
Proof.
  split; [reflexivity|]. apply (oklch_hue_range "#818CF8"). reflexivity.
Defined.

Local Close Scope R_scope.

(** ** Channels and their text *)

Lemma substring_length_le (n m : nat) (s : string) :
  (String.length (String.substring n m s) <= m)%nat.
Proof.
  revert n m. induction s as [|c s IH]; intros n m.
  - destruct n, m; simpl; lia.
  - destruct n as [|n]; destruct m as [|m]; simpl; try lia.
    + specialize (IH 0%nat m). lia.
    + apply IH.
    + apply IH.
Qed.

Lemma slice_length_le (i : nat) (s : string) :
  (String.length (JS.slice i (i + 2) s) <= 2)%nat.
Proof.
  unfold JS.slice. replace (i + 2 - i)%nat with 2%nat by lia.
  apply substring_length_le.
Qed.

(** Closes a goal [x = NaN \/ exists z, x = Num z /\ lo <= z <= hi] once
    [x] is a constructor. *)
Ltac nan_or_bounded :=
  simpl;
  repeat match goal with
  | H : JS.hex_digit _ = Some _ |- _ => apply hex_digit_range in H
  end;
  first [ left; reflexivity
        | right; eexists; split; [reflexivity | lia] ].

Lemma digits16_two (a b : ascii) :
  JS.digits16 (String a (String b "")) NaN = NaN
  \/ exists z, JS.digits16 (String a (String b "")) NaN = Num z
               /\ 0 <= z <= 255.
Proof.
  simpl. destruct (JS.hex_digit a) eqn:Ha; [|nan_or_bounded].
  destruct (JS.hex_digit b) eqn:Hb; nan_or_bounded.
Qed.

Lemma digits16_one (a : ascii) :
  JS.digits16 (String a "") NaN = NaN
  \/ exists z, JS.digits16 (String a "") NaN = Num z /\ 0 <= z <= 15.
Proof.
  simpl. destruct (JS.hex_digit a) eqn:Ha; nan_or_bounded.
Qed.

(** What [parseInt] can read from at most two characters. *)
Lemma parseInt16_short (s : string) :
  (String.length s <= 2)%nat ->
  JS.parseInt16 s = NaN
  \/ exists z, JS.parseInt16 s = Num z /\ -15 <= z <= 255.
Proof.
  destruct s as [|a [|b [|c s]]]; simpl String.length; intros Hlen;
    try lia.
  - by left.
  - unfold JS.parseInt16. simpl JS.trim_start.
    destruct (JS.is_space a); [by left|].
    destruct (Ascii.eqb a "-"); [by left|].
    destruct (Ascii.eqb a "+"); [by left|].
    cbn [JS.strip_0x].
    destruct (digits16_one a) as [->|(z&->&?)]; [by left|].
    right. exists z. split; [done | lia].
  - unfold JS.parseInt16. simpl JS.trim_start.
    destruct (JS.is_space a).
    { destruct (JS.is_space b); [by left|].
      destruct (Ascii.eqb b "-"); [by left|].
      destruct (Ascii.eqb b "+"); [by left|].
      cbn [JS.strip_0x].
      destruct (digits16_one b) as [->|(z&->&?)]; [by left|].
      right. exists z. split; [done | lia]. }
    destruct (Ascii.eqb a "-").
    { cbn [JS.strip_0x]. destruct (digits16_one b) as [->|(z&->&?)]; [by left|].
      right. exists (- z). split; [done | lia]. }
    destruct (Ascii.eqb a "+").
    { cbn [JS.strip_0x]. destruct (digits16_one b) as [->|(z&->&?)]; [by left|].
      right. exists z. split; [done | lia]. }
    unfold JS.strip_0x.
    destruct (Ascii.eqb a "0" && (Ascii.eqb b "x" || Ascii.eqb b "X"));
      [by left|].
    destruct (digits16_two a b) as [->|(z&->&?)]; [by left|].
    right. exists z. split; [done | lia].
Qed.

Lemma parseInt16_slice_in (i : nat) (s : string) :
  channel_in (-15) (JS.parseInt16 (JS.slice i (i + 2) s)).
Proof.
  destruct (parseInt16_short _ (slice_length_le i s)) as [->|(z&->&?)];
    simpl; [done | lia].
Qed.

Lemma rgb_of_hex_in (current : string) : rgb_in (-15) (rgb_of_hex current).
Proof.
  unfold rgb_of_hex, rgb_in. cbn [red green blue].
  split; [|split].
  - apply (parseInt16_slice_in 0).
  - apply (parseInt16_slice_in 2).
  - apply (parseInt16_slice_in 4).
Qed.

(** A channel between -3 and 255 is written with two characters, which
    [parseInt] reads back. *)
Lemma channel_text (z : Z) :
  -3 <= z <= 255 ->
  exists a b,
    JS.padStart2 (JS.toString16 (Num z)) = String a (String b "")
    /\ JS.parseInt16 (String a (String b "")) = Num z.
Proof.
  intros Hz.
  pose (chk := fun z : Z =>
    match JS.padStart2 (JS.toString16 (Num z)) with
    | String a (String b "") =>
        match JS.parseInt16 (String a (String b "")) with
        | Num z' => z' =? z
        | NaN => false
        end
    | _ => false
    end).
  assert (forallb chk (seqZ (-3) 259) = true) as Hall by (vm_compute; reflexivity).
  rewrite forallb_forall in Hall.
  assert (In z (seqZ (-3) 259)) as Hin.
  { apply list_elem_of_In, elem_of_seqZ. lia. }
  specialize (Hall z Hin). unfold chk in Hall.
  destruct (JS.padStart2 (JS.toString16 (Num z))) as [|a [|b [|? ?]]];
    try discriminate.
  exists a, b. split; [done|].
  destruct (JS.parseInt16 (String a (String b ""))) as [|z']; [discriminate|].
  apply Z.eqb_eq in Hall. by subst.
Qed.

(** ** Colours as the specification writes them *)

(** The digits read off the digit strings are those of [parseInt]. *)
Lemma spec_digit_hex_digit (c : ascii) : spec_digit c = JS.hex_digit c.
Proof.
  assert (forallb (fun n => match spec_digit (ascii_of_nat n),
                                  JS.hex_digit (ascii_of_nat n) with
                            | Some x, Some y => x =? y
                            | None, None => true
                            | _, _ => false
                            end) (seq 0 256) = true) as Hall
    by (vm_compute; reflexivity).
  rewrite forallb_forall in Hall. specialize (Hall (nat_of_ascii c)).
  rewrite ascii_nat_embedding in Hall.
  assert (In (nat_of_ascii c) (seq 0 256)) as Hin.
  { apply in_seq. pose proof (nat_ascii_bounded c). lia. }
  specialize (Hall Hin).
  destruct (spec_digit c) as [x|], (JS.hex_digit c) as [y|]; try done.
  apply Z.eqb_eq in Hall. by subst.
Qed.

Lemma spec_byte_parse (a b : ascii) (z : Z) :
  spec_byte a b = Some z ->
  JS.is_hex a = true /\ JS.is_hex b = true /\ 0 <= z <= 255
  /\ JS.parseInt16 (String a (String b "")) = Num z.
Proof.
  unfold spec_byte, JS.is_hex. rewrite !spec_digit_hex_digit.
  destruct (JS.hex_digit a) as [x|] eqn:Ha; [|done].
  destruct (JS.hex_digit b) as [y|] eqn:Hb; [|done].
  intros [= <-]. pose proof (hex_digit_range _ _ Ha).
  pose proof (hex_digit_range _ _ Hb).
  repeat split; try lia. by apply parseInt16_byte.
Qed.

(** A text with three channel bytes is a well-formed colour, and the
    program reads those bytes from it. *)
Lemma spec_channels_parse (s : string) (r g b : Z) :
  spec_channels s = Some (r, g, b) ->
  well_formed s = true
  /\ (0 <= r <= 255 /\ 0 <= g <= 255 /\ 0 <= b <= 255)
  /\ JS.parseInt16 (JS.slice 1 3 s) = Num r
  /\ JS.parseInt16 (JS.slice 3 5 s) = Num g
  /\ JS.parseInt16 (JS.slice 5 7 s) = Num b
  /\ JS.slice 0 6 (JS.strip_hash s) = JS.strip_hash s
  /\ rgb_of_hex s = RGB (Num r) (Num g) (Num b).
Proof.
  destruct s as [|h [|r1 [|r2 [|g1 [|g2 [|b1 [|b2 [|? ?]]]]]]]]; try done.
  cbn [spec_channels]. destruct (Ascii.eqb h "#") eqn:Hh; [|done].
  apply Ascii.eqb_eq in Hh as ->.
  destruct (spec_byte r1 r2) as [r'|] eqn:Hr; [|done].
  destruct (spec_byte g1 g2) as [g'|] eqn:Hg; [|done].
  destruct (spec_byte b1 b2) as [b'|] eqn:Hb; [|done].
  intros [= <- <- <-].
  apply spec_byte_parse in Hr as (Hr1 & Hr2 & Hr & Pr).
  apply spec_byte_parse in Hg as (Hg1 & Hg2 & Hg & Pg).
  apply spec_byte_parse in Hb as (Hb1 & Hb2 & Hb & Pb).
  split.
  { cbn [well_formed JS.all_hex String.length].
    by rewrite Hr1, Hr2, Hg1, Hg2, Hb1, Hb2. }
  split; [done|].
  repeat split; try exact Pr; try exact Pg; try exact Pb.
  unfold rgb_of_hex.
  change (JS.strip_hash (String "#" (String r1 (String r2 (String g1
            (String g2 (String b1 (String b2 "")))))))) 
    with (String r1 (String r2 (String g1 (String g2 (String b1 (String b2 "")))))).
  change (JS.slice 0 2 (String r1 (String r2 (String g1 (String g2
            (String b1 (String b2 "")))))))
    with (String r1 (String r2 "")).
  change (JS.slice 2 4 (String r1 (String r2 (String g1 (String g2
            (String b1 (String b2 "")))))))
    with (String g1 (String g2 "")).
  change (JS.slice 4 6 (String r1 (String r2 (String g1 (String g2
            (String b1 (String b2 "")))))))
    with (String b1 (String b2 "")).
  by rewrite Pr, Pg, Pb.
Qed.

Lemma well_formed_spec_channels (s : string) :
  well_formed s = true -> exists r g b, spec_channels s = Some (r, g, b).
Proof.
  intros H.
  apply well_formed_inv in H as (c1&c2&c3&c4&c5&c6&->&H1&H2&H3&H4&H5&H6).
  cbn [spec_channels Ascii.eqb]. unfold spec_byte.
  rewrite !spec_digit_hex_digit.
  apply is_hex_digit in H1 as [d1 ->]. apply is_hex_digit in H2 as [d2 ->].
  apply is_hex_digit in H3 as [d3 ->]. apply is_hex_digit in H4 as [d4 ->].
  apply is_hex_digit in H5 as [d5 ->]. apply is_hex_digit in H6 as [d6 ->].
  simpl. eauto.
Qed.

(** A byte is printed as its two lower-case digits. *)
Lemma spec_hex2_text (z : Z) :
  0 <= z <= 255 -> JS.padStart2 (JS.toString16 (Num z)) = spec_hex2 z.
Proof.
  intros Hz.
  assert (forallb (fun z => String.eqb (JS.padStart2 (JS.toString16 (Num z)))
                              (spec_hex2 z)) (seqZ 0 256) = true) as Hall
    by (vm_compute; reflexivity).
  rewrite forallb_forall in Hall.
  apply String.eqb_eq, Hall, list_elem_of_In, elem_of_seqZ. lia.
Qed.

Lemma hex_of_rgb_spec (r g b : Z) :
  0 <= r <= 255 -> 0 <= g <= 255 -> 0 <= b <= 255 ->
  hex_of_rgb (RGB (Num r) (Num g) (Num b)) = spec_colour r g b.
Proof.
  intros Hr Hg Hb. unfold hex_of_rgb, spec_colour. cbn [red green blue].
  by rewrite !spec_hex2_text.
Qed.

(** The channels after [k] rounds of the loop body. *)
Lemma spec_stepped_0 (isDark : bool) (z : Z) :
  0 <= z <= 255 -> spec_stepped isDark z 0 = z.
Proof. intros Hz. unfold spec_stepped. destruct isDark; lia. Qed.

Lemma spec_stepped_S (isDark : bool) (z : Z) (k : nat) :
  step_channel isDark (Num (spec_stepped isDark z k))
  = Num (spec_stepped isDark z (S k)).
Proof.
  unfold step_channel, spec_stepped.
  destruct isDark; cbn [Math_min Math_max nlift2]; f_equal; lia.
Qed.

Lemma iter_step_spec (isDark : bool) (r g b : Z) (k : nat) :
  0 <= r <= 255 -> 0 <= g <= 255 -> 0 <= b <= 255 ->
  Nat.iter k (step_rgb isDark) (RGB (Num r) (Num g) (Num b))
  = RGB (Num (spec_stepped isDark r k)) (Num (spec_stepped isDark g k))
        (Num (spec_stepped isDark b k)).
Proof.
  intros Hr Hg Hb. induction k as [|k IH].
  - cbn [Nat.iter]. by rewrite !spec_stepped_0.
  - rewrite Nat.iter_succ, IH. unfold step_rgb. cbn [red green blue].
    by rewrite !spec_stepped_S.
Qed.

Lemma spec_stepped_byte (isDark : bool) (z : Z) (k : nat) :
  0 <= z <= 255 -> 0 <= spec_stepped isDark z k <= 255.
Proof. intros Hz. unfold spec_stepped. destruct isDark; lia. Qed.

(** ** Propagation of [NaN] *)

Lemma nadd_NaN_r (x : Number R) : nadd x NaN = NaN.
Proof. by destruct x. Qed.

Lemma ndiv_NaN_r (x : Number R) : ndiv x NaN = NaN.
Proof. by destruct x. Qed.

Lemma luminance_NaN (s : string) :
  JS.parseInt16 (JS.slice 1 3 s) = NaN
  \/ JS.parseInt16 (JS.slice 3 5 s) = NaN
  \/ JS.parseInt16 (JS.slice 5 7 s) = NaN ->
  luminance s = NaN.
Proof.
  unfold luminance. intros [H|[H|H]]; rewrite H; cbn.
  - done.
  - by rewrite nadd_NaN_r.
  - by rewrite nadd_NaN_r.
Qed.

Lemma contrastRatio_NaN_l (a b : string) :
  luminance a = NaN -> contrastRatio a b = NaN.
Proof.
  intros H. unfold contrastRatio. rewrite H. cbn.
  destruct (ngt NaN (nadd (luminance b) (Num 0.05%R))); [done|].
  by rewrite ndiv_NaN_r.
Qed.

Lemma contrastRatio_is_num (a b : string) (la lb : R) :
  luminance a = Num la -> luminance b = Num lb ->
  exists x, contrastRatio a b = Num x.
Proof.
  intros Ha Hb. rewrite (contrastRatio_num a b la lb Ha Hb). eauto.
Qed.

Lemma not_ge_lt (x : Number R) :
  nge x AA = false -> nlt x AA = false -> x = NaN.
Proof.
  destruct x as [|x]; [done|].
  unfold nge, nle, nlt, AA. cbn [ncmp]. unfold Rleb, Rltb.
  destruct (Rle_dec 4.5 x), (Rlt_dec x 4.5); try done. lra.
Qed.

Lemma nlt_num (x : Number R) : nlt x AA = true -> exists v, x = Num v.
Proof. destruct x; [done | eauto]. Qed.

(** ** The luminance of a stepped colour *)

Lemma hex_of_rgb_num (r g b : Z) :
  -3 <= r <= 255 -> -3 <= g <= 255 -> -3 <= b <= 255 ->
  luminance (hex_of_rgb (RGB (Num r) (Num g) (Num b)))
  = Num (spec_luminance r g b).
Proof.
  intros Hr Hg Hb.
  destruct (channel_text r Hr) as (r1&r2&Er&Pr).
  destruct (channel_text g Hg) as (g1&g2&Eg&Pg).
  destruct (channel_text b Hb) as (b1&b2&Eb&Pb).
  unfold hex_of_rgb. cbn [red green blue]. rewrite Er, Eg, Eb.
  by apply luminance_channels.
Qed.

Lemma hex_of_rgb_NaN (c : rgb) :
  rgb_in (-3) c -> has_NaN c = true -> luminance (hex_of_rgb c) = NaN.
Proof.
  destruct c as [r g b]. unfold rgb_in, has_NaN. cbn [red green blue].
  intros (Hr&Hg&Hb) Hnan. apply luminance_NaN. unfold hex_of_rgb.
  cbn [red green blue].
  destruct r as [|r]; [by left|].
  destruct (channel_text r Hr) as (r1&r2&->&_).
  destruct g as [|g]; [right; by left|].
  destruct (channel_text g Hg) as (g1&g2&->&_).
  destruct b as [|b]; [right; by right|].
  discriminate.
Qed.

Lemma has_NaN_false (c : rgb) :
  has_NaN c = false ->
  exists r g b, c = RGB (Num r) (Num g) (Num b).
Proof.
  destruct c as [[|r] [|g] [|b]]; try discriminate. eauto.
Qed.

(** The luminance of any text that parses is above -0.005: the divisors
    [luminance + 0.05] of [contrastRatio] are positive. *)
Lemma spec_gamma_lower (z : Z) :
  -15 <= z <= 255 -> (-0.005 <= spec_gamma (IZR z / 255))%R.
Proof.
  intros [Hlo Hhi]. apply IZR_le in Hlo, Hhi. unfold spec_gamma.
  destruct (Rleb (IZR z / 255) 0.03928) eqn:E.
  - lra.
  - left. apply Rlt_trans with 0%R; [lra | apply exp_pos].
Qed.

Lemma luminance_lower (s : string) (l : R) :
  luminance s = Num l -> (-0.005 <= l)%R.
Proof.
  intros H.
  pose proof (parseInt16_slice_in 1 s) as Hr.
  pose proof (parseInt16_slice_in 3 s) as Hg.
  pose proof (parseInt16_slice_in 5 s) as Hb.
  change (1 + 2)%nat with 3%nat in Hr. change (3 + 2)%nat with 5%nat in Hg.
  change (5 + 2)%nat with 7%nat in Hb.
  destruct (JS.parseInt16 (JS.slice 1 3 s)) as [|r] eqn:Er.
  { rewrite luminance_NaN in H by auto. discriminate. }
  destruct (JS.parseInt16 (JS.slice 3 5 s)) as [|g] eqn:Eg.
  { rewrite luminance_NaN in H by auto. discriminate. }
  destruct (JS.parseInt16 (JS.slice 5 7 s)) as [|b] eqn:Eb.
  { rewrite luminance_NaN in H by auto. discriminate. }
  rewrite (luminance_channels s r g b Er Eg Eb) in H. injection H as <-.
  cbn [channel_in] in *.
  pose proof (spec_gamma_lower r Hr). pose proof (spec_gamma_lower g Hg).
  pose proof (spec_gamma_lower b Hb). unfold spec_luminance. lra.
Qed.

(** ** One step of the loop *)

Lemma step_channel_in (isDark : bool) (v : Number Z) :
  channel_in (-15) v -> channel_in (-3) (step_channel isDark v).
Proof.
  destruct v as [|z]; [by destruct isDark|].
  destruct isDark; simpl; lia.
Qed.

Lemma channel_in_weaken (v : Number Z) :
  channel_in (-3) v -> channel_in (-15) v.
Proof. destruct v; simpl; [done | lia]. Qed.

Lemma step_rgb_in (isDark : bool) (c : rgb) :
  rgb_in (-15) c -> rgb_in (-3) (step_rgb isDark c).
Proof.
  intros (?&?&?). unfold step_rgb, rgb_in. cbn [red green blue].
  auto using step_channel_in.
Qed.

Lemma rgb_in_weaken (c : rgb) : rgb_in (-3) c -> rgb_in (-15) c.
Proof. intros (?&?&?). repeat split; by apply channel_in_weaken. Qed.

Lemma step_channel_NaN (isDark : bool) (v : Number Z) :
  is_NaN (step_channel isDark v) = is_NaN v.
Proof. by destruct isDark, v. Qed.

Lemma step_rgb_NaN (isDark : bool) (c : rgb) :
  has_NaN (step_rgb isDark c) = has_NaN c.
Proof.
  unfold has_NaN, step_rgb. cbn [red green blue].
  by rewrite !step_channel_NaN.
Qed.

Lemma iter_step_in (isDark : bool) (c : rgb) (k : nat) :
  rgb_in (-15) c -> rgb_in (-3) (Nat.iter (S k) (step_rgb isDark) c).
Proof.
  intros Hc. induction k as [|k IH].
  - by apply step_rgb_in.
  - change (Nat.iter (S (S k)) (step_rgb isDark) c)
      with (step_rgb isDark (Nat.iter (S k) (step_rgb isDark) c)).
    by apply step_rgb_in, rgb_in_weaken.
Qed.

Lemma iter_step_NaN (isDark : bool) (c : rgb) (k : nat) :
  has_NaN (Nat.iter k (step_rgb isDark) c) = has_NaN c.
Proof.
  induction k as [|k IH]; [done|]. simpl. by rewrite step_rgb_NaN.
Qed.

Lemma spec_step_eq (bg : string) (c : rgb) :
  spec_step bg c = step_rgb (ngt (luminance bg) (Num 0.5%R)) c.
Proof. unfold spec_step, step_rgb. by destruct (ngt _ _). Qed.

Lemma iter_ext {A} (f g : A -> A) (x : A) (k : nat) :
  (forall y, f y = g y) -> Nat.iter k f x = Nat.iter k g x.
Proof. intros H. induction k; simpl; congruence. Qed.

(** ** The loop finds the first passing step *)

Lemma find_all_false {A} (p : A -> bool) (xs : list A) :
  (forall x, In x xs -> p x = false) -> List.find p xs = None.
Proof.
  induction xs as [|x xs IH]; [done|]. intros H. simpl.
  rewrite (H x) by (by left). apply IH. intros y Hy. apply H. by right.
Qed.

Lemma steps_shift (isDark : bool) (c : rgb) (n : nat) :
  List.map (fun k => hex_of_rgb (Nat.iter k (step_rgb isDark) c)) (seq 2 n)
  = List.map (fun k => hex_of_rgb (Nat.iter k (step_rgb isDark) (step_rgb isDark c)))
      (seq 1 n).
Proof.
  rewrite <- (seq_shift n 1), List.map_map. apply List.map_ext.
  intros k. by rewrite Nat.iter_succ_r.
Qed.

Section RepairLoop.

Variables (isDark : bool) (bg : string) (lb : R).
Hypothesis background_parses : luminance bg = Num lb.

(** The texts of the first [n] steps from [c]. *)
Let steps (c : rgb) (n : nat) : list string :=
  List.map (fun k => hex_of_rgb (Nat.iter k (step_rgb isDark) c)) (seq 1 n).

Lemma stepped_NaN_fails (c : rgb) (n : nat) :
  rgb_in (-15) c -> has_NaN c = true ->
  List.find (spec_passes bg) (steps c n) = None.
Proof.
  intros Hc Hnan. apply find_all_false. intros x Hx.
  apply in_map_iff in Hx as (k&<-&Hk). apply in_seq in Hk.
  destruct k as [|k]; [lia|].
  unfold spec_passes. rewrite contrastRatio_NaN_l; [done|].
  apply hex_of_rgb_NaN; [by apply iter_step_in|].
  by rewrite iter_step_NaN.
Qed.

(** A step whose ratio is neither [>= 4.5] nor [< 4.5] has a [NaN]
    channel: the ratio of a colour with three numeric channels is a
    number. *)
Lemma stepped_ratio_NaN (c : rgb) :
  rgb_in (-15) c ->
  nge (contrastRatio (hex_of_rgb (step_rgb isDark c)) bg) AA = false ->
  nlt (contrastRatio (hex_of_rgb (step_rgb isDark c)) bg) AA = false ->
  has_NaN (step_rgb isDark c) = true.
Proof.
  intros Hc Hge Hlt. pose proof (not_ge_lt _ Hge Hlt) as Hnan.
  destruct (has_NaN (step_rgb isDark c)) eqn:E; [done|].
  apply has_NaN_false in E as (r&g&b&E).
  pose proof (step_rgb_in isDark c Hc) as Hin. rewrite E in Hin, Hnan.
  destruct Hin as (?&?&?). cbn [red green blue channel_in] in *.
  destruct (contrastRatio_is_num _ bg _ lb
              (hex_of_rgb_num r g b ltac:(done) ltac:(done) ltac:(done))
              background_parses) as [x Hx].
  congruence.
Qed.

(** The loop returns the first of its [n] steps that passes, provided it
    is entered with a ratio below 4.5 or with a [NaN] channel. *)
Lemma repair_loop_find (n : nat) :
  forall (c : rgb) (ratio : Number R),
    rgb_in (-15) c ->
    (nlt ratio AA = false -> has_NaN c = true) ->
    repair_loop n isDark bg c ratio = List.find (spec_passes bg) (steps c n).
Proof.
  induction n as [|n IH]; intros c ratio Hc Hguard; [done|].
  cbn [repair_loop].
  destruct (nlt ratio AA) eqn:Hlt.
  - unfold steps. cbn [seq List.map List.find]. cbn [Nat.iter nat_rect].
    unfold spec_passes at 1.
    destruct (nge (contrastRatio (hex_of_rgb (step_rgb isDark c)) bg) AA)
      eqn:Hge; [done|].
    rewrite steps_shift. apply IH.
    + by apply rgb_in_weaken, step_rgb_in.
    + by apply stepped_ratio_NaN.
  - symmetry. apply stepped_NaN_fails; auto.
Qed.

End RepairLoop.

(** ** The map returned by [fixTextContrast] *)

Lemma fix_entry_other (swatches : list string) (bg : string)
    (next : gmap nat string) (i j : nat) :
  i <> j -> fix_entry swatches bg next i !! j = next !! j.
Proof.
  intros Hij. unfold fix_entry.
  destruct (i <? 3)%nat; [done|].
  destruct (from_option Some (swatches !! i) (next !! i)); [|done].
  destruct (nge _ AA); [done|].
  destruct (repair_loop _ _ _ _ _); [|done].
  by rewrite lookup_insert_ne.
Qed.

Lemma fix_entry_local (swatches : list string) (bg : string)
    (next next' : gmap nat string) (i : nat) :
  next !! i = next' !! i ->
  fix_entry swatches bg next i !! i = fix_entry swatches bg next' i !! i.
Proof.
  intros H. unfold fix_entry. rewrite <- H.
  destruct (i <? 3)%nat; [done|].
  destruct (from_option Some (swatches !! i) (next !! i)); [|done].
  destruct (nge _ AA); [done|].
  destruct (repair_loop _ _ _ _ _); [|done].
  by rewrite !lookup_insert_eq.
Qed.

Lemma foldl_fix_entry_lookup (swatches : list string) (bg : string)
    (l : list nat) (next : gmap nat string) (j : nat) :
  NoDup l ->
  foldl (fix_entry swatches bg) next l !! j
  = if decide (j ∈ l) then fix_entry swatches bg next j !! j else next !! j.
Proof.
  revert next. induction l as [|i l IH]; intros next Hnd.
  - cbn [foldl]. by rewrite decide_False by set_solver.
  - apply NoDup_cons in Hnd as [Hi Hnd]. cbn [foldl]. rewrite IH by done.
    destruct (decide (j = i)) as [->|Hne].
    + rewrite decide_False by done.
      rewrite decide_True by (apply elem_of_cons; by left). done.
    + destruct (decide (j ∈ l)) as [Hin|Hnin].
      * rewrite decide_True by (apply elem_of_cons; by right).
        apply fix_entry_local. by apply fix_entry_other.
      * rewrite decide_False by (intros [?|?]%elem_of_cons; done).
        by apply fix_entry_other.
Qed.

(** Each visited index is treated on its own, from the caller's map. *)
Lemma fixTextContrast_lookup (swatches : list string)
    (customSwatches : gmap nat string) (bg : string) (j : nat) :
  from_option Some (swatches !! 0%nat) (customSwatches !! 0%nat) = Some bg ->
  fixTextContrast swatches customSwatches !! j
  = if decide (j < length swatches)%nat
    then fix_entry swatches bg customSwatches j !! j
    else customSwatches !! j.
Proof.
  intros Hbg. unfold fixTextContrast. rewrite Hbg.
  rewrite foldl_fix_entry_lookup by apply NoDup_seq.
  destruct (decide (j < length swatches)%nat) as [Hlt|Hge].
  - rewrite decide_True; [done|]. apply elem_of_seq. lia.
  - rewrite decide_False; [done|]. rewrite elem_of_seq. lia.
Qed.

Lemma fixTextContrast_no_background (swatches : list string)
    (customSwatches : gmap nat string) :
  from_option Some (swatches !! 0%nat) (customSwatches !! 0%nat) = None ->
  fixTextContrast swatches customSwatches = customSwatches.
Proof. intros H. unfold fixTextContrast. by rewrite H. Qed.

(** C9. The entries at indices 0, 1 and 2 of the returned map are those of
    the input, and so is every entry at an index from 3 on whose current
    colour already reaches 4.5 against the background. *)
Theorem fixTextContrast_frame (swatches : list string)
    (customSwatches : gmap nat string) (i : nat) :
  ((i < 3)%nat
   \/ exists bg current,
        from_option Some (swatches !! 0%nat) (customSwatches !! 0%nat) = Some bg
        /\ from_option Some (swatches !! i) (customSwatches !! i) = Some current
        /\ nge (contrastRatio current bg) AA = true) ->
  fixTextContrast swatches customSwatches !! i = customSwatches !! i.
Proof.
  intros Hi.
  destruct (from_option Some (swatches !! 0%nat) (customSwatches !! 0%nat))
    as [bg|] eqn:Hbg.
  2:{ by rewrite fixTextContrast_no_background. }
  rewrite (fixTextContrast_lookup _ _ bg) by done.
  destruct (decide (i < length swatches)%nat); [|done].
  unfold fix_entry. destruct Hi as [Hlt|(bg' & current & Hbg' & Hcur & Hge)].
  - apply Nat.ltb_lt in Hlt. by rewrite Hlt.
  - injection Hbg' as <-.
    destruct (i <? 3)%nat; [done|]. by rewrite Hcur, Hge.
Qed.

(** X1. An entry whose ratio against the background is [NaN] (a colour
    that does not parse) is returned as it was. *)
Theorem fixTextContrast_unparsable_unchanged (swatches : list string)
    (customSwatches : gmap nat string) (bg current : string) (i : nat) :
  from_option Some (swatches !! 0%nat) (customSwatches !! 0%nat) = Some bg ->
  from_option Some (swatches !! i) (customSwatches !! i) = Some current ->
  contrastRatio current bg = NaN ->
  fixTextContrast swatches customSwatches !! i = customSwatches !! i.
Proof.
  intros Hbg Hcur Hnan. rewrite (fixTextContrast_lookup _ _ bg) by done.
  destruct (decide (i < length swatches)%nat); [|done].
  unfold fix_entry. destruct (i <? 3)%nat; [done|].
  by rewrite Hcur, Hnan.
Qed.

Lemma fixTextContrast_unparsable_unchanged_witness :
  fixTextContrast ["#0B1220"; "#111C33"; "#818CF8"; "#EAF0FF"]
    (<[3%nat := "none"]> ∅) !! 3%nat
  = (<[3%nat := "none"]> ∅ : gmap nat string) !! 3%nat.
Proof.
  apply (fixTextContrast_unparsable_unchanged _ _ "#0B1220" "none" 3);
    [reflexivity | reflexivity |].
  apply contrastRatio_NaN_l, luminance_NaN. left. reflexivity.
Defined.

Local Open Scope R_scope.

Lemma contrast_white_on_black : contrastRatio "#FFFFFF" "#000000" = Num 21.
Proof.
  rewrite (contrastRatio_num _ _ 1 0 luminance_white luminance_black).
  rewrite Rltb_true by lra. f_equal. lra.
Qed.

Lemma nge_AA_num (x : R) : 4.5 <= x -> nge (Num x) AA = true.
Proof. intros H. unfold nge, nle, AA. cbn [ncmp]. by apply Rleb_true. Qed.

Lemma nlt_AA_num (x : R) : x < 4.5 -> nlt (Num x) AA = true.
Proof. intros H. unfold nlt, AA. cbn [ncmp]. by apply Rltb_true. Qed.

Lemma nge_AA_num_false (x : R) : x < 4.5 -> nge (Num x) AA = false.
Proof. intros H. unfold nge, nle, AA. cbn [ncmp]. by apply Rleb_false. Qed.

Local Close Scope R_scope.

Lemma fixTextContrast_frame_witness :
  fixTextContrast ["#000000"; "#111C33"; "#818CF8"; "#FFFFFF"] ∅ !! 1%nat
    = (∅ : gmap nat string) !! 1%nat
  /\ fixTextContrast ["#000000"; "#111C33"; "#818CF8"; "#FFFFFF"] ∅ !! 3%nat
    = (∅ : gmap nat string) !! 3%nat.
Proof.
  split.
  - apply (fixTextContrast_frame _ _ 1). left. lia.
  - apply (fixTextContrast_frame _ _ 3).
    right. exists "#000000", "#FFFFFF".
    split; [reflexivity|]. split; [reflexivity|].
    rewrite contrast_white_on_black. apply nge_AA_num. lra.
Defined.

(** ** The repaired entry *)

Lemma contrastRatio_num_inv (a b : string) (x : R) :
  contrastRatio a b = Num x ->
  exists la lb, luminance a = Num la /\ luminance b = Num lb.
Proof.
  intros H. destruct (luminance a) as [|la] eqn:Ha.
  { by rewrite (contrastRatio_NaN_l a b Ha) in H. }
  destruct (luminance b) as [|lb] eqn:Hb.
  { rewrite contrastRatio_sym, (contrastRatio_NaN_l b a Hb) in H. done. }
  eauto.
Qed.

Lemma nlt_not_nge (x : Number R) : nlt x AA = true -> nge x AA = false.
Proof.
  destruct x as [|x]; [done|]. unfold nlt, nge, nle, AA. cbn [ncmp].
  intros H%Rltb_spec. apply Rleb_false. lra.
Qed.

Lemma spec_candidates_steps (bg current : string) :
  spec_candidates bg current
  = List.map (fun k => hex_of_rgb
                (Nat.iter k (step_rgb (ngt (luminance bg) (Num 0.5%R)))
                   (rgb_of_hex current)))
      (seq 1 20).
Proof.
  unfold spec_candidates. apply List.map_ext. intros k. f_equal.
  apply iter_ext. intros c. apply spec_step_eq.
Qed.

(** The entry of a failing candidate after the call: the first stepped
    colour that passes, or the caller's entry when none does. *)
Lemma fixTextContrast_lookup_failing (swatches : list string)
    (customSwatches : gmap nat string) (bg current : string) (i : nat) :
  from_option Some (swatches !! 0%nat) (customSwatches !! 0%nat) = Some bg ->
  (3 <= i < length swatches)%nat ->
  from_option Some (swatches !! i) (customSwatches !! i) = Some current ->
  nlt (contrastRatio current bg) AA = true ->
  fixTextContrast swatches customSwatches !! i
  = match spec_repair bg current with
    | Some fixed => Some fixed
    | None => customSwatches !! i
    end.
Proof.
  intros Hbg [Hi3 Hlen] Hcur Hfail.
  rewrite (fixTextContrast_lookup _ _ bg) by done.
  rewrite decide_True by done.
  unfold fix_entry.
  replace (i <? 3)%nat with false by (symmetry; apply Nat.ltb_ge; lia).
  rewrite Hcur. cbv zeta. rewrite (nlt_not_nge _ Hfail).
  destruct (nlt_num _ Hfail) as [x Hx].
  destruct (contrastRatio_num_inv _ _ _ Hx) as (la & lb & _ & Hlb).
  rewrite (repair_loop_find _ bg lb Hlb 20 (rgb_of_hex current));
    [|apply rgb_of_hex_in|by rewrite Hfail].
  unfold spec_repair. rewrite spec_candidates_steps.
  destruct (List.find _ _); [|done].
  by rewrite lookup_insert_eq.
Qed.

Lemma find_first {A} (p : A -> bool) (l : list A) (x : A) :
  List.find p l = Some x ->
  exists k : nat,
    l !! k = Some x /\ p x = true
    /\ forall (j : nat) (y : A), (j < k)%nat -> l !! j = Some y -> p y = false.
Proof.
  induction l as [|a l IH]; [done|]. cbn [List.find].
  destruct (p a) eqn:Ea.
  - intros [= ->]. exists 0%nat. repeat split; [done|]. intros j y Hj. lia.
  - intros Hfind. destruct (IH Hfind) as (k & Hk & Hp & Hbefore).
    exists (S k). repeat split; [done | done |].
    intros [|j] y Hj Hy.
    + by injection Hy as <-.
    + apply (Hbefore j); [lia | done].
Qed.

(** C2. A candidate entry (index 3 or more) that fails AA is replaced by
    the first of the 20 stepped colours whose ratio against the unchanged
    background reaches 4.5, the steps going lighter ([min(255, v + 12)] on
    each channel) when the background's luminance exceeds 0.5 and darker
    ([max(0, v - 12)]) otherwise; when none of the 20 passes, the entry is
    the caller's, unmodified.  For an entry [#RRGGBB] with the channel
    bytes [r], [g] and [b], the [k]-th stepped colour is the colour of the
    bytes [min(255, v + 12 k)], or [max(0, v - 12 k)], of [v = r, g, b]. *)
Theorem fixTextContrast_repairs_failing (swatches : list string)
    (customSwatches : gmap nat string) (bg current : string) (i : nat) :
  from_option Some (swatches !! 0%nat) (customSwatches !! 0%nat) = Some bg ->
  (3 <= i < length swatches)%nat ->
  from_option Some (swatches !! i) (customSwatches !! i) = Some current ->
  nlt (contrastRatio current bg) AA = true ->
  length (spec_candidates bg current) = 20%nat
  /\ (forall k fixed,
        spec_candidates bg current !! k = Some fixed ->
        fixed = hex_of_rgb (Nat.iter (S k) (spec_step bg) (rgb_of_hex current)))
  /\ (forall r g b : Z,
        spec_channels current = Some (r, g, b) ->
        forall k : nat, (k < 20)%nat ->
          spec_candidates bg current !! k
          = Some (spec_colour
                    (spec_stepped (ngt (luminance bg) (Num 0.5%R)) r (S k))
                    (spec_stepped (ngt (luminance bg) (Num 0.5%R)) g (S k))
                    (spec_stepped (ngt (luminance bg) (Num 0.5%R)) b (S k))))
  /\ match spec_repair bg current with
     | Some fixed =>
         fixTextContrast swatches customSwatches !! i = Some fixed
         /\ exists k : nat,
              spec_candidates bg current !! k = Some fixed
              /\ nge (contrastRatio fixed bg) AA = true
              /\ forall (j : nat) (earlier : string),
                   (j < k)%nat ->
                   spec_candidates bg current !! j = Some earlier ->
                   nge (contrastRatio earlier bg) AA = false
     | None =>
         fixTextContrast swatches customSwatches !! i = customSwatches !! i
         /\ Forall (fun fixed => nge (contrastRatio fixed bg) AA = false)
              (spec_candidates bg current)
     end.
Proof.
  intros Hbg Hi Hcur Hfail. split; [|split; [|split]].
  - unfold spec_candidates. by rewrite length_map, length_seq.
  - intros k fixed Hk. unfold spec_candidates in Hk.
    rewrite list_lookup_fmap in Hk.
    destruct (seq 1 20 !! k) as [n|] eqn:Hn; [|done].
    apply lookup_seq in Hn as [-> _]. simpl in Hk. by inversion Hk.
  - intros r g b Hch k Hk.
    destruct (spec_channels_parse _ _ _ _ Hch)
      as (_ & (Hr & Hg & Hb) & _ & _ & _ & _ & Hrgb).
    rewrite spec_candidates_steps, list_lookup_fmap.
    rewrite (lookup_seq_lt 1 20 k) by done. cbn [fmap option_fmap option_map].
    rewrite Hrgb. change (1 + k)%nat with (S k).
    rewrite iter_step_spec by done.
    rewrite hex_of_rgb_spec by (by apply spec_stepped_byte). done.
  - rewrite (fixTextContrast_lookup_failing _ _ bg current) by done.
    unfold spec_repair.
    destruct (List.find _ _) as [fixed|] eqn:Hfind.
    + split; [done|]. by apply find_first in Hfind.
    + split; [done|]. apply Forall_forall. intros fixed Hin.
      apply list_elem_of_In in Hin.
      by apply (List.find_none _ _ Hfind).
Qed.

(** ** The instance of the specification: [#0A0A0A] on [#000000] *)

Local Open Scope R_scope.

Lemma ln_nonpos (b : R) : 0 < b <= 1 -> ln b <= 0.
Proof.
  intros [H0 [Hlt| ->]].
  - rewrite <- ln_1. left. by apply ln_increasing.
  - rewrite ln_1. lra.
Qed.

Lemma exp_monotone (x y : R) : x <= y -> exp x <= exp y.
Proof.
  intros [Hlt| ->]; [left; by apply exp_increasing | lra].
Qed.

(** Below 1 a larger exponent gives a smaller power. *)
Lemma Rpower_exponent_antitone (b y z : R) :
  0 < b <= 1 -> y <= z -> Rpower b z <= Rpower b y.
Proof.
  intros Hb Hyz. unfold Rpower. apply exp_monotone.
  pose proof (ln_nonpos b Hb). nra.
Qed.

Lemma Rpower_2_4_cube (b : R) : 0 < b <= 1 -> b ^ 3 <= Rpower b 2.4.
Proof.
  intros Hb. rewrite <- (Rpower_pow 3 b) by lra.
  apply Rpower_exponent_antitone; [done|]. simpl. lra.
Qed.

Lemma luminance_0A : luminance "#0A0A0A" = Num (10 / 255 / 12.92).
Proof.
  rewrite (luminance_channels "#0A0A0A" 10 10 10) by reflexivity.
  f_equal. unfold spec_luminance, spec_gamma.
  rewrite Rleb_true by lra. lra.
Qed.

Lemma contrast_0A_on_black :
  contrastRatio "#0A0A0A" "#000000" = Num ((10 / 255 / 12.92 + 0.05) / 0.05).
Proof.
  rewrite (contrastRatio_num _ _ _ _ luminance_0A luminance_black).
  rewrite Rltb_true by lra. f_equal. lra.
Qed.

Lemma contrast_0A_fails : nlt (contrastRatio "#0A0A0A" "#000000") AA = true.
Proof. rewrite contrast_0A_on_black. apply nlt_AA_num. lra. Qed.

Lemma contrast_black_on_black : contrastRatio "#000000" "#000000" = Num 1.
Proof.
  rewrite (contrastRatio_num _ _ _ _ luminance_black luminance_black).
  rewrite Rltb_false by lra. f_equal. lra.
Qed.

Lemma black_is_not_light : ngt (luminance "#000000") (Num 0.5) = false.
Proof.
  rewrite luminance_black. unfold ngt, nlt. cbn [ncmp].
  apply Rltb_false. lra.
Qed.

(** On a black background every one of the 20 steps goes darker, to
    black. *)
Lemma candidates_0A_on_black :
  spec_candidates "#000000" "#0A0A0A" = repeat "#000000" 20.
Proof.
  rewrite spec_candidates_steps, black_is_not_light. reflexivity.
Qed.

Lemma repair_0A_on_black : spec_repair "#000000" "#0A0A0A" = None.
Proof.
  unfold spec_repair. rewrite candidates_0A_on_black.
  apply find_all_false. intros x Hx. apply repeat_spec in Hx as ->.
  unfold spec_passes. rewrite contrast_black_on_black.
  apply nge_AA_num_false. lra.
Qed.

(** Eleven steps lighter, [#8e8e8e], would pass. *)
Lemma lighter_8e_passes :
  hex_of_rgb (Nat.iter 11 (step_rgb true) (rgb_of_hex "#0A0A0A")) = "#8e8e8e"
  /\ nge (contrastRatio "#8e8e8e" "#000000") AA = true.
Proof.
  split; [reflexivity|].
  pose proof (luminance_channels "#8e8e8e" 142 142 142
                eq_refl eq_refl eq_refl) as Hl.
  rewrite (contrastRatio_num _ _ _ _ Hl luminance_black).
  assert (0.194 <= spec_luminance 142 142 142) as Hlow.
  { unfold spec_luminance, spec_gamma. rewrite Rleb_false by lra.
    set (b := (142 / 255 + 0.055) / 1.055).
    assert (0.579 <= b <= 1) as Hb by (unfold b; split; lra).
    pose proof (Rpower_2_4_cube b ltac:(lra)) as Hc.
    pose proof (pow_incr 0.579 b 3 ltac:(lra)) as Hi.
    assert (0.194 <= 0.579 ^ 3) by (simpl; lra). lra. }
  rewrite Rltb_true by lra. apply nge_AA_num.
  apply Rmult_le_reg_r with (0 + 0.05); [lra|].
  unfold Rdiv. rewrite Rmult_assoc, Rinv_l; lra.
Qed.

(** *** Bounds on [Math.pow(b, 2.4)]: its fifth power is [b ^ 12] *)

Lemma pow5_lt (x y : R) : 0 <= y -> y < x -> y ^ 5 < x ^ 5.
Proof.
  intros Hy Hlt.
  assert (y ^ 4 <= x ^ 4) by (apply pow_incr; lra).
  assert (0 < x ^ 4) by (apply pow_lt; lra).
  assert (0 <= y ^ 4) by (apply pow_le; lra).
  replace (y ^ 5) with (y * y ^ 4) by ring.
  replace (x ^ 5) with (x * x ^ 4) by ring.
  nra.
Qed.

Lemma Rpower_2_4_pow5 (b : R) : 0 < b -> Rpower b 2.4 ^ 5 = b ^ 12.
Proof.
  intros Hb. rewrite <- (Rpower_pow 5) by apply exp_pos.
  rewrite Rpower_mult, <- (Rpower_pow 12) by done.
  f_equal. simpl. lra.
Qed.

Lemma Rpower_2_4_lower (b lo : R) :
  0 < b -> 0 <= lo -> lo ^ 5 <= b ^ 12 -> lo <= Rpower b 2.4.
Proof.
  intros Hb Hlo H. destruct (Rle_lt_dec lo (Rpower b 2.4)) as [|Hlt]; [done|].
  assert (0 <= Rpower b 2.4) by (left; apply exp_pos).
  pose proof (pow5_lt _ _ ltac:(done) Hlt) as H5.
  rewrite Rpower_2_4_pow5 in H5 by done. lra.
Qed.

Lemma Rpower_2_4_upper (b hi : R) :
  0 < b -> 0 <= hi -> b ^ 12 <= hi ^ 5 -> Rpower b 2.4 <= hi.
Proof.
  intros Hb Hhi H. destruct (Rle_lt_dec (Rpower b 2.4) hi) as [|Hlt]; [done|].
  pose proof (pow5_lt _ _ Hhi Hlt) as H5.
  rewrite Rpower_2_4_pow5 in H5 by done. lra.
Qed.

(** *** A repair that succeeds: [#0A0A0A] on the green [#008A00] *)

Lemma luminance_green :
  exists L, luminance "#008A00" = Num L /\ 0.1816 <= L <= 0.1819.
Proof.
  eexists. split.
  { apply (luminance_channels "#008A00" 0 138 0); reflexivity. }
  unfold spec_luminance, spec_gamma.
  rewrite (Rleb_true (0 / 255)) by lra. rewrite (Rleb_false (138 / 255)) by lra.
  set (b := (138 / 255 + 0.055) / 1.055).
  assert (0 < b) by (unfold b; lra).
  pose proof (Rpower_2_4_lower b 0.254 ltac:(done) ltac:(lra)
                ltac:(unfold b; lra)).
  pose proof (Rpower_2_4_upper b 0.2543 ltac:(done) ltac:(lra)
                ltac:(unfold b; lra)).
  lra.
Qed.

Lemma green_is_not_light : ngt (luminance "#008A00") (Num 0.5) = false.
Proof.
  destruct luminance_green as (L & -> & HL).
  unfold ngt, nlt. cbn [ncmp]. apply Rltb_false. lra.
Qed.

Lemma contrast_0A_on_green_fails :
  nlt (contrastRatio "#0A0A0A" "#008A00") AA = true.
Proof.
  destruct luminance_green as (L & HL & Hb).
  rewrite (contrastRatio_num _ _ _ _ luminance_0A HL).
  rewrite Rltb_false by lra. apply nlt_AA_num.
  apply Rmult_lt_reg_r with (10 / 255 / 12.92 + 0.05); [lra|].
  unfold Rdiv at 1. rewrite Rmult_assoc, Rinv_l; lra.
Qed.

Lemma contrast_black_on_green_passes :
  nge (contrastRatio "#000000" "#008A00") AA = true.
Proof.
  destruct luminance_green as (L & HL & Hb).
  rewrite (contrastRatio_num _ _ _ _ luminance_black HL).
  rewrite Rltb_false by lra. apply nge_AA_num.
  apply Rmult_le_reg_r with (0 + 0.05); [lra|].
  unfold Rdiv. rewrite Rmult_assoc, Rinv_l; lra.
Qed.

Lemma repair_0A_on_green : spec_repair "#008A00" "#0A0A0A" = Some "#000000".
Proof.
  unfold spec_repair. rewrite spec_candidates_steps, green_is_not_light.
  change (List.map _ (seq 1 20)) with (repeat "#000000" 20).
  cbn [repeat List.find]. unfold spec_passes.
  by rewrite contrast_black_on_green_passes.
Qed.

Local Close Scope R_scope.

(** C1, evaluated on the source. The Midnight swatches with the imported
    colours [#000000] (background, index 0) and [#0A0A0A] (text, index 3):
    the text fails AA; [fixTextContrast] steps it darker, each of its 20
    steps gives [#000000] with ratio 1, and the entry is returned as it
    was, although the lighter direction would pass at its eleventh
    step. *)
Theorem fixTextContrast_black_background_no_repair :
  let swatches :=
    ["#0B1220"; "#111C33"; "#818CF8"; "#EAF0FF"; "#818CF8"; "#22C55E"] in
  let customSwatches : gmap nat string :=
    map_seq 0 ["#000000"; "#111C33"; "#818CF8"; "#0A0A0A"] in
  from_option Some (swatches !! 0%nat) (customSwatches !! 0%nat)
    = Some "#000000"
  /\ from_option Some (swatches !! 3%nat) (customSwatches !! 3%nat)
    = Some "#0A0A0A"
  /\ nlt (contrastRatio "#0A0A0A" "#000000") AA = true
  /\ spec_candidates "#000000" "#0A0A0A" = repeat "#000000" 20
  /\ contrastRatio "#000000" "#000000" = Num 1%R
  /\ fixTextContrast swatches customSwatches !! 3%nat = Some "#0A0A0A"
  /\ nge (contrastRatio
            (hex_of_rgb (Nat.iter 11 (step_rgb true) (rgb_of_hex "#0A0A0A")))
            "#000000") AA = true.
Proof.
  intros swatches customSwatches.
  split; [reflexivity|]. split; [reflexivity|].
  split; [apply contrast_0A_fails|].
  split; [apply candidates_0A_on_black|].
  split; [apply contrast_black_on_black|].
  split.
  - rewrite (fixTextContrast_lookup_failing _ _ "#000000" "#0A0A0A");
      [|reflexivity|simpl; lia|reflexivity|apply contrast_0A_fails].
    rewrite repair_0A_on_black. reflexivity.
  - destruct lighter_8e_passes as [-> H]. exact H.
Qed.

(** A failing entry on a light background: [#EEEEEE] on white. *)
Lemma contrast_EE_on_white_fails :
  nlt (contrastRatio "#EEEEEE" "#FFFFFF") AA = true.
Proof.
  assert (luminance "#EEEEEE" = Num (spec_luminance 238 238 238)) as HL
    by (by apply luminance_channels).
  rewrite (contrastRatio_num _ _ _ _ HL luminance_white).
  pose proof (spec_luminance_range 238 238 238 ltac:(lia) ltac:(lia)
                ltac:(lia)) as Hrange.
  assert (0.8 <= spec_luminance 238 238 238)%R as Hlow.
  { unfold spec_luminance, spec_gamma.
    rewrite (Rleb_false (238 / 255)) by lra.
    set (x := ((238 / 255 + 0.055) / 1.055)%R).
    pose proof (Rpower_2_4_cube x ltac:(unfold x; lra)) as Hc.
    assert (0.8 <= x ^ 3)%R by (unfold x; lra). lra. }
  set (l := spec_luminance 238 238 238) in *.
  destruct (Rlt_le_dec (1 + 0.05) (l + 0.05)) as [Hlt|Hle]; [lra|].
  rewrite Rltb_false by done. apply nlt_AA_num.
  apply Rmult_lt_reg_r with (l + 0.05)%R; [lra|].
  unfold Rdiv. rewrite Rmult_assoc, Rinv_l; lra.
Qed.

Lemma white_is_light : ngt (luminance "#FFFFFF") (Num 0.5%R) = true.
Proof. rewrite luminance_white. apply Rltb_true. lra. Qed.

Lemma fixTextContrast_repairs_failing_witness :
  fixTextContrast ["#000000"; "#111C33"; "#818CF8"; "#0A0A0A"] ∅ !! 3%nat
    = (∅ : gmap nat string) !! 3%nat
  /\ fixTextContrast ["#008A00"; "#111C33"; "#818CF8"; "#0A0A0A"] ∅ !! 3%nat
    = Some "#000000"
  /\ spec_candidates "#008A00" "#0A0A0A" !! 0%nat = Some "#000000"
  /\ spec_candidates "#FFFFFF" "#EEEEEE" !! 0%nat = Some "#fafafa"
  /\ spec_candidates "#FFFFFF" "#EEEEEE" !! 1%nat = Some "#ffffff".
Proof.
  split; [|split; [|split; [|split]]].
  - pose proof (fixTextContrast_repairs_failing
                  ["#000000"; "#111C33"; "#818CF8"; "#0A0A0A"] ∅
                  "#000000" "#0A0A0A" 3 eq_refl
                  ltac:(simpl; lia) eq_refl contrast_0A_fails)
      as (_ & _ & _ & H).
    rewrite repair_0A_on_black in H. exact (proj1 H).
  - pose proof (fixTextContrast_repairs_failing
                  ["#008A00"; "#111C33"; "#818CF8"; "#0A0A0A"] ∅
                  "#008A00" "#0A0A0A" 3 eq_refl
                  ltac:(simpl; lia) eq_refl contrast_0A_on_green_fails)
      as (_ & _ & _ & H).
    rewrite repair_0A_on_green in H. exact (proj1 H).
  - pose proof (fixTextContrast_repairs_failing
                  ["#008A00"; "#111C33"; "#818CF8"; "#0A0A0A"] ∅
                  "#008A00" "#0A0A0A" 3 eq_refl
                  ltac:(simpl; lia) eq_refl contrast_0A_on_green_fails)
      as (_ & _ & H & _).
    rewrite green_is_not_light in H. exact (H 10 10 10 eq_refl 0%nat ltac:(lia)).
  - pose proof (fixTextContrast_repairs_failing
                  ["#FFFFFF"; "#111C33"; "#818CF8"; "#EEEEEE"] ∅
                  "#FFFFFF" "#EEEEEE" 3 eq_refl
                  ltac:(simpl; lia) eq_refl contrast_EE_on_white_fails)
      as (_ & _ & H & _).
    rewrite white_is_light in H. exact (H 238 238 238 eq_refl 0%nat ltac:(lia)).
  - pose proof (fixTextContrast_repairs_failing
                  ["#FFFFFF"; "#111C33"; "#818CF8"; "#EEEEEE"] ∅
                  "#FFFFFF" "#EEEEEE" 3 eq_refl
                  ltac:(simpl; lia) eq_refl contrast_EE_on_white_fails)
      as (_ & _ & H & _).
    rewrite white_is_light in H. exact (H 238 238 238 eq_refl 1%nat ltac:(lia)).
Defined.

(** ** Text of numbers *)

(** The second character of a text, when it has one. *)
Lemma second_char_append (s t : string) (a b : ascii) (r : string) :
  s = String a (String b r) -> s ++ t = String a (String b (r ++ t)).
Proof. by intros ->. Qed.

Lemma digit16_code (d : Z) :
  0 <= d < 16 ->
  JS.code (JS.digit16 d) = if d <? 10 then 48 + d else 87 + d.
Proof.
  intros Hd. unfold JS.digit16, JS.code.
  destruct (d <? 10) eqn:E; rewrite N_ascii_embedding; lia.
Qed.

Lemma digit16_decimal (d : Z) :
  0 <= d < 10 -> 48 <= JS.code (JS.digit16 d) <= 57.
Proof.
  intros Hd. rewrite digit16_code by lia.
  destruct (Z.ltb_spec d 10); lia.
Qed.




Lemma pos_digits_chars (P : ascii -> Prop) (radix : Z) :
  0 < radix ->
  (forall d, 0 <= d < radix -> P (JS.digit16 d)) ->
  forall (fuel : nat) (n : Z) (acc : string),
    Forall P (list_ascii_of_string acc) -> Forall P (list_ascii_of_string (JS.pos_digits radix fuel n acc)).
Proof.
  intros Hr Hd. induction fuel as [|fuel IH]; intros n acc Hacc; [done|].
  simpl. destruct (n <=? 0); [done|].
  apply IH. simpl. constructor; [|done].
  apply Hd. by apply Z.mod_pos_bound.
Qed.

Lemma pos_digits_nonempty (radix : Z) (fuel : nat) (n : Z) (acc : string) :
  acc <> "" -> JS.pos_digits radix fuel n acc <> "".
Proof.
  revert n acc. induction fuel as [|fuel IH]; intros n acc Hacc; [done|].
  simpl. destruct (n <=? 0); [done|]. by apply IH.
Qed.

Lemma decimal_chars (P : ascii -> Prop) (m : Z) :
  (forall c, 48 <= JS.code c <= 57 -> P c) -> P "-"%char ->
  Forall P (list_ascii_of_string (JS.toStringRadix 10 (Num m))).
Proof.
  intros Hdig Hminus.
  assert (forall d, 0 <= d < 10 -> P (JS.digit16 d)) as Hd.
  { intros d Hd. by apply Hdig, digit16_decimal. }
  destruct m as [|p|p]; simpl.
  - repeat constructor. by apply Hdig.
  - apply pos_digits_chars; [lia | done | constructor].
  - constructor; [done|]. apply pos_digits_chars; [lia | done | constructor].
Qed.

Lemma decimal_nonempty (m : Z) : JS.toStringRadix 10 (Num m) <> "".
Proof.
  destruct m as [|p|p]; simpl; try done.
  destruct (Pos.size_nat p) as [|fuel] eqn:E.
  { destruct p; simpl in E; lia. }
  simpl. by apply pos_digits_nonempty.
Qed.

Lemma percent_code (c : ascii) : c = "%"%char -> JS.code c = 37.
Proof. by intros ->. Qed.

(** The text of [toFixed(1)] has at least two characters, and the second
    is not a percent sign. *)
Lemma toFixed1_second (x : Number Q) :
  exists a b r, CMYK.toFixed1 x = String a (String b r) /\ b <> "%"%char.
Proof.
  destruct x as [|q]; [by exists "N"%char, "a"%char, "N"|].
  unfold CMYK.toFixed1.
  set (n := Qfloor _).
  pose proof (decimal_nonempty (n / 10)) as Hne.
  pose proof (decimal_chars (fun c => c <> "%"%char) (n / 10)) as Hch.
  assert (Forall (fun c => c <> "%"%char)
            (list_ascii_of_string (JS.toStringRadix 10 (Num (n / 10))))) as Hall.
  { apply Hch; [|done]. intros c Hc Hp. apply percent_code in Hp. lia. }
  clear Hch.
  destruct (JS.toStringRadix 10 (Num (n / 10))) as [|d0 D]; [done|].
  simpl in Hall. apply Forall_cons in Hall as [H0 Hall].
  destruct (CMYK.Qltb q 0); simpl.
  - by exists "-"%char, d0, (D ++ String "." (JS.toStringRadix 10 (Num (n mod 10)))).
  - destruct D as [|d1 D'].
    + by exists d0, "."%char, (JS.toStringRadix 10 (Num (n mod 10))).
    + simpl in Hall. apply Forall_cons in Hall as [H1 _].
      by exists d0, d1, (D' ++ String "." (JS.toStringRadix 10 (Num (n mod 10)))).
Qed.

(** ** CMYK lines *)

(** The text of [toFixed(1)] on a double has at least two characters too,
    and its second is not a percent sign. *)
Lemma toFixed1_64_second (x : PrimFloat.float) :
  exists a b r, CMYK.toFixed1_64 x = String a (String b r) /\ b <> "%"%char.
Proof.
  unfold CMYK.toFixed1_64. destruct (Double.exact x) as [q|[|]|].
  - apply toFixed1_second.
  - by exists "-"%char, "I"%char, "nfinity".
  - by exists "I"%char, "n"%char, "finity".
  - by exists "N"%char, "a"%char, "N".
Qed.

Lemma line_short (c : ExportColor) :
  String.length (CMYK.payload c) <> 6%nat -> CMYK.line c = CMYK.sentinel c.
Proof.
  intros H. unfold CMYK.line.
  by replace (String.length (CMYK.payload c) =? 6)%nat with false
    by (symmetry; by apply Nat.eqb_neq).
Qed.

Lemma line_full_not_sentinel (c : ExportColor) :
  String.length (CMYK.payload c) = 6%nat -> CMYK.line c <> CMYK.sentinel c.
Proof.
  intros H. unfold CMYK.line, CMYK.sentinel. cbv zeta. rewrite H.
  change (negb (6 =? 6)%nat) with false. cbv iota.
  intros Heq. apply append_cancel_l in Heq.
  change (": cmyk(0%, 0%, 0%, 100%)") with (": cmyk(" ++ "0%, 0%, 0%, 100%)") in Heq.
  apply (append_cancel_l ": cmyk(") in Heq.
  match type of Heq with
  | CMYK.toFixed1_64 ?x ++ _ = _ =>
      destruct (toFixed1_64_second x) as (a & b & r & E & Hb)
  end.
  rewrite (second_char_append _ _ a b r E) in Heq.
  inversion Heq. congruence.
Qed.

(** The length of the payload, counted on the value. *)
Lemma spec_has_hash_nonempty (s : string) :
  CMYK.spec_has_hash s = true -> (1 <= String.length s)%nat.
Proof. destruct s; [done|]. cbn [String.length]. lia. Qed.

Lemma strip_hash_length (s : string) :
  String.length (JS.strip_hash s)
  = (String.length s - (if CMYK.spec_has_hash s then 1 else 0))%nat.
Proof.
  induction s as [|c s IH]; [done|].
  unfold CMYK.spec_has_hash in *.
  cbn [JS.strip_hash list_ascii_of_string existsb String.length].
  destruct (Ascii.eqb_spec c "#") as [->|Hne].
  - cbn [Ascii.eqb Bool.eqb orb andb]. lia.
  - destruct (Ascii.eqb_spec "#" c) as [<-|_]; [done|].
    cbn [orb String.length]. rewrite IH.
    destruct (existsb (Ascii.eqb "#") (list_ascii_of_string s)) eqn:E; [|lia].
    pose proof (spec_has_hash_nonempty s E). lia.
Qed.

Lemma substring_0_length (n : nat) (s : string) :
  String.length (String.substring 0 n s) = Nat.min n (String.length s).
Proof.
  revert n. induction s as [|c s IH]; intros [|n]; try done.
  cbn [String.substring String.length]. by rewrite IH.
Qed.

Lemma payload_length (c : ExportColor) :
  String.length (CMYK.payload c) = CMYK.spec_payload_length (value c).
Proof.
  unfold CMYK.payload, CMYK.spec_payload_length, JS.slice.
  change (6 - 0)%nat with 6%nat.
  by rewrite substring_0_length, strip_hash_length.
Qed.

(** The payload of a colour written [#RRGGBB], and the channels read off
    it. *)
Lemma spec_channels_payload (c : ExportColor) (r g b : Z) :
  spec_channels (value c) = Some (r, g, b) ->
  String.length (CMYK.payload c) = 6%nat
  /\ (0 <= r <= 255 /\ 0 <= g <= 255 /\ 0 <= b <= 255)
  /\ JS.parseInt16 (JS.slice 0 2 (CMYK.payload c)) = Num r
  /\ JS.parseInt16 (JS.slice 2 4 (CMYK.payload c)) = Num g
  /\ JS.parseInt16 (JS.slice 4 6 (CMYK.payload c)) = Num b.
Proof.
  unfold CMYK.payload. destruct c as [n s]. cbn [value].
  destruct s as [|h [|r1 [|r2 [|g1 [|g2 [|b1 [|b2 [|? ?]]]]]]]]; try done.
  cbn [spec_channels]. destruct (Ascii.eqb h "#") eqn:Hh; [|done].
  apply Ascii.eqb_eq in Hh as ->.
  destruct (spec_byte r1 r2) as [r'|] eqn:Hr; [|done].
  destruct (spec_byte g1 g2) as [g'|] eqn:Hg; [|done].
  destruct (spec_byte b1 b2) as [b'|] eqn:Hb; [|done].
  intros [= <- <- <-].
  apply spec_byte_parse in Hr as (_ & _ & Hr & Pr).
  apply spec_byte_parse in Hg as (_ & _ & Hg & Pg).
  apply spec_byte_parse in Hb as (_ & _ & Hb & Pb).
  split; [reflexivity|]. split; [done|].
  split; [exact Pr|]. split; [exact Pg|exact Pb].
Qed.

(** The quotient of a byte by 255 is a number, so that [Math.max] of three
    of them is the largest. *)
Lemma spec_channel_number (z : Z) :
  0 <= z <= 255 -> PrimFloat.is_nan (CMYK.spec_channel z) = false.
Proof.
  intros Hz.
  assert (forallb (fun z => negb (PrimFloat.is_nan (CMYK.spec_channel z)))
            (seqZ 0 256) = true) as Hall by (vm_compute; reflexivity).
  rewrite forallb_forall in Hall.
  apply negb_true_iff, Hall, list_elem_of_In, elem_of_seqZ. lia.
Qed.

Lemma Math_max_numbers (x y : PrimFloat.float) :
  PrimFloat.is_nan x = false -> PrimFloat.is_nan y = false ->
  Double.Math_max x y = CMYK.spec_max x y
  /\ PrimFloat.is_nan (CMYK.spec_max x y) = false.
Proof.
  intros Hx Hy. unfold Double.Math_max, CMYK.spec_max. rewrite Hx, Hy.
  split; [done|]. by destruct (PrimFloat.ltb x y).
Qed.

(** The line of a colour written [#RRGGBB] is the conversion of its three
    channel bytes. *)
Lemma line_spec (d : ExportColor) (r g b : Z) :
  spec_channels (value d) = Some (r, g, b) ->
  CMYK.line d = CMYK.spec_line (name d) r g b.
Proof.
  intros H.
  destruct (spec_channels_payload d r g b H)
    as (Hl & (Hr & Hg & Hb) & Pr & Pg & Pb).
  unfold CMYK.line, CMYK.channel64. cbv zeta. rewrite Hl, Pr, Pg, Pb.
  change (negb (6 =? 6)%nat) with false. cbv iota.
  change (Double.of_number (Num r)) with (Double.of_Z r).
  change (Double.of_number (Num g)) with (Double.of_Z g).
  change (Double.of_number (Num b)) with (Double.of_Z b).
  fold (CMYK.spec_channel r). fold (CMYK.spec_channel g).
  fold (CMYK.spec_channel b).
  pose proof (spec_channel_number r Hr) as Nr.
  pose proof (spec_channel_number g Hg) as Ng.
  pose proof (spec_channel_number b Hb) as Nb.
  destruct (Math_max_numbers _ _ Nr Ng) as [-> Nrg].
  destruct (Math_max_numbers _ _ Nrg Nb) as [-> _].
  reflexivity.
Qed.

(** The doubles of a line stay in the range of [toFixed], whatever the
    six characters of the payload are. *)
Section Doubles.

Import PrimFloat.

Lemma channel64_value (i : nat) (hex : string) :
  CMYK.channel64 i (i + 2) hex = nan
  \/ exists z, -15 <= z <= 255
               /\ CMYK.channel64 i (i + 2) hex = CMYK.spec_channel z.
Proof.
  unfold CMYK.channel64. pose proof (parseInt16_slice_in i hex) as H.
  destruct (JS.parseInt16 _) as [|z]; [by left|]. right. exists z.
  split; [exact H | done].
Qed.

Lemma channels_compare (a b : Z) :
  -15 <= a <= 255 -> -15 <= b <= 255 ->
  is_nan (CMYK.spec_channel a) = false
  /\ ltb (CMYK.spec_channel a) (CMYK.spec_channel b) = (a <? b).
Proof.
  intros Ha Hb.
  assert (forallb (fun a => forallb (fun b =>
            negb (is_nan (CMYK.spec_channel a))
            && Bool.eqb (ltb (CMYK.spec_channel a) (CMYK.spec_channel b))
                 (a <? b)) (seqZ (-15) 271)) (seqZ (-15) 271) = true) as Hall
    by (vm_compute; reflexivity).
  rewrite forallb_forall in Hall.
  assert (In a (seqZ (-15) 271)) as Ia by (apply list_elem_of_In, elem_of_seqZ; lia).
  assert (In b (seqZ (-15) 271)) as Ib by (apply list_elem_of_In, elem_of_seqZ; lia).
  specialize (Hall a Ia). rewrite forallb_forall in Hall.
  specialize (Hall b Ib). apply andb_true_iff in Hall as [H1 H2].
  split; [by apply negb_true_iff | by apply Bool.eqb_prop].
Qed.

Lemma Math_max_channels (a b : Z) :
  -15 <= a <= 255 -> -15 <= b <= 255 ->
  Double.Math_max (CMYK.spec_channel a) (CMYK.spec_channel b)
  = CMYK.spec_channel (Z.max a b).
Proof.
  intros Ha Hb. unfold Double.Math_max.
  destruct (channels_compare a b Ha Hb) as [Na L].
  destruct (channels_compare b a Hb Ha) as [Nb _].
  rewrite Na, Nb, L. cbn [orb].
  destruct (Z.ltb_spec a b); [by rewrite Z.max_r by lia | by rewrite Z.max_l by lia].
Qed.

Lemma Math_max_nan_l (x : float) : Double.Math_max nan x = nan.
Proof. reflexivity. Qed.

Lemma Math_max_nan_r (x : float) : Double.Math_max x nan = nan.
Proof.
  unfold Double.Math_max. change (is_nan nan) with true.
  by rewrite orb_true_r.
Qed.

Lemma ink_printable64 (v m : Z) :
  -15 <= v <= m -> m <= 255 ->
  CMYK.printable64
    (CMYK.ink64 (CMYK.spec_channel v) (1 - CMYK.spec_channel m) * 100) = true
  /\ CMYK.printable64 ((1 - CMYK.spec_channel m) * 100) = true.
Proof.
  intros Hv Hm.
  assert (forallb (fun m => forallb (fun v =>
            negb (v <=? m)
            || CMYK.printable64
                 (CMYK.ink64 (CMYK.spec_channel v) (1 - CMYK.spec_channel m)
                  * 100)
               && CMYK.printable64 ((1 - CMYK.spec_channel m) * 100))
            (seqZ (-15) 271)) (seqZ (-15) 271) = true) as Hall
    by (vm_compute; reflexivity).
  rewrite forallb_forall in Hall.
  assert (In m (seqZ (-15) 271)) as Im by (apply list_elem_of_In, elem_of_seqZ; lia).
  assert (In v (seqZ (-15) 271)) as Iv by (apply list_elem_of_In, elem_of_seqZ; lia).
  specialize (Hall m Im). rewrite forallb_forall in Hall.
  specialize (Hall v Iv).
  replace (v <=? m) with true in Hall by (symmetry; apply Z.leb_le; lia).
  cbn [negb orb] in Hall. by apply andb_true_iff in Hall.
Qed.

Lemma ink_of_nan (v : float) :
  CMYK.printable64 (CMYK.ink64 v (1 - nan) * 100) = true.
Proof. reflexivity. Qed.

Lemma line_numbers_printable64 (hex : string) :
  let r := CMYK.channel64 0 2 hex in
  let g := CMYK.channel64 2 4 hex in
  let b := CMYK.channel64 4 6 hex in
  let k := (1 - Double.Math_max (Double.Math_max r g) b)%float in
  CMYK.printable64 (CMYK.ink64 r k * 100) = true
  /\ CMYK.printable64 (CMYK.ink64 g k * 100) = true
  /\ CMYK.printable64 (CMYK.ink64 b k * 100) = true
  /\ CMYK.printable64 (k * 100) = true.
Proof.
  intros r g b k.
  pose proof (channel64_value 0 hex) as Hr.
  pose proof (channel64_value 2 hex) as Hg.
  pose proof (channel64_value 4 hex) as Hb.
  change (CMYK.channel64 0 (0 + 2) hex) with r in Hr.
  change (CMYK.channel64 2 (2 + 2) hex) with g in Hg.
  change (CMYK.channel64 4 (4 + 2) hex) with b in Hb.
  subst k. clearbody r g b.
  destruct Hr as [->|(zr & Hr & ->)].
  { rewrite !Math_max_nan_l. by rewrite !ink_of_nan. }
  destruct Hg as [->|(zg & Hg & ->)].
  { rewrite Math_max_nan_r, Math_max_nan_l. by rewrite !ink_of_nan. }
  destruct Hb as [->|(zb & Hb & ->)].
  { rewrite Math_max_nan_r. by rewrite !ink_of_nan. }
  rewrite !Math_max_channels by lia.
  split; [|split; [|split]].
  - apply ink_printable64; lia.
  - apply ink_printable64; lia.
  - apply ink_printable64; lia.
  - apply (ink_printable64 zr); lia.
Qed.

End Doubles.

(** The lines joined by line feeds: the header, then each line after a line
    feed. *)
Lemma concat_empty_cons (x : string) (xs : list string) :
  String.concat "" (x :: xs) = x ++ String.concat "" xs.
Proof.
  destruct xs as [|y ys]; [|reflexivity].
  cbn [String.concat]. by rewrite append_nil_r.
Qed.

Lemma join_lines (h : string) (ls : list string) :
  JS.join (String JS.LF "") (h :: ls)
  = h ++ String.concat "" (List.map (fun l => String JS.LF l) ls).
Proof.
  unfold JS.join. revert h. induction ls as [|l ls IH]; intros h.
  - cbn [String.concat List.map]. by rewrite append_nil_r.
  - change (String.concat (String JS.LF "") (h :: l :: ls))
      with (h ++ String JS.LF "" ++ String.concat (String JS.LF "") (l :: ls)).
    rewrite IH. cbn [List.map]. rewrite concat_empty_cons. reflexivity.
Qed.

Lemma exportToCMYK_lines (colors : list ExportColor) :
  CMYK.exportToCMYK colors
  = "/* CMYK Color Palette */" ++ String JS.LF ""
      ++ String.concat "" (List.map (fun d => String JS.LF (CMYK.line d)) colors).
Proof.
  unfold CMYK.exportToCMYK. rewrite join_lines, List.map_map.
  unfold CMYK.header. by rewrite append_assoc.
Qed.

(** C10. [exportToCMYK] gives a text for every list: the header, a line
    feed, then a line feed and its line for each colour.  A colour's line is
    the black sentinel [<name>: cmyk(0%, 0%, 0%, 100%)] exactly when its
    value, without its first [#] and cut to six characters, has a length
    other than 6, whatever the characters are: the value [#GGGGGG], six
    characters after its [#] and none of them a digit, gives
    [<name>: cmyk(0.0%, 0.0%, 0.0%, NaN%)]. *)
Theorem exportToCMYK_sentinel_by_length (colors : list ExportColor)
    (c : ExportColor) (n : string) :
  CMYK.exportToCMYK colors
    = "/* CMYK Color Palette */" ++ String JS.LF ""
        ++ String.concat ""
             (List.map (fun d => String JS.LF (CMYK.line d)) colors)
  /\ (CMYK.line c = name c ++ ": cmyk(0%, 0%, 0%, 100%)"
      <-> CMYK.spec_payload_length (value c) <> 6%nat)
  /\ CMYK.spec_payload_length "#GGGGGG" = 6%nat
  /\ spec_channels "#GGGGGG" = None
  /\ CMYK.line (Color n "#GGGGGG") = n ++ ": cmyk(0.0%, 0.0%, 0.0%, NaN%)".
Proof.
  split; [apply exportToCMYK_lines|].
  split; [|by repeat split].
  rewrite <- payload_length. split.
  - intros Hs Hlen. by apply (line_full_not_sentinel c Hlen).
  - apply line_short.
Qed.


Lemma map_line_app (before after : list ExportColor) (c : ExportColor) :
  List.map CMYK.line (before ++ c :: after)%list
  = (List.map CMYK.line before ++ CMYK.line c :: List.map CMYK.line after)%list.
Proof. by rewrite List.map_app. Qed.

(** C5, as the source has it. An entry whose value, without its first [#]
    and cut to six characters, has a length other than 6 gets the line
    [<name>: cmyk(0%, 0%, 0%, 100%)], the lines of the entries before and
    after it being their own; and the line of an entry written [#RRGGBB] is
    the CMYK conversion of its three channel bytes, computed in binary64 and
    printed with one decimal place. *)
Theorem exportToCMYK_short_entry_sentinel (before after : list ExportColor)
    (c : ExportColor) :
  CMYK.spec_payload_length (value c) <> 6%nat ->
  CMYK.exportToCMYK (before ++ c :: after)%list
  = JS.join (String JS.LF "")
      (CMYK.header
         :: (List.map CMYK.line before
             ++ (name c ++ ": cmyk(0%, 0%, 0%, 100%)")%string
                  :: List.map CMYK.line after)%list)
  /\ (forall d r g b,
        spec_channels (value d) = Some (r, g, b) ->
        CMYK.line d = CMYK.spec_line (name d) r g b)
  /\ (forall d, well_formed (value d) = true ->
        exists r g b,
          (0 <= r <= 255 /\ 0 <= g <= 255 /\ 0 <= b <= 255)
          /\ spec_channels (value d) = Some (r, g, b)
          /\ CMYK.line d = CMYK.spec_line (name d) r g b).
Proof.
  intros Hlen. rewrite <- payload_length in Hlen. split; [|split].
  - unfold CMYK.exportToCMYK. rewrite map_line_app.
    by rewrite (line_short c Hlen).
  - apply line_spec.
  - intros d Hd.
    destruct (well_formed_spec_channels _ Hd) as (r & g & b & Hch).
    exists r, g, b.
    destruct (spec_channels_payload d r g b Hch) as (_ & Hrng & _).
    split; [done|]. split; [done|]. by apply line_spec.
Qed.

Lemma exportToCMYK_short_entry_sentinel_witness :
  CMYK.exportToCMYK
    [Color "--color-bg" "#808080"; Color "--color-text" "#12345";
     Color "--color-accent" "#818CF8"; Color "--color-dark" "#051000"]
  = JS.join (String JS.LF "")
      [CMYK.header;
       "--color-bg: cmyk(0.0%, 0.0%, 0.0%, 49.8%)";
       "--color-text: cmyk(0%, 0%, 0%, 100%)";
       "--color-accent: cmyk(48.0%, 43.5%, 0.0%, 2.7%)";
       "--color-dark: cmyk(68.7%, 0.0%, 100.0%, 93.7%)"]
  /\ CMYK.line (Color "--color-dark" "#051000")
     = "--color-dark: cmyk(68.7%, 0.0%, 100.0%, 93.7%)".
Proof.
  pose proof (exportToCMYK_short_entry_sentinel
                [Color "--color-bg" "#808080"]
                [Color "--color-accent" "#818CF8";
                 Color "--color-dark" "#051000"]
                (Color "--color-text" "#12345")) as H.
  destruct H as (H1 & H2 & _); [vm_compute; discriminate|].
  split; [exact H1|].
  exact (H2 (Color "--color-dark" "#051000") 5 16 0 eq_refl).
Defined.

(** A six-character payload that is not made of radix-16 digits does not
    get the sentinel line, in either of its spellings. *)
Lemma exportToCMYK_non_hex_counterexample :
  (String.length (CMYK.payload (Color "x" "#GGGGGG")) =? 6)%nat
    && JS.all_hex (CMYK.payload (Color "x" "#GGGGGG")) = false
  /\ CMYK.line (Color "x" "#GGGGGG") = "x: cmyk(0.0%, 0.0%, 0.0%, NaN%)"
  /\ CMYK.line (Color "x" "#GGGGGG") <> "x: cmyk(0%, 0%, 0%, 100%)"
  /\ CMYK.line (Color "x" "#GGGGGG") <> "x: cmyk(0.0%, 0.0%, 0.0%, 100.0%)".
Proof.
  repeat split; try reflexivity; vm_compute; discriminate.
Qed.

(** ** Palette import *)

Lemma map_seq_take_lookup (hexes : list string) (i : nat) :
  (map_seq 0 (take 6 hexes) : gmap nat string) !! i
  = if decide (i < 6)%nat then hexes !! i else None.
Proof.
  rewrite lookup_map_seq_0.
  destruct (decide (i < 6)%nat) as [Hlt|Hge].
  - by rewrite lookup_take_lt.
  - apply lookup_take_ge. lia.
Qed.

Lemma all_hex_slice_well_formed (s : string) :
  PaletteImport.matches_here s = true -> well_formed (JS.slice 0 7 s) = true.
Proof.
  destruct s as [|c s]; [done|]. unfold PaletteImport.matches_here.
  rewrite !andb_true_iff. intros [[Hc Hlen] Hhex].
  unfold JS.slice in *. simpl.
  change (7 - 0)%nat with 7%nat in *. change (6 - 0)%nat with 6%nat in *.
  simpl. rewrite Hc. simpl. by rewrite Hlen, Hhex.
Qed.

Lemma scan_well_formed (s : string) (skip : nat) :
  Forall (fun h => well_formed h = true) (PaletteImport.scan skip s).
Proof.
  revert skip. induction s as [|c s IH]; intros skip; [constructor|].
  cbn [PaletteImport.scan]. destruct skip as [|n]; [|apply IH].
  destruct (PaletteImport.matches_here (String c s)) eqn:E; [|apply IH].
  constructor; [by apply all_hex_slice_well_formed | apply IH].
Qed.

Lemma matches_here_colour (c1 c2 c3 c4 c5 c6 : ascii) (rest : string) :
  JS.is_hex c1 = true -> JS.is_hex c2 = true -> JS.is_hex c3 = true ->
  JS.is_hex c4 = true -> JS.is_hex c5 = true -> JS.is_hex c6 = true ->
  PaletteImport.matches_here
    (String "#" (String c1 (String c2 (String c3 (String c4
       (String c5 (String c6 rest))))))) = true.
Proof.
  intros H1 H2 H3 H4 H5 H6. unfold PaletteImport.matches_here, JS.slice.
  simpl. rewrite substring_0_0. simpl. by rewrite H1, H2, H3, H4, H5, H6.
Qed.

(** Text without [#] before a well-formed colour is passed over, the colour
    is the next match, and the search resumes after it. *)
Lemma match_hexes_prefix (pre h rest : string) :
  Forall (fun c => c <> "#"%char) (list_ascii_of_string pre) ->
  well_formed h = true ->
  PaletteImport.match_hexes (pre ++ h ++ rest)
  = h :: PaletteImport.match_hexes rest.
Proof.
  intros Hpre Hh. unfold PaletteImport.match_hexes.
  induction pre as [|c pre IH].
  - apply well_formed_inv in Hh as (c1&c2&c3&c4&c5&c6&->&H1&H2&H3&H4&H5&H6).
    rewrite !append_String, !append_Empty. cbn [PaletteImport.scan].
    rewrite matches_here_colour by done.
    unfold JS.slice. simpl. by rewrite substring_0_0.
  - simpl in Hpre. apply Forall_cons in Hpre as [Hc Hpre].
    rewrite append_String. cbn [PaletteImport.scan].
    unfold PaletteImport.matches_here at 1.
    replace (Ascii.eqb c "#") with false
      by (symmetry; by apply Ascii.eqb_neq).
    cbn [andb]. by apply IH.
Qed.

(** C8. With fewer than two matches of [#RRGGBB] the state is returned as
    it was; with two or more, the custom swatches become exactly the first
    six matches at the indices 0 to 5, in their order of appearance, each of
    them a well-formed colour. *)
Theorem applyImportText_contract (raw : string) (st : PaletteImport.state) :
  let hexes := PaletteImport.match_hexes raw in
  ((length hexes < 2)%nat -> PaletteImport.applyImportText raw st = st)
  /\ ((2 <= length hexes)%nat ->
      forall i : nat,
        PaletteImport.customSwatches (PaletteImport.applyImportText raw st) !! i
        = if decide (i < 6)%nat then hexes !! i else None)
  /\ Forall (fun h => well_formed h = true) hexes
  /\ (forall pre h rest,
        Forall (fun c => c <> "#"%char) (list_ascii_of_string pre) ->
        well_formed h = true ->
        PaletteImport.match_hexes (pre ++ h ++ rest)
        = h :: PaletteImport.match_hexes rest).
Proof.
  intros hexes. split; [|split; [|split]].
  - intros Hlt. unfold PaletteImport.applyImportText. fold hexes.
    by replace (length hexes <? 2)%nat with true
      by (symmetry; by apply Nat.ltb_lt).
  - intros Hge i. unfold PaletteImport.applyImportText. fold hexes.
    replace (length hexes <? 2)%nat with false
      by (symmetry; by apply Nat.ltb_ge).
    cbn [PaletteImport.customSwatches]. apply map_seq_take_lookup.
  - apply scan_well_formed.
  - apply match_hexes_prefix.
Qed.

Lemma applyImportText_contract_witness :
  PaletteImport.applyImportText "only #0B1220 here"
    (PaletteImport.State ∅ true "#818CF8" true PaletteImport.clipboard "x")
  = PaletteImport.State ∅ true "#818CF8" true PaletteImport.clipboard "x"
  /\ PaletteImport.customSwatches
       (PaletteImport.applyImportText "bg #0B1220, text #EAF0FF;"
          (PaletteImport.State ∅ true "#818CF8" true PaletteImport.clipboard "x"))
     !! 1%nat = Some "#EAF0FF".
Proof.
  split.
  - apply (applyImportText_contract "only #0B1220 here"). vm_compute. lia.
  - pose proof (applyImportText_contract "bg #0B1220, text #EAF0FF;"
        (PaletteImport.State ∅ true "#818CF8" true PaletteImport.clipboard "x"))
      as (_ & H & _).
    rewrite H; [reflexivity | vm_compute; lia].
Defined.

(** ** The CMYK numbers stay in the range of [toFixed] *)





Lemma inject_Z_le (a b : Z) : a <= b -> (inject_Z a <= inject_Z b)%Q.
Proof. intros H. unfold Qle. simpl. lia. Qed.




(** ** JSON: quoting and reading a string *)

(** Reading back one escaped code unit. *)
Lemma parse_chars_escape (c : ascii) (rest : string) :
  JSON.parse_chars (JSON.escape c ++ rest)
  = JSON.cons_char c (JSON.parse_chars rest).
Proof.
  destruct c as [[] [] [] [] [] [] [] []]; reflexivity.
Qed.

Lemma parse_chars_escape_all (s rest : string) :
  JSON.parse_chars (JSON.escape_all s ++ String JS.DQ rest) = Some (s, rest).
Proof.
  induction s as [|c s IH]; [reflexivity|].
  cbn [JSON.escape_all]. rewrite append_assoc, parse_chars_escape.
  by rewrite IH.
Qed.

Lemma quote_append (s rest : string) :
  JSON.quote s ++ rest = String JS.DQ (JSON.escape_all s ++ String JS.DQ rest).
Proof.
  unfold JSON.quote. rewrite append_String, append_assoc.
  by rewrite append_String, append_Empty.
Qed.

(** ** JSON: white space *)

Lemma skip_ws_append (indent t : string) :
  Forall (fun c => JSON.is_ws c = true) (list_ascii_of_string indent) ->
  JSON.skip_ws (indent ++ t) = JSON.skip_ws t.
Proof.
  induction indent as [|c indent IH]; intros H; [done|].
  simpl in H. apply Forall_cons in H as [Hc H].
  rewrite append_String. cbn [JSON.skip_ws]. rewrite Hc. by apply IH.
Qed.

Lemma skip_ws_idem (s : string) :
  JSON.skip_ws (JSON.skip_ws s) = JSON.skip_ws s.
Proof.
  induction s as [|c s IH]; [done|]. cbn [JSON.skip_ws].
  destruct (JSON.is_ws c) eqn:E; [done|]. cbn [JSON.skip_ws]. by rewrite E.
Qed.

Lemma parse_value_skip (fuel : nat) (s : string) :
  JSON.parse_value fuel (JSON.skip_ws s) = JSON.parse_value fuel s.
Proof. destruct fuel; [done|]. cbn [JSON.parse_value]. by rewrite skip_ws_idem. Qed.

Lemma parse_members_skip (fuel : nat) (s : string) :
  JSON.parse_members fuel (JSON.skip_ws s) = JSON.parse_members fuel s.
Proof.
  destruct fuel; [done|]. cbn [JSON.parse_members]. by rewrite skip_ws_idem.
Qed.

Lemma indent_inner (indent : string) :
  Forall (fun c => JSON.is_ws c = true) (list_ascii_of_string indent) ->
  Forall (fun c => JSON.is_ws c = true) (list_ascii_of_string (indent ++ "  ")).
Proof.
  induction indent as [|c indent IH]; intros H.
  - repeat constructor.
  - simpl in H. apply Forall_cons in H as [Hc H].
    rewrite append_String. simpl. constructor; [done | by apply IH].
Qed.

(** A line feed and an indentation are passed over. *)
Lemma skip_ws_newline (indent t : string) :
  Forall (fun c => JSON.is_ws c = true) (list_ascii_of_string indent) ->
  JSON.skip_ws (String JS.LF (indent ++ t)) = JSON.skip_ws t.
Proof.
  intros H. cbn [JSON.skip_ws].
  change (JSON.is_ws JS.LF) with true. cbv iota. by apply skip_ws_append.
Qed.

(** ** JSON: one member, one object *)

Lemma parse_members_step (fuel : nat) (k : string) (X : string) :
  JSON.parse_members (S fuel) (JSON.quote k ++ ": " ++ X)
  = match JSON.parse_value fuel X with
    | Some (v, rest2) =>
        match JSON.skip_ws rest2 with
        | String d rest3 =>
            if JS.code d =? 44 then
              match JSON.parse_members fuel rest3 with
              | Some (ms, rest4) => Some ((k, v) :: ms, rest4)
              | None => None
              end
            else if JS.code d =? 125 then Some ([(k, v)], rest3)
            else None
        | EmptyString => None
        end
    | None => None
    end.
Proof.
  rewrite quote_append. cbn [JSON.parse_members JSON.skip_ws].
  change (JSON.is_ws JS.DQ) with false. cbv iota.
  change (JS.code JS.DQ =? 34) with true. cbv iota.
  rewrite parse_chars_escape_all.
  rewrite !append_String, append_Empty. cbn [JSON.skip_ws].
  change (JSON.is_ws ":") with false. cbv iota.
  change (JS.code ":" =? 58) with true. cbv iota.
  rewrite <- (parse_value_skip fuel (String " " X)).
  cbn [JSON.skip_ws]. change (JSON.is_ws " ") with true. cbv iota.
  by rewrite parse_value_skip.
Qed.

Lemma parse_value_string (fuel : nat) (s rest : string) :
  JSON.parse_value (S fuel) (JSON.quote s ++ rest) = Some (JSON.JString s, rest).
Proof.
  rewrite quote_append. cbn [JSON.parse_value JSON.skip_ws].
  change (JSON.is_ws JS.DQ) with false. cbv iota.
  change (JS.code JS.DQ =? 34) with true. cbv iota.
  by rewrite parse_chars_escape_all.
Qed.

Lemma parse_value_empty_object (fuel : nat) (rest : string) :
  JSON.parse_value (S fuel) ("{}" ++ rest) = Some (JSON.JObject [], rest).
Proof. reflexivity. Qed.

(** An opening brace, then white space, then the first member's quote. *)
Lemma parse_value_object_step (fuel : nat) (inner Y : string) :
  Forall (fun c => JSON.is_ws c = true) (list_ascii_of_string inner) ->
  JSON.parse_value (S fuel)
    (String "{" (String JS.LF (inner ++ String JS.DQ Y)))
  = match JSON.parse_members fuel (String JS.DQ Y) with
    | Some (ms, rest') => Some (JSON.JObject ms, rest')
    | None => None
    end.
Proof.
  intros H. cbn [JSON.parse_value]. 
  change (JSON.skip_ws (String "{" ?t)) with (String "{"%char t).
  cbv iota. change (JS.code "{" =? 34) with false.
  change (JS.code "{" =? 123) with true. cbv iota.
  rewrite (skip_ws_newline inner _ H). cbn [JSON.skip_ws].
  change (JSON.is_ws JS.DQ) with false. cbv iota.
  change (JS.code JS.DQ =? 125) with false. by cbv iota.
Qed.

(** ** JSON: a printed value is read back *)

Lemma json_nested_ind (P : JSON.json -> Prop) :
  (forall s, P (JSON.JString s)) ->
  (forall ms, Forall (fun m => P (snd m)) ms -> P (JSON.JObject ms)) ->
  forall v, P v.
Proof.
  intros Hs Ho. fix IH 1. intros [s|ms]; [apply Hs|].
  apply Ho. induction ms as [|[k v] ms IHms]; constructor.
  - apply IH.
  - apply IHms.
Qed.

Lemma stringify_object (indent : string) (m : string * JSON.json)
    (ms : list (string * JSON.json)) :
  JSON.stringify indent (JSON.JObject (m :: ms))
  = "{" ++ String JS.LF (indent ++ "  ")
      ++ JS.join ("," ++ String JS.LF (indent ++ "  "))
           (List.map (fun m => JSON.quote (fst m) ++ ": "
                                 ++ JSON.stringify (indent ++ "  ") (snd m))
              (m :: ms))
      ++ String JS.LF indent ++ "}".
Proof. reflexivity. Qed.

Lemma weight_object (ms : list (string * JSON.json)) :
  JSON.weight (JSON.JObject ms)
  = S (list_sum (List.map (fun m => S (JSON.weight (snd m))) ms)).
Proof. reflexivity. Qed.

Lemma join_map_cons {A} (sep : string) (f : A -> string) (x y : A)
    (l : list A) :
  JS.join sep (List.map f (x :: y :: l))
  = f x ++ sep ++ JS.join sep (List.map f (y :: l)).
Proof. reflexivity. Qed.

Lemma join_map_single {A} (sep : string) (f : A -> string) (x : A) :
  JS.join sep (List.map f [x]) = f x.
Proof. reflexivity. Qed.

Lemma parse_members_text (inner indent : string) :
  Forall (fun c => JSON.is_ws c = true) (list_ascii_of_string inner) ->
  Forall (fun c => JSON.is_ws c = true) (list_ascii_of_string indent) ->
  forall ms : list (string * JSON.json),
    Forall (fun m => forall fuel rest,
              (JSON.weight (snd m) <= fuel)%nat ->
              JSON.parse_value fuel (JSON.stringify inner (snd m) ++ rest)
              = Some (snd m, rest)) ms ->
    ms <> [] ->
    forall (fuel : nat) (rest : string),
      (list_sum (List.map (fun m => S (JSON.weight (snd m))) ms) <= fuel)%nat ->
      JSON.parse_members fuel
        (JS.join ("," ++ String JS.LF inner)
           (List.map (fun m => JSON.quote (fst m) ++ ": "
                                 ++ JSON.stringify inner (snd m)) ms)
         ++ String JS.LF (indent ++ String "}" rest))
      = Some (ms, rest).
Proof.
  intros Hinner Hindent. induction ms as [|[k v] ms IH]; [done|].
  intros HF _ fuel rest Hfuel. apply Forall_cons in HF as [Hv HF].
  change (list_sum (List.map ?f (?x :: ?l)))
    with (f x + list_sum (List.map f l))%nat in Hfuel.
  cbn [fst snd] in *.
  destruct fuel as [|fuel]; [lia|].
  destruct ms as [|m2 ms].
  - rewrite join_map_single. cbn [fst snd]. rewrite !append_assoc.
    rewrite parse_members_step, Hv by (simpl in Hfuel; lia).
    rewrite (skip_ws_newline indent _ Hindent). reflexivity.
  - rewrite join_map_cons. cbn [fst snd]. rewrite !append_assoc.
    rewrite parse_members_step, Hv by lia.
    rewrite !append_String, append_Empty.
    change (JSON.skip_ws (String "," ?t)) with (String ","%char t).
    cbv iota. change (JS.code "," =? 44) with true. cbv iota.
    rewrite <- parse_members_skip, (skip_ws_newline inner _ Hinner).
    rewrite parse_members_skip.
    rewrite IH; [done | done | done | lia].
Qed.

Lemma members_text_head (sep tail : string) (f : string * JSON.json -> string)
    (m : string * JSON.json) (ms : list (string * JSON.json)) :
  (forall m, exists Y, f m = String JS.DQ Y) ->
  exists Y, JS.join sep (List.map f (m :: ms)) ++ tail = String JS.DQ Y.
Proof.
  intros Hf. destruct (Hf m) as [Y HY].
  destruct ms as [|m2 ms].
  - rewrite join_map_single, HY, append_String. eauto.
  - rewrite join_map_cons, HY, append_String. eauto.
Qed.

Lemma parse_value_stringify (v : JSON.json) :
  forall (fuel : nat) (indent rest : string),
    Forall (fun c => JSON.is_ws c = true) (list_ascii_of_string indent) ->
    (JSON.weight v <= fuel)%nat ->
    JSON.parse_value fuel (JSON.stringify indent v ++ rest) = Some (v, rest).
Proof.
  induction v as [s|ms IH] using json_nested_ind;
    intros fuel indent rest Hindent Hfuel.
  - destruct fuel as [|fuel]; [simpl in Hfuel; lia|].
    apply parse_value_string.
  - rewrite weight_object in Hfuel.
    destruct fuel as [|fuel]; [lia|].
    destruct ms as [|m ms]; [apply parse_value_empty_object|].
    rewrite stringify_object.
    pose proof (indent_inner indent Hindent) as Hinner.
    set (inner := indent ++ "  ") in *.
    set (sep := "," ++ String JS.LF inner).
    set (f := fun m : string * JSON.json =>
                JSON.quote (fst m) ++ ": " ++ JSON.stringify inner (snd m)).
    set (txt := JS.join sep (List.map f (m :: ms))).
    autorewrite with text.
    destruct (members_text_head sep (String JS.LF (indent ++ String "}" rest))
                f m ms) as [Y HY].
    { intros m'. unfold f, JSON.quote. rewrite append_String. eauto. }
    fold txt in HY.
    rewrite HY, (parse_value_object_step fuel inner Y Hinner), <- HY.
    unfold txt, sep, f.
    rewrite (parse_members_text inner indent Hinner Hindent (m :: ms));
      [done | | done | lia].
    eapply Forall_impl; [exact IH|]. intros m' Hm' fl r Hfl.
    by apply Hm'.
Qed.

Lemma quote_length (s : string) : (2 <= String.length (JSON.quote s))%nat.
Proof.
  unfold JSON.quote. simpl. rewrite length_append. simpl. lia.
Qed.

Lemma members_text_length (sep : string) (f : string * JSON.json -> string)
    (ms : list (string * JSON.json)) :
  Forall (fun m => (S (JSON.weight (snd m)) <= String.length (f m))%nat) ms ->
  (list_sum (List.map (fun m => S (JSON.weight (snd m))) ms)
   <= String.length (JS.join sep (List.map f ms)))%nat.
Proof.
  induction ms as [|m ms IH]; intros H; [simpl; lia|].
  apply Forall_cons in H as [Hm H]. specialize (IH H).
  change (list_sum (List.map ?g (?x :: ?l)))
    with (g x + list_sum (List.map g l))%nat.
  destruct ms as [|m2 ms].
  - rewrite join_map_single. simpl. lia.
  - rewrite join_map_cons, !length_append. lia.
Qed.

Lemma stringify_length (v : JSON.json) :
  forall indent, (JSON.weight v <= String.length (JSON.stringify indent v))%nat.
Proof.
  induction v as [s|ms IH] using json_nested_ind; intros indent.
  - pose proof (quote_length s). simpl. lia.
  - destruct ms as [|m ms]; [simpl; lia|].
    rewrite stringify_object, weight_object.
    set (inner := indent ++ "  ").
    set (sep := "," ++ String JS.LF inner).
    set (f := fun m : string * JSON.json =>
                JSON.quote (fst m) ++ ": " ++ JSON.stringify inner (snd m)).
    assert (Forall (fun m0 => (S (JSON.weight (snd m0))
                               <= String.length (f m0))%nat) (m :: ms)) as HF.
    { eapply Forall_impl; [exact IH|]. intros m' Hm'. cbn beta in Hm'.
      unfold f. rewrite !length_append. pose proof (quote_length (fst m')).
      specialize (Hm' inner). lia. }
    pose proof (members_text_length sep f (m :: ms) HF) as Hl.
    set (txt := JS.join sep (List.map f (m :: ms))) in *.
    repeat (rewrite append_String || rewrite append_Empty).
    cbn [String.length]. rewrite !length_append. lia.
Qed.

(** Parsing the text of a value gives the value back. *)
Lemma parse_stringify (v : JSON.json) : JSON.parse (JSON.stringify "" v) = Some v.
Proof.
  unfold JSON.parse.
  rewrite <- (append_nil_r (JSON.stringify "" v)) at 2.
  rewrite parse_value_stringify; [done | constructor |].
  pose proof (stringify_length v ""). lia.
Qed.

(** ** The object built by [exportToPaletteLive] *)

Lemma define_fresh (o : PaletteLive.object) (k v : string) :
  k ∉ List.map fst o -> PaletteLive.define o k v = (o ++ [(k, v)])%list.
Proof.
  induction o as [|[k' v'] o IH]; intros Hk; [done|].
  cbn [PaletteLive.define]. cbn [List.map fst] in Hk.
  apply not_elem_of_cons in Hk as [Hne Hk].
  replace (String.eqb k' k) with false
    by (symmetry; apply String.eqb_neq; congruence).
  cbn [app]. by rewrite IH.
Qed.

Lemma overrides_of_from (acc : PaletteLive.object) (colors : list ExportColor) :
  NoDup (List.map fst acc ++ List.map name colors)%list ->
  "__proto__" ∉ List.map name colors ->
  foldl (fun o c => PaletteLive.assign o (name c) (value c)) acc colors
  = (acc ++ PaletteLive.pairs colors)%list.
Proof.
  revert acc. induction colors as [|c colors IH]; intros acc Hnd Hproto.
  - cbn. by rewrite app_nil_r.
  - cbn [foldl List.map] in *.
    apply not_elem_of_cons in Hproto as [Hne Hproto].
    unfold PaletteLive.assign at 2.
    replace (String.eqb (name c) "__proto__") with false
      by (symmetry; apply String.eqb_neq; congruence).
    apply NoDup_app in Hnd as (Hacc & Hdisj & Hcols).
    apply NoDup_cons in Hcols as [Hc Hcols].
    rewrite define_fresh.
    2:{ intros Hin. apply (Hdisj _ Hin). by left. }
    rewrite IH; [| |done].
    + unfold PaletteLive.pairs. cbn [List.map]. by rewrite <- app_assoc.
    + rewrite List.map_app. cbn [List.map fst]. rewrite <- app_assoc.
      apply NoDup_app. split; [done|]. split.
      * intros x Hx Hin. apply elem_of_cons in Hin as [->|Hin].
        -- apply (Hdisj _ Hx). by left.
        -- apply (Hdisj _ Hx). by right.
      * by apply NoDup_cons.
Qed.

Lemma overrides_of_pairs (colors : list ExportColor) :
  NoDup (List.map name colors) ->
  "__proto__" ∉ List.map name colors ->
  PaletteLive.overrides_of colors = PaletteLive.pairs colors.
Proof.
  intros Hnd Hproto. unfold PaletteLive.overrides_of.
  by rewrite overrides_of_from.
Qed.

(** ** The order of the properties *)

Lemma insert_index_perm (n : Z) (p : string * string)
    (l : list (Z * (string * string))) :
  List.map snd (PaletteLive.insert_index n p l) ≡ₚ p :: List.map snd l.
Proof.
  induction l as [|[m q] l IH]; [done|].
  cbn [PaletteLive.insert_index]. destruct (n <=? m); [done|].
  cbn [List.map snd]. rewrite IH. apply Permutation_swap.
Qed.

Lemma own_properties_perm (o : PaletteLive.object) :
  PaletteLive.own_properties o ≡ₚ o.
Proof.
  unfold PaletteLive.own_properties, PaletteLive.named.
  induction o as [|[k v] o IH]; [done|].
  cbn [PaletteLive.indexed List.filter fst].
  destruct (PaletteLive.array_index k) as [n|].
  - rewrite insert_index_perm. cbn [app]. by rewrite IH.
  - rewrite <- Permutation_middle. by rewrite IH.
Qed.

(** ** The map of a parsed object *)

Lemma colour_map_members (l : list (string * string)) (g : gmap string string) :
  foldl (fun acc m =>
           match acc, snd m with
           | Some g, JSON.JString s => Some (<[fst m := s]> g)
           | _, _ => None
           end) (Some g)
    (List.map (fun p => (fst p, JSON.JString (snd p))) l)
  = Some (foldl (fun g p => <[fst p := snd p]> g) g l).
Proof.
  revert g. induction l as [|[k v] l IH]; intros g; [done|].
  cbn [List.map foldl fst snd]. apply IH.
Qed.

Lemma foldl_insert_list_to_map (l : list (string * string))
    (g : gmap string string) :
  NoDup (List.map fst l) ->
  foldl (fun g p => <[fst p := snd p]> g) g l = list_to_map l ∪ g.
Proof.
  revert g. induction l as [|[k v] l IH]; intros g Hnd.
  - cbn. by rewrite (left_id_L ∅ (∪)).
  - cbn [List.map fst] in Hnd. apply NoDup_cons in Hnd as [Hk Hnd].
    cbn [foldl fst snd]. rewrite IH by done.
    rewrite list_to_map_cons, <- insert_union_l. symmetry.
    apply insert_union_r. by apply not_elem_of_list_to_map_1.
Qed.

Lemma colour_map_object (l : list (string * string)) :
  NoDup (List.map fst l) ->
  PaletteLive.colour_map
    (JSON.JObject (List.map (fun p => (fst p, JSON.JString (snd p))) l))
  = Some (list_to_map l).
Proof.
  intros Hnd. unfold PaletteLive.colour_map.
  rewrite colour_map_members, foldl_insert_list_to_map by done.
  by rewrite (right_id_L ∅ (∪)).
Qed.

Lemma pairs_names (colors : list ExportColor) :
  List.map fst (PaletteLive.pairs colors) = List.map name colors.
Proof.
  unfold PaletteLive.pairs. rewrite List.map_map. by apply List.map_ext.
Qed.

(** C6, as the source has it. For a list of named colours with distinct
    names, none of them [__proto__], parsing the text of
    [exportToPaletteLive] gives the record with version 1.0, format
    palettelive and an overrides object whose name-to-colour map is the map
    of the input list. *)
Theorem exportToPaletteLive_round_trip (colors : list ExportColor) :
  NoDup (List.map name colors) ->
  "__proto__" ∉ List.map name colors ->
  exists overrides,
    JSON.parse (PaletteLive.exportToPaletteLive colors)
    = Some (JSON.JObject [ ("version", JSON.JString "1.0");
                           ("format", JSON.JString "palettelive");
                           ("overrides", overrides) ])
    /\ PaletteLive.colour_map overrides
       = Some (list_to_map (PaletteLive.pairs colors)).
Proof.
  intros Hnd Hproto. eexists. split.
  - unfold PaletteLive.exportToPaletteLive. rewrite parse_stringify.
    reflexivity.
  - rewrite (overrides_of_pairs colors Hnd Hproto).
    pose proof (own_properties_perm (PaletteLive.pairs colors)) as Hperm.
    assert (NoDup (List.map fst (PaletteLive.pairs colors))) as Hnd'
      by (by rewrite pairs_names).
    assert (NoDup (List.map fst
              (PaletteLive.own_properties (PaletteLive.pairs colors)))) as Hnd''
      by (by rewrite (Permutation_map fst Hperm)).
    rewrite colour_map_object by done.
    f_equal. by apply list_to_map_proper.
Qed.

Lemma exportToPaletteLive_round_trip_witness :
  exists overrides,
    JSON.parse
      (PaletteLive.exportToPaletteLive
         [Color "--color-bg" "#0B1220"; Color "--color-surface" "#111C33";
          Color "--color-accent" "#818CF8"])
    = Some (JSON.JObject [ ("version", JSON.JString "1.0");
                           ("format", JSON.JString "palettelive");
                           ("overrides", overrides) ])
    /\ PaletteLive.colour_map overrides
       = Some (list_to_map
                 [("--color-bg", "#0B1220"); ("--color-surface", "#111C33");
                  ("--color-accent", "#818CF8")]).
Proof.
  apply (exportToPaletteLive_round_trip
           [Color "--color-bg" "#0B1220"; Color "--color-surface" "#111C33";
            Color "--color-accent" "#818CF8"]).
  - compute_done.
  - compute_done.
Defined.

(** A colour named [__proto__] is lost: the assignment runs the setter of
    [Object.prototype] and creates no property. *)
Lemma exportToPaletteLive_proto_counterexample :
  NoDup (List.map name [Color "__proto__" "#000000"])
  /\ JSON.parse (PaletteLive.exportToPaletteLive [Color "__proto__" "#000000"])
     = Some (JSON.JObject [ ("version", JSON.JString "1.0");
                            ("format", JSON.JString "palettelive");
                            ("overrides", JSON.JObject []) ])
  /\ PaletteLive.colour_map (JSON.JObject []) = Some ∅
  /\ (list_to_map (PaletteLive.pairs [Color "__proto__" "#000000"])
        : gmap string string) !! "__proto__" = Some "#000000"
  /\ (∅ : gmap string string) !! "__proto__" = None.
Proof.
  split; [repeat constructor; set_solver|].
  split; [reflexivity|]. split; [reflexivity|]. split; reflexivity.
Qed.

(** ** What the repair writes *)

(** A colour returned by the loop reaches AA against the background. *)
Lemma repair_loop_passes (n : nat) (isDark : bool) (bg : string) :
  forall (c : rgb) (ratio : Number R) (fixed : string),
    repair_loop n isDark bg c ratio = Some fixed ->
    nge (contrastRatio fixed bg) AA = true.
Proof.
  induction n as [|n IH]; intros c ratio fixed H; [discriminate|].
  cbn [repair_loop] in H. destruct (nlt ratio AA); [|discriminate].
  cbv zeta in H.
  destruct (nge (contrastRatio (hex_of_rgb (step_rgb isDark c)) bg) AA) eqn:E.
  - by injection H as <-.
  - by apply IH in H.
Qed.

(** The two outcomes of the body of the [forEach] at its own index. *)
Lemma fix_entry_cases (swatches : list string) (bg : string)
    (next : gmap nat string) (i : nat) :
  fix_entry swatches bg next i !! i = next !! i
  \/ exists current fixed,
       (3 <= i)%nat
       /\ from_option Some (swatches !! i) (next !! i) = Some current
       /\ nge (contrastRatio current bg) AA = false
       /\ repair_loop 20 (ngt (luminance bg) (Num 0.5%R)) bg
            (rgb_of_hex current) (contrastRatio current bg) = Some fixed
       /\ fix_entry swatches bg next i !! i = Some fixed.
Proof.
  unfold fix_entry.
  destruct (i <? 3)%nat eqn:Hi; [by left|]. apply Nat.ltb_ge in Hi.
  destruct (from_option Some (swatches !! i) (next !! i)) as [current|] eqn:Hc;
    [|by left].
  cbv zeta. destruct (nge (contrastRatio current bg) AA) eqn:Hok; [by left|].
  destruct (repair_loop _ _ _ _ _) as [fixed|] eqn:Hloop; [|by left].
  right. exists current, fixed. by rewrite lookup_insert_eq.
Qed.

(** X4. Every entry of the returned map is the caller's entry, or a colour
    at an index from 3 on, inside the swatch list, whose contrast ratio
    against the background is at least 4.5. *)
Theorem fixTextContrast_writes_only_passing (swatches : list string)
    (customSwatches : gmap nat string) (i : nat) :
  fixTextContrast swatches customSwatches !! i = customSwatches !! i
  \/ exists bg fixed,
       from_option Some (swatches !! 0%nat) (customSwatches !! 0%nat) = Some bg
       /\ (3 <= i < length swatches)%nat
       /\ fixTextContrast swatches customSwatches !! i = Some fixed
       /\ nge (contrastRatio fixed bg) AA = true.
Proof.
  destruct (from_option Some (swatches !! 0%nat) (customSwatches !! 0%nat))
    as [bg|] eqn:Hbg.
  - rewrite (fixTextContrast_lookup _ _ bg) by done.
    destruct (decide (i < length swatches)%nat) as [Hlt|]; [|by left].
    destruct (fix_entry_cases swatches bg customSwatches i)
      as [Hsame|(current & fixed & H3 & _ & _ & Hloop & Hfix)]; [by left|].
    right. exists bg, fixed. repeat split; try done.
    by apply repair_loop_passes in Hloop.
  - left. by rewrite fixTextContrast_no_background.
Qed.

(** X5. Running the repair on its own result changes nothing. *)
Theorem fixTextContrast_idempotent (swatches : list string)
    (customSwatches : gmap nat string) :
  fixTextContrast swatches (fixTextContrast swatches customSwatches)
  = fixTextContrast swatches customSwatches.
Proof.
  destruct (from_option Some (swatches !! 0%nat) (customSwatches !! 0%nat))
    as [bg|] eqn:Hbg.
  2: { rewrite (fixTextContrast_no_background _ _ Hbg).
       by apply fixTextContrast_no_background. }
  set (R := fixTextContrast swatches customSwatches).
  assert (from_option Some (swatches !! 0%nat) (R !! 0%nat) = Some bg) as Hbg'.
  { unfold R. rewrite (fixTextContrast_lookup _ _ bg) by done.
    by destruct (decide (0 < length swatches)%nat). }
  apply map_eq. intros j.
  rewrite (fixTextContrast_lookup _ R bg) by done.
  destruct (decide (j < length swatches)%nat) as [Hlt|]; [|done].
  assert (R !! j = fix_entry swatches bg customSwatches j !! j) as HR.
  { unfold R. rewrite (fixTextContrast_lookup _ _ bg) by done.
    by rewrite decide_True. }
  destruct (fix_entry_cases swatches bg customSwatches j)
    as [Hsame|(current & fixed & H3 & _ & _ & Hloop & Hfix)].
  - rewrite (fix_entry_local swatches bg R customSwatches j); [done|].
    by rewrite HR.
  - rewrite Hfix in HR. unfold fix_entry.
    replace (j <? 3)%nat with false by (symmetry; apply Nat.ltb_ge; lia).
    rewrite HR. cbn [from_option]. cbv zeta.
    by rewrite (repair_loop_passes _ _ _ _ _ _ Hloop).
Qed.

(** ** Well-formed colours stay well-formed *)

(** A channel byte is written with two radix-16 digits. *)
Lemma byte_text (z : Z) :
  0 <= z <= 255 ->
  exists a b,
    JS.padStart2 (JS.toString16 (Num z)) = String a (String b "")
    /\ JS.is_hex a = true /\ JS.is_hex b = true.
Proof.
  intros Hz.
  pose (chk := fun z : Z =>
    match JS.padStart2 (JS.toString16 (Num z)) with
    | String a (String b "") => JS.is_hex a && JS.is_hex b
    | _ => false
    end).
  assert (forallb chk (seqZ 0 256) = true) as Hall by (vm_compute; reflexivity).
  rewrite forallb_forall in Hall.
  assert (In z (seqZ 0 256)) as Hin.
  { apply list_elem_of_In, elem_of_seqZ. lia. }
  specialize (Hall z Hin). unfold chk in Hall.
  destruct (JS.padStart2 (JS.toString16 (Num z))) as [|a [|b [|? ?]]];
    try discriminate.
  exists a, b. apply andb_true_iff in Hall as [Ha Hb]. done.
Qed.

Lemma hex_of_rgb_well_formed (c : rgb) :
  bytes c -> well_formed (hex_of_rgb c) = true.
Proof.
  intros (r & g & b & -> & Hr & Hg & Hb).
  destruct (byte_text r Hr) as (r1 & r2 & Er & Hr1 & Hr2).
  destruct (byte_text g Hg) as (g1 & g2 & Eg & Hg1 & Hg2).
  destruct (byte_text b Hb) as (b1 & b2 & Eb & Hb1 & Hb2).
  unfold hex_of_rgb. cbn [red green blue]. rewrite Er, Eg, Eb.
  autorewrite with text. cbn [well_formed JS.all_hex String.length].
  rewrite Hr1, Hr2, Hg1, Hg2, Hb1, Hb2. reflexivity.
Qed.

Lemma rgb_of_hex_bytes (s : string) :
  well_formed s = true -> bytes (rgb_of_hex s).
Proof.
  intros H.
  destruct (well_formed_channels s H)
    as (r & g & b & (Hr & Hg & Hb) & _ & _ & _ & _ & Er & Eg & Eb).
  exists r, g, b. unfold rgb_of_hex. by rewrite Er, Eg, Eb.
Qed.

Lemma step_rgb_bytes (isDark : bool) (c : rgb) :
  bytes c -> bytes (step_rgb isDark c).
Proof.
  intros (r & g & b & -> & Hr & Hg & Hb).
  destruct isDark.
  - exists (Z.min 255 (r + 12)), (Z.min 255 (g + 12)), (Z.min 255 (b + 12)).
    split; [reflexivity|lia].
  - exists (Z.max 0 (r - 12)), (Z.max 0 (g - 12)), (Z.max 0 (b - 12)).
    split; [reflexivity|lia].
Qed.

Lemma repair_loop_well_formed (n : nat) (isDark : bool) (bg : string) :
  forall (c : rgb) (ratio : Number R) (fixed : string),
    bytes c ->
    repair_loop n isDark bg c ratio = Some fixed ->
    well_formed fixed = true.
Proof.
  induction n as [|n IH]; intros c ratio fixed Hc H; [discriminate|].
  cbn [repair_loop] in H. destruct (nlt ratio AA); [|discriminate].
  cbv zeta in H.
  destruct (nge (contrastRatio (hex_of_rgb (step_rgb isDark c)) bg) AA).
  - injection H as <-. by apply hex_of_rgb_well_formed, step_rgb_bytes.
  - eapply IH; [|exact H]. by apply step_rgb_bytes.
Qed.

(** The colour in force at an index: the override, else the swatch. *)
Lemma current_well_formed (swatches : list string)
    (customSwatches : gmap nat string) (i : nat) (current : string) :
  Forall (fun s => well_formed s = true) swatches ->
  map_Forall (fun _ v => well_formed v = true) customSwatches ->
  from_option Some (swatches !! i) (customSwatches !! i) = Some current ->
  well_formed current = true.
Proof.
  intros Hsw Hcu H.
  destruct (customSwatches !! i) as [v|] eqn:Hv; cbn [from_option] in H.
  - injection H as <-. by eapply Hcu.
  - rewrite Forall_lookup in Hsw. by eapply Hsw.
Qed.

(** X6. When every swatch and every override is a well-formed colour, so is
    every entry of the map that the repair returns. *)
Theorem fixTextContrast_well_formed (swatches : list string)
    (customSwatches : gmap nat string) :
  Forall (fun s => well_formed s = true) swatches ->
  map_Forall (fun _ v => well_formed v = true) customSwatches ->
  map_Forall (fun _ v => well_formed v = true)
    (fixTextContrast swatches customSwatches).
Proof.
  intros Hsw Hcu i v Hv.
  destruct (from_option Some (swatches !! 0%nat) (customSwatches !! 0%nat))
    as [bg|] eqn:Hbg.
  2: { rewrite fixTextContrast_no_background in Hv by done. by eapply Hcu. }
  rewrite (fixTextContrast_lookup _ _ bg) in Hv by done.
  destruct (decide (i < length swatches)%nat) as [Hlt|]; [|by eapply Hcu].
  destruct (fix_entry_cases swatches bg customSwatches i)
    as [Hsame|(current & fixed & H3 & Hcur & _ & Hloop & Hfix)].
  - rewrite Hsame in Hv. by eapply Hcu.
  - rewrite Hfix in Hv. injection Hv as <-.
    eapply repair_loop_well_formed; [|exact Hloop].
    apply rgb_of_hex_bytes. by eapply current_well_formed.
Qed.

Lemma fixTextContrast_well_formed_witness :
  Forall (fun s => well_formed s = true)
    ["#008A00"; "#111C33"; "#818CF8"; "#0A0A0A"]
  /\ map_Forall (fun _ v => well_formed v = true)
       (fixTextContrast ["#008A00"; "#111C33"; "#818CF8"; "#0A0A0A"] ∅).
Proof.
  assert (Forall (fun s => well_formed s = true)
            ["#008A00"; "#111C33"; "#818CF8"; "#0A0A0A"]) as Hsw
    by (repeat constructor).
  split; [exact Hsw|].
  apply (fixTextContrast_well_formed
           ["#008A00"; "#111C33"; "#818CF8"; "#0A0A0A"] ∅ Hsw).
  apply map_Forall_empty.
Defined.

(** ** The backgrounds on which the repair can act *)

Local Open Scope R_scope.

(** The gamma expansion is monotone on the channel bytes: the last byte of
    the linear branch is 10, the first of the power branch 11. *)
Lemma gamma_byte_mono (m n : Z) :
  (0 <= m <= n)%Z -> (n <= 255)%Z ->
  spec_gamma (IZR m / 255) <= spec_gamma (IZR n / 255).
Proof.
  intros [H0 Hmn] Hn.
  assert (IZR m <= IZR n) as Hle by (by apply IZR_le).
  assert (0 <= IZR m) as Hm0 by (by apply (IZR_le 0)).
  assert (IZR n <= 255) as Hn255 by (by apply IZR_le).
  unfold spec_gamma.
  destruct (Z_le_gt_dec n 10) as [Hn10|Hn10].
  - assert (IZR n <= 10) by (by apply IZR_le).
    rewrite !Rleb_true by lra. lra.
  - assert (11 <= IZR n) by (apply IZR_le; lia).
    rewrite (Rleb_false (IZR n / 255)) by lra.
    set (bn := (IZR n / 255 + 0.055) / 1.055).
    assert ((11 / 255 + 0.055) / 1.055 <= bn) as Hb11 by (unfold bn; lra).
    destruct (Z_le_gt_dec m 10) as [Hm10|Hm10].
    + assert (IZR m <= 10) by (by apply IZR_le).
      rewrite Rleb_true by lra.
      apply Rle_trans with 0.00304; [lra|].
      apply Rpower_2_4_lower; [lra|lra|].
      apply Rle_trans with (((11 / 255 + 0.055) / 1.055) ^ 12); [lra|].
      apply pow_incr. lra.
    + assert (11 <= IZR m) by (apply IZR_le; lia).
      rewrite Rleb_false by lra.
      unfold bn. apply Rle_Rpower_l; lra.
Qed.

Lemma spec_luminance_mono (r g b r' g' b' : Z) :
  (0 <= r <= r')%Z -> (0 <= g <= g')%Z -> (0 <= b <= b')%Z ->
  (r' <= 255)%Z -> (g' <= 255)%Z -> (b' <= 255)%Z ->
  spec_luminance r g b <= spec_luminance r' g' b'.
Proof.
  intros Hr Hg Hb Hr' Hg' Hb'. unfold spec_luminance.
  pose proof (gamma_byte_mono r r' Hr Hr').
  pose proof (gamma_byte_mono g g' Hg Hg').
  pose proof (gamma_byte_mono b b' Hb Hb').
  lra.
Qed.

Lemma div_lt (x y k : R) : 0 < y -> x < k * y -> x / y < k.
Proof.
  intros Hy H. apply Rmult_lt_reg_r with y; [done|].
  replace (x / y * y) with x by (field; lra). done.
Qed.

Lemma lt_div (x y k : R) : 0 < y -> x / y < k -> x < k * y.
Proof.
  intros Hy H. replace x with (x / y * y) by (field; lra).
  by apply Rmult_lt_compat_r.
Qed.

(** Darkening a colour on a background of luminance below 0.175 keeps the
    ratio below 4.5. *)
Lemma ratio_darker (L t t' : R) :
  -0.005 <= L < 0.175 -> 0 <= t' <= t ->
  (Rmax t L + 0.05) / (Rmin t L + 0.05) < 4.5 ->
  (Rmax t' L + 0.05) / (Rmin t' L + 0.05) < 4.5.
Proof.
  intros HL Ht H. apply lt_div in H.
  2: { unfold Rmin. destruct (Rle_dec t L); lra. }
  apply div_lt.
  { unfold Rmin. destruct (Rle_dec t' L); lra. }
  revert H. unfold Rmax, Rmin.
  destruct (Rle_dec t L), (Rle_dec t' L); lra.
Qed.

(** Lightening a colour on a background of luminance above 0.5 keeps the
    ratio below 4.5. *)
Lemma ratio_lighter (L t t' : R) :
  0.5 < L -> 0 <= t <= t' -> t' <= 1 ->
  (Rmax t L + 0.05) / (Rmin t L + 0.05) < 4.5 ->
  (Rmax t' L + 0.05) / (Rmin t' L + 0.05) < 4.5.
Proof.
  intros HL Ht Ht' H. apply lt_div in H.
  2: { unfold Rmin. destruct (Rle_dec t L); lra. }
  apply div_lt.
  { unfold Rmin. destruct (Rle_dec t' L); lra. }
  revert H. unfold Rmax, Rmin.
  destruct (Rle_dec t L), (Rle_dec t' L); lra.
Qed.

Lemma nge_AA_false_inv (x : R) : nge (Num x) AA = false -> x < 4.5.
Proof.
  unfold nge, nle, AA, ncmp. intros H.
  destruct (Rlt_le_dec x 4.5) as [|Hge]; [done|].
  by rewrite Rleb_true in H.
Qed.

(** A loop whose stepped colours all fail returns nothing. *)
Lemma repair_loop_invariant (Q : rgb -> Prop) (isDark : bool) (bg : string) :
  (forall c, Q c -> Q (step_rgb isDark c)) ->
  (forall c, Q c ->
     nge (contrastRatio (hex_of_rgb (step_rgb isDark c)) bg) AA = false) ->
  forall (n : nat) (c : rgb) (ratio : Number R),
    Q c -> repair_loop n isDark bg c ratio = None.
Proof.
  intros Hstep Hfail. induction n as [|n IH]; intros c ratio Hc; [done|].
  cbn [repair_loop]. destruct (nlt ratio AA); [|done]. cbv zeta.
  rewrite (Hfail c Hc). apply IH. by apply Hstep.
Qed.

Lemma bytes_luminance (r g b : Z) :
  (0 <= r <= 255)%Z -> (0 <= g <= 255)%Z -> (0 <= b <= 255)%Z ->
  luminance (hex_of_rgb (RGB (Num r) (Num g) (Num b)))
  = Num (spec_luminance r g b).
Proof. intros. apply hex_of_rgb_num; lia. Qed.

(** Outside the band of luminance from 0.175 to 0.5 the loop finds no
    replacement for a well-formed colour. *)
Lemma repair_outside_band (bg current : string) (L : R) :
  luminance bg = Num L -> L < 0.175 \/ 0.5 < L ->
  well_formed current = true ->
  nge (contrastRatio current bg) AA = false ->
  repair_loop 20 (ngt (luminance bg) (Num 0.5)) bg (rgb_of_hex current)
    (contrastRatio current bg) = None.
Proof.
  intros HL Hband Hwf Hfail.
  destruct (well_formed_channels current Hwf)
    as (r0 & g0 & b0 & (Hr0 & Hg0 & Hb0) & E1 & E2 & E3 & _ & Er & Eg & Eb).
  pose proof (luminance_channels current r0 g0 b0 E1 E2 E3) as Hcur.
  pose proof (luminance_lower bg L HL) as HLlow.
  rewrite (contrastRatio_max_min _ _ _ _ Hcur HL) in Hfail.
  apply nge_AA_false_inv in Hfail.
  pose proof (spec_luminance_range r0 g0 b0 Hr0 Hg0 Hb0) as Ht.
  unfold rgb_of_hex. rewrite Er, Eg, Eb. rewrite HL.
  destruct Hband as [Hdark|Hlight].
  - replace (ngt (Num L) (Num 0.5)) with false
      by (symmetry; apply Rltb_false; lra).
    apply (repair_loop_invariant
             (fun c => exists r g b, c = RGB (Num r) (Num g) (Num b)
                /\ (0 <= r <= r0)%Z /\ (0 <= g <= g0)%Z /\ (0 <= b <= b0)%Z)).
    + intros c (r & g & b & -> & Hr & Hg & Hb).
      exists (Z.max 0 (r - 12)), (Z.max 0 (g - 12)), (Z.max 0 (b - 12)).
      split; [reflexivity|lia].
    + intros c (r & g & b & -> & Hr & Hg & Hb).
      change (step_rgb false (RGB (Num r) (Num g) (Num b)))
        with (RGB (Num (Z.max 0 (r - 12))) (Num (Z.max 0 (g - 12)))
                  (Num (Z.max 0 (b - 12)))).
      rewrite (contrastRatio_max_min _ _ _ L
                 (bytes_luminance (Z.max 0 (r - 12)) (Z.max 0 (g - 12))
                    (Z.max 0 (b - 12)) ltac:(lia) ltac:(lia) ltac:(lia)) HL).
      apply nge_AA_num_false.
      apply (ratio_darker L (spec_luminance r0 g0 b0)); [lra| |done].
      split.
      * apply spec_luminance_range; lia.
      * apply spec_luminance_mono; lia.
    + exists r0, g0, b0. split; [reflexivity|lia].
  - replace (ngt (Num L) (Num 0.5)) with true
      by (symmetry; apply Rltb_true; lra).
    apply (repair_loop_invariant
             (fun c => exists r g b, c = RGB (Num r) (Num g) (Num b)
                /\ (r0 <= r <= 255)%Z /\ (g0 <= g <= 255)%Z
                /\ (b0 <= b <= 255)%Z)).
    + intros c (r & g & b & -> & Hr & Hg & Hb).
      exists (Z.min 255 (r + 12)), (Z.min 255 (g + 12)), (Z.min 255 (b + 12)).
      split; [reflexivity|lia].
    + intros c (r & g & b & -> & Hr & Hg & Hb).
      change (step_rgb true (RGB (Num r) (Num g) (Num b)))
        with (RGB (Num (Z.min 255 (r + 12))) (Num (Z.min 255 (g + 12)))
                  (Num (Z.min 255 (b + 12)))).
      rewrite (contrastRatio_max_min _ _ _ L
                 (bytes_luminance (Z.min 255 (r + 12)) (Z.min 255 (g + 12))
                    (Z.min 255 (b + 12)) ltac:(lia) ltac:(lia) ltac:(lia)) HL).
      apply nge_AA_num_false.
      apply (ratio_lighter L (spec_luminance r0 g0 b0)); [lra| | |done].
      * split; [lra|]. apply spec_luminance_mono; lia.
      * apply spec_luminance_range; lia.
    + exists r0, g0, b0. split; [reflexivity|lia].
Qed.

Local Close Scope R_scope.

(** The repair of one entry outside the band. *)
Lemma fix_entry_outside_band (swatches : list string) (bg : string) (L : R)
    (next : gmap nat string) (i : nat) :
  luminance bg = Num L -> (L < 0.175 \/ 0.5 < L)%R ->
  Forall (fun s => well_formed s = true) swatches ->
  map_Forall (fun _ v => well_formed v = true) next ->
  fix_entry swatches bg next i !! i = next !! i.
Proof.
  intros HL Hband Hsw Hcu.
  destruct (fix_entry_cases swatches bg next i)
    as [Hsame|(current & fixed & _ & Hcur & Hfail & Hloop & _)]; [done|].
  rewrite (repair_outside_band bg current L) in Hloop; try done.
  by eapply current_well_formed.
Qed.

(** X7. When the background has a luminance below 0.175 or above 0.5 and
    the swatches and overrides are well-formed colours, the repair returns
    the overrides as they are: on a dark background it only darkens, on a
    light one it only lightens, and neither reaches 4.5. *)
Theorem fixTextContrast_noop_outside_band (swatches : list string)
    (customSwatches : gmap nat string) (bg : string) (L : R) :
  from_option Some (swatches !! 0%nat) (customSwatches !! 0%nat) = Some bg ->
  luminance bg = Num L -> (L < 0.175 \/ 0.5 < L)%R ->
  Forall (fun s => well_formed s = true) swatches ->
  map_Forall (fun _ v => well_formed v = true) customSwatches ->
  fixTextContrast swatches customSwatches = customSwatches.
Proof.
  intros Hbg HL Hband Hsw Hcu. apply map_eq. intros i.
  rewrite (fixTextContrast_lookup _ _ bg) by done.
  destruct (decide (i < length swatches)%nat); [|done].
  by apply (fix_entry_outside_band swatches bg L).
Qed.

Lemma fixTextContrast_noop_outside_band_witness :
  luminance "#FFFFFF" = Num 1%R
  /\ fixTextContrast ["#FFFFFF"; "#111C33"; "#818CF8"; "#EEEEEE"]
       (<[3%nat := "#DDDDDD"]> ∅)
     = <[3%nat := "#DDDDDD"]> ∅.
Proof.
  split; [exact luminance_white|].
  apply (fixTextContrast_noop_outside_band
           ["#FFFFFF"; "#111C33"; "#818CF8"; "#EEEEEE"]
           (<[3%nat := "#DDDDDD"]> ∅) "#FFFFFF" 1%R).
  - reflexivity.
  - exact luminance_white.
  - right. lra.
  - repeat constructor.
  - apply map_Forall_insert_2; [reflexivity|apply map_Forall_empty].
Defined.

(** ** The built-in palettes and the swatch grid *)

Lemma palettes_well_formed (pal : Palette.PaletteData) :
  In pal Palette.PALETTES ->
  Forall (fun s => well_formed s = true) (Palette.base pal).
Proof.
  intros Hin.
  assert (forallb (fun p => forallb well_formed (Palette.base p))
            Palette.PALETTES = true) as Hall by (vm_compute; reflexivity).
  rewrite forallb_forall in Hall. specialize (Hall pal Hin).
  rewrite forallb_forall in Hall. apply Forall_forall. intros s Hs.
  apply Hall. by apply list_elem_of_In.
Qed.

Lemma channels_bytes (hex : string) :
  well_formed hex = true -> bytes (Palette.channels hex).
Proof.
  intros H.
  destruct (well_formed_channels hex H)
    as (r & g & b & (Hr & Hg & Hb) & E1 & E2 & E3 & _).
  exists r, g, b. unfold Palette.channels. by rewrite E1, E2, E3.
Qed.

Lemma lighter_well_formed (hex : string) :
  well_formed hex = true -> well_formed (Palette.lighter hex) = true.
Proof.
  intros H. destruct (channels_bytes hex H) as (r & g & b & E & Hr & Hg & Hb).
  unfold Palette.lighter. rewrite E. cbn [red green blue].
  apply hex_of_rgb_well_formed.
  exists (Z.min 255 (r + 40)), (Z.min 255 (g + 40)), (Z.min 255 (b + 40)).
  split; [reflexivity|lia].
Qed.

Lemma darker_well_formed (hex : string) :
  well_formed hex = true -> well_formed (Palette.darker hex) = true.
Proof.
  intros H. destruct (channels_bytes hex H) as (r & g & b & E & Hr & Hg & Hb).
  unfold Palette.darker. rewrite E. cbn [red green blue].
  apply hex_of_rgb_well_formed.
  exists (Z.max 0 (r - 30)), (Z.max 0 (g - 30)), (Z.max 0 (b - 30)).
  split; [reflexivity|lia].
Qed.

Lemma swatches_unfold (pal : Palette.PaletteData) :
  Palette.swatches pal
  = (Palette.base pal
     ++ flat_map (fun hex => [Palette.lighter hex; Palette.darker hex])
          (Palette.base pal))%list.
Proof. reflexivity. Qed.

Lemma swatches_all_well_formed (pal : Palette.PaletteData) :
  Forall (fun s => well_formed s = true) (Palette.base pal) ->
  Forall (fun s => well_formed s = true) (Palette.swatches pal).
Proof.
  intros Hb. rewrite swatches_unfold. apply Forall_app. split; [done|].
  apply Forall_forall. intros s Hs. apply list_elem_of_In, in_flat_map in Hs.
  destruct Hs as (hex & Hhex & Hs).
  assert (well_formed hex = true) as Hwf.
  { rewrite Forall_forall in Hb. by apply Hb, list_elem_of_In. }
  destruct Hs as [<-|[<-|[]]].
  - by apply lighter_well_formed.
  - by apply darker_well_formed.
Qed.

(** The variants of a colour written [#RRGGBB], on its channel bytes. *)
Lemma lighter_spec (hex : string) (r g b : Z) :
  spec_channels hex = Some (r, g, b) ->
  Palette.lighter hex
  = spec_colour (Z.min 255 (r + 40)) (Z.min 255 (g + 40)) (Z.min 255 (b + 40)).
Proof.
  intros H.
  destruct (spec_channels_parse _ _ _ _ H)
    as (_ & (Hr & Hg & Hb) & Pr & Pg & Pb & _).
  unfold Palette.lighter, Palette.channels. rewrite Pr, Pg, Pb.
  cbn [red green blue Math_min nlift2]. apply hex_of_rgb_spec; lia.
Qed.

Lemma darker_spec (hex : string) (r g b : Z) :
  spec_channels hex = Some (r, g, b) ->
  Palette.darker hex
  = spec_colour (Z.max 0 (r - 30)) (Z.max 0 (g - 30)) (Z.max 0 (b - 30)).
Proof.
  intros H.
  destruct (spec_channels_parse _ _ _ _ H)
    as (_ & (Hr & Hg & Hb) & Pr & Pg & Pb & _).
  unfold Palette.darker, Palette.channels. rewrite Pr, Pg, Pb.
  cbn [red green blue Math_max nlift2]. apply hex_of_rgb_spec; lia.
Qed.

Lemma swatches_variants (pal : Palette.PaletteData) (k : nat) (hex : string) :
  [Palette.bg pal; Palette.surface pal; Palette.accent pal; Palette.text pal;
   Palette.primary pal; Palette.secondary pal] !! k = Some hex ->
  Palette.swatches pal !! (6 + 2 * k)%nat = Some (Palette.lighter hex)
  /\ Palette.swatches pal !! (7 + 2 * k)%nat = Some (Palette.darker hex).
Proof.
  intros Hk. rewrite swatches_unfold.
  destruct k as [|[|[|[|[|[|k]]]]]]; cbn in Hk; try discriminate;
    injection Hk as <-; split; reflexivity.
Qed.

(** X8. The swatch grid of a palette has 18 entries: the six roles in
    order, then for the k-th role its lighter variant at index 6 + 2k and
    its darker variant at index 7 + 2k.  For a role written [#RRGGBB] with
    the channel bytes [r], [g] and [b], the lighter variant is the colour of
    the bytes [min(255, v + 40)] and the darker one that of the bytes
    [max(0, v - 30)], each printed as two lower-case digits; when the six
    roles are well-formed colours, so are all 18 swatches. *)
Theorem swatches_grid (pal : Palette.PaletteData) :
  length (Palette.swatches pal) = 18%nat
  /\ take 6 (Palette.swatches pal)
     = [Palette.bg pal; Palette.surface pal; Palette.accent pal;
        Palette.text pal; Palette.primary pal; Palette.secondary pal]
  /\ (forall (k : nat) (hex : string),
        Palette.base pal !! k = Some hex ->
        Palette.swatches pal !! (6 + 2 * k)%nat = Some (Palette.lighter hex)
        /\ Palette.swatches pal !! (7 + 2 * k)%nat = Some (Palette.darker hex))
  /\ (forall (k : nat) (hex : string) (r g b : Z),
        [Palette.bg pal; Palette.surface pal; Palette.accent pal;
         Palette.text pal; Palette.primary pal; Palette.secondary pal] !! k
        = Some hex ->
        spec_channels hex = Some (r, g, b) ->
        Palette.swatches pal !! (6 + 2 * k)%nat
        = Some (spec_colour (Z.min 255 (r + 40)) (Z.min 255 (g + 40))
                  (Z.min 255 (b + 40)))
        /\ Palette.swatches pal !! (7 + 2 * k)%nat
           = Some (spec_colour (Z.max 0 (r - 30)) (Z.max 0 (g - 30))
                     (Z.max 0 (b - 30))))
  /\ Palette.swatches
       (Palette.Data "Midnight" "#0B1220" "#111C33" "#818CF8" "#EAF0FF"
          "#818CF8" "#22C55E")
     = ["#0B1220"; "#111C33"; "#818CF8"; "#EAF0FF"; "#818CF8"; "#22C55E";
        "#333a48"; "#000002"; "#39445b"; "#000015"; "#a9b4ff"; "#636eda";
        "#ffffff"; "#ccd2e1"; "#a9b4ff"; "#636eda"; "#4aed86"; "#04a740"]
  /\ (Forall (fun s => well_formed s = true) (Palette.base pal) ->
      Forall (fun s => well_formed s = true) (Palette.swatches pal)).
Proof.
  split; [reflexivity|]. split; [reflexivity|]. split; [|split; [|split]].
  - intros k hex Hk. by apply swatches_variants.
  - intros k hex r g b Hk Hch.
    destruct (swatches_variants pal k hex Hk) as [-> ->].
    by rewrite (lighter_spec hex r g b Hch), (darker_spec hex r g b Hch).
  - reflexivity.
  - apply swatches_all_well_formed.
Qed.

Local Open Scope R_scope.

(** A colour whose channels are at most 47 has a luminance below 0.175. *)
Lemma dark_bytes (r g b : Z) :
  (0 <= r <= 47)%Z -> (0 <= g <= 47)%Z -> (0 <= b <= 47)%Z ->
  spec_luminance r g b < 0.175.
Proof.
  intros Hr Hg Hb.
  apply Rle_lt_trans with (spec_luminance 47 47 47).
  { apply spec_luminance_mono; lia. }
  unfold spec_luminance, spec_gamma.
  rewrite (Rleb_false (47 / 255)) by lra.
  set (x := (47 / 255 + 0.055) / 1.055).
  assert (0 < x) by (unfold x; lra).
  pose proof (Rpower_2_4_upper x 0.03 ltac:(done) ltac:(lra)
                ltac:(unfold x; lra)).
  lra.
Qed.

Lemma palettes_dark (pal : Palette.PaletteData) :
  In pal Palette.PALETTES ->
  exists L, luminance (Palette.bg pal) = Num L /\ L < 0.175.
Proof.
  intros Hin. cbn in Hin.
  repeat (destruct Hin as [<-|Hin]);
    [ exists (spec_luminance 11 18 32) | exists (spec_luminance 10 25 47)
    | exists (spec_luminance 26 20 35) | exists (spec_luminance 13 27 14)
    | exists (spec_luminance 24 24 27) | exists (spec_luminance 31 18 38) | done ];
    (split; [by apply luminance_channels | apply dark_bytes; lia]).
Qed.

Local Close Scope R_scope.

(** X9. On the swatch grid of each of the six built-in palettes, whose
    backgrounds are dark, the repair changes nothing: whatever well-formed
    overrides the text and accent roles have, the map comes back as it was,
    as long as the background itself is not overridden. *)
Theorem fixTextContrast_noop_on_palettes (pal : Palette.PaletteData)
    (customSwatches : gmap nat string) :
  In pal Palette.PALETTES ->
  customSwatches !! 0%nat = None ->
  map_Forall (fun _ v => well_formed v = true) customSwatches ->
  fixTextContrast (Palette.swatches pal) customSwatches = customSwatches.
Proof.
  intros Hin H0 Hcu.
  destruct (palettes_dark pal Hin) as (L & HL & Hdark).
  assert (from_option Some (Palette.swatches pal !! 0%nat)
            (customSwatches !! 0%nat) = Some (Palette.bg pal)) as Hbg
    by (by rewrite H0).
  apply map_eq. intros i.
  rewrite (fixTextContrast_lookup _ _ (Palette.bg pal)) by done.
  destruct (decide (i < length (Palette.swatches pal))%nat); [|done].
  apply (fix_entry_outside_band _ _ L); try done; [by left|].
  by apply swatches_all_well_formed, palettes_well_formed.
Qed.

Lemma fixTextContrast_noop_on_palettes_witness :
  fixTextContrast
    (Palette.swatches
       (Palette.Data "Midnight" "#0B1220" "#111C33" "#818CF8" "#EAF0FF"
          "#818CF8" "#22C55E"))
    (<[3%nat := "#0A0A0A"]> ∅)
  = <[3%nat := "#0A0A0A"]> ∅.
Proof.
  apply (fixTextContrast_noop_on_palettes
           (Palette.Data "Midnight" "#0B1220" "#111C33" "#818CF8" "#EAF0FF"
              "#818CF8" "#22C55E")).
  - left. reflexivity.
  - reflexivity.
  - apply map_Forall_insert_2; [reflexivity|apply map_Forall_empty].
Defined.

(** ** What is exported and what is displayed *)

Lemma rescan_lookup (prev : gmap nat string) (i : nat) :
  Editor.rescan prev !! i = if decide (i < 6)%nat then prev !! i else None.
Proof.
  unfold Editor.rescan. destruct (decide (i < 6)%nat) as [Hlt|Hge].
  - destruct (prev !! i) as [v|] eqn:Hv.
    + by apply map_lookup_filter_Some.
    + apply map_lookup_filter_None. left. done.
  - apply map_lookup_filter_None. right. intros v _. done.
Qed.

Lemma buildExportColors_ext (swatches : list string)
    (c1 c2 : gmap nat string) (roleNames : list string) :
  (forall i, (i < length swatches)%nat -> c1 !! i = c2 !! i) ->
  Palette.buildExportColors swatches c1 roleNames
  = Palette.buildExportColors swatches c2 roleNames.
Proof.
  intros H. unfold Palette.buildExportColors. apply imap_ext.
  intros i c Hc. cbn. rewrite H; [done|]. by eapply lookup_lt_Some.
Qed.

(** X10. Rescan, which drops the overrides at indices from 6 on, changes
    neither the exported colours nor the displayed palette, and a second
    rescan changes nothing. *)
Theorem rescan_keeps_export (pal : Palette.PaletteData)
    (swatches : list string) (customSwatches : gmap nat string) :
  Palette.getExportColors swatches (Editor.rescan customSwatches)
    = Palette.getExportColors swatches customSwatches
  /\ Palette.displayPal pal (Editor.rescan customSwatches)
     = Palette.displayPal pal customSwatches
  /\ Editor.rescan (Editor.rescan customSwatches) = Editor.rescan customSwatches.
Proof.
  split; [|split].
  - apply buildExportColors_ext. intros i Hi. rewrite rescan_lookup.
    rewrite length_take in Hi. rewrite decide_True; [done|lia].
  - unfold Palette.displayPal. by rewrite !rescan_lookup.
  - apply map_eq. intros i. rewrite !rescan_lookup.
    by destruct (decide (i < 6)%nat).
Qed.

Lemma buildExportColors_lookup (swatches : list string)
    (customSwatches : gmap nat string) (roleNames : list string)
    (i : nat) (c : string) :
  swatches !! i = Some c ->
  Palette.buildExportColors swatches customSwatches roleNames !! i
  = Some (Color (default ("--color-" ++ JS.toStringRadix 10 (Num (Z.of_nat i)))
                   (roleNames !! i))
                (default c (customSwatches !! i))).
Proof.
  intros H. unfold Palette.buildExportColors.
  by rewrite list_lookup_imap, H.
Qed.

Lemma truthy_nonempty (v : option string) :
  v <> Some "" -> Palette.truthy v = v.
Proof. by destruct v as [[|? ?]|]. Qed.

(** X11. On the swatch grid of a palette the exported colours carry the six
    role names in order, and, when no override of a role is the empty
    string, their values are the six colours of the displayed palette. *)
Theorem export_matches_display (pal : Palette.PaletteData)
    (customSwatches : gmap nat string) :
  (forall i : nat, (i < 6)%nat -> customSwatches !! i <> Some "") ->
  List.map name (Palette.getExportColors (Palette.swatches pal) customSwatches)
    = Palette.ROLE_NAMES
  /\ List.map value
       (Palette.getExportColors (Palette.swatches pal) customSwatches)
     = Palette.base (Palette.displayPal pal customSwatches).
Proof.
  intros H. split; [reflexivity|].
  unfold Palette.getExportColors, Palette.buildExportColors, Palette.displayPal,
    Palette.base.
  cbn [take Palette.swatches Palette.base app imap List.map value
       Palette.bg Palette.surface Palette.accent Palette.text Palette.primary
       Palette.secondary].
  rewrite !truthy_nonempty by (apply H; lia). reflexivity.
Qed.

Lemma export_matches_display_witness :
  List.map value
    (Palette.getExportColors
       (Palette.swatches
          (Palette.Data "Midnight" "#0B1220" "#111C33" "#818CF8" "#EAF0FF"
             "#818CF8" "#22C55E"))
       (<[2%nat := "#FF0000"]> ∅))
  = ["#0B1220"; "#111C33"; "#FF0000"; "#EAF0FF"; "#818CF8"; "#22C55E"].
Proof.
  refine (proj2 (export_matches_display
                   (Palette.Data "Midnight" "#0B1220" "#111C33" "#818CF8"
                      "#EAF0FF" "#818CF8" "#22C55E")
                   (<[2%nat := "#FF0000"]> ∅) _)).
  intros i Hi Heq.
  apply lookup_insert_Some in Heq as [[_ Heq]|[_ Heq]]; [discriminate|].
  by rewrite lookup_empty in Heq.
Defined.

(** X12. Each handler that writes the overrides keeps them well-formed: the
    hex field and the apply button, the paste box, the import and the
    rescan. *)
Theorem handlers_keep_well_formed (s : gmap nat string)
    (selectedSwatch : option nat) (v raw : string) (st : PaletteImport.state) :
  map_Forall (fun _ v => well_formed v = true) s ->
  map_Forall (fun _ v => well_formed v = true)
    (PaletteImport.customSwatches st) ->
  map_Forall (fun _ v => well_formed v = true) (Editor.applyHex selectedSwatch v s)
  /\ map_Forall (fun _ v => well_formed v = true) (Editor.pastePalette raw s)
  /\ map_Forall (fun _ v => well_formed v = true) (Editor.rescan s)
  /\ map_Forall (fun _ v => well_formed v = true)
       (PaletteImport.customSwatches (PaletteImport.applyImportText raw st)).
Proof.
  intros Hs Hst.
  assert (map_Forall (fun (_ : nat) v => well_formed v = true)
            (map_seq 0 (take 6 (PaletteImport.match_hexes raw))
               : gmap nat string)) as Hseq.
  { intros i h Hi. apply lookup_map_seq_Some in Hi as [_ Hi].
    apply lookup_take_Some in Hi as [Hi _].
    pose proof (scan_well_formed raw 0) as Hall.
    rewrite Forall_lookup in Hall. by eapply Hall. }
  split; [|split; [|split]].
  - unfold Editor.applyHex. destruct selectedSwatch as [i|]; [|done].
    destruct (well_formed v) eqn:Hv; [|done].
    by apply map_Forall_insert_2.
  - unfold Editor.pastePalette. by destruct (2 <=? _)%nat.
  - intros i h Hi. rewrite rescan_lookup in Hi.
    destruct (decide (i < 6)%nat); [|done]. by eapply Hs.
  - unfold PaletteImport.applyImportText. by destruct (_ <? 2)%nat.
Qed.

Lemma handlers_keep_well_formed_witness :
  map_Forall (fun _ v => well_formed v = true)
    (Editor.applyHex (Some 1%nat) "#ffffff" (<[0%nat := "#000000"]> ∅))
  /\ map_Forall (fun _ v => well_formed v = true)
       (Editor.pastePalette "#111111 #222222" (<[0%nat := "#000000"]> ∅))
  /\ map_Forall (fun _ v => well_formed v = true)
       (Editor.rescan (<[0%nat := "#000000"]> ∅))
  /\ map_Forall (fun _ v => well_formed v = true)
       (PaletteImport.customSwatches
          (PaletteImport.applyImportText "#111111 #222222"
             (PaletteImport.State ∅ true "#818CF8" true
                PaletteImport.clipboard "x"))).
Proof.
  apply (handlers_keep_well_formed (<[0%nat := "#000000"]> ∅) (Some 1%nat)
           "#ffffff" "#111111 #222222"
           (PaletteImport.State ∅ true "#818CF8" true PaletteImport.clipboard
              "x")).
  - apply map_Forall_insert_2; [reflexivity|apply map_Forall_empty].
  - apply map_Forall_empty.
Defined.

(** ** Importing what was exported *)

Lemma list_ascii_app (a b : string) :
  list_ascii_of_string (a ++ b)
  = (list_ascii_of_string a ++ list_ascii_of_string b)%list.
Proof.
  induction a as [|c a IH]; [by rewrite append_Empty|].
  rewrite append_String. cbn. by rewrite IH.
Qed.

Lemma hashless_app (a b : string) :
  hashless a -> hashless b -> hashless (a ++ b).
Proof.
  unfold hashless. rewrite list_ascii_app. intros. by apply Forall_app.
Qed.

Lemma hashless_app_inv (a b : string) :
  hashless (a ++ b) -> hashless a /\ hashless b.
Proof. unfold hashless. rewrite list_ascii_app. by apply Forall_app. Qed.

Lemma hashless_b_spec (s : string) : hashless_b s = true -> hashless s.
Proof.
  unfold hashless_b, hashless. rewrite forallb_forall, Forall_forall.
  intros H c Hc. apply list_elem_of_In, H in Hc.
  apply negb_true_iff in Hc. by apply Ascii.eqb_neq.
Qed.

Lemma match_hexes_skip (pre rest : string) :
  hashless pre ->
  PaletteImport.match_hexes (pre ++ rest) = PaletteImport.match_hexes rest.
Proof.
  unfold hashless, PaletteImport.match_hexes.
  induction pre as [|c pre IH]; intros Hpre; [by rewrite append_Empty|].
  simpl in Hpre. apply Forall_cons in Hpre as [Hc Hpre].
  rewrite append_String. cbn [PaletteImport.scan].
  unfold PaletteImport.matches_here at 1.
  replace (Ascii.eqb c "#") with false by (symmetry; by apply Ascii.eqb_neq).
  cbn [andb]. by apply IH.
Qed.

Lemma match_hexes_hashless (s : string) :
  hashless s -> PaletteImport.match_hexes s = [].
Proof.
  intros H. rewrite <- (append_nil_r s). by rewrite match_hexes_skip.
Qed.

(** Lines that each hold one well-formed colour between two texts without
    [#] are read back as the list of their colours. *)
Lemma match_hexes_lines {A} (pre post : A -> string) (val : A -> string)
    (l : list A) (tail : string) :
  Forall (fun x => hashless (pre x) /\ well_formed (val x) = true
                   /\ hashless (post x)) l ->
  hashless tail ->
  PaletteImport.match_hexes
    (String.concat "" (List.map (fun x => pre x ++ val x ++ post x) l) ++ tail)
  = List.map val l.
Proof.
  intros Hl Htail. induction Hl as [|x l (Hpre & Hval & Hpost) Hl IH].
  - cbn. rewrite append_Empty. by apply match_hexes_hashless.
  - assert (String.concat "" (List.map (fun x => pre x ++ val x ++ post x) (x :: l))
            = (pre x ++ val x ++ post x)
                ++ String.concat "" (List.map (fun x => pre x ++ val x ++ post x) l))
      as ->.
    { cbn [List.map String.concat]. destruct (List.map _ l) eqn:E.
      - cbn. by rewrite append_nil_r.
      - by rewrite append_Empty. }
    rewrite !append_assoc. rewrite match_hexes_prefix by done.
    rewrite match_hexes_skip by done. cbn [List.map]. by rewrite IH.
Qed.

(** The accumulation [out += line] over a list. *)
Lemma foldl_out {A} (f : A -> string) (l : list A) (init : string) :
  foldl (fun out x => out ++ f x) init l
  = init ++ String.concat "" (List.map f l).
Proof.
  revert init. induction l as [|x l IH]; intros init.
  - cbn. by rewrite append_nil_r.
  - cbn [foldl List.map]. rewrite IH, append_assoc. f_equal.
    cbn [String.concat]. destruct (List.map f l) eqn:E.
    + cbn. by rewrite append_nil_r.
    + by rewrite append_Empty.
Qed.

Lemma css_name_hashless (n : string) :
  hashless n -> hashless (TextExport.css_name n).
Proof.
  intros H. unfold TextExport.css_name.
  destruct (TextExport.starts_with_dashes n); [done|].
  apply hashless_app; [by apply hashless_b_spec|done].
Qed.

Lemma token_key_hashless (n : string) :
  hashless n -> hashless (TextExport.token_key n).
Proof.
  intros H. unfold TextExport.token_key.
  destruct n as [|a [|b rest]]; try done.
  destruct (_ && _); [|done].
  unfold hashless in *. cbn in H.
  by apply Forall_cons in H as [_ [_ H]%Forall_cons].
Qed.

(** X13. The CSS export of colours whose names hold no [#] and whose values
    are well-formed is read back by the import's pattern as the list of
    their values, in order. *)
Theorem exportToCSS_reimport (colors : list ExportColor) :
  Forall (fun c => hashless (name c) /\ well_formed (value c) = true) colors ->
  PaletteImport.match_hexes (TextExport.exportToCSS colors)
  = List.map value colors.
Proof.
  intros H. unfold TextExport.exportToCSS. rewrite foldl_out.
  rewrite append_assoc. rewrite match_hexes_skip by (by apply hashless_b_spec).
  unfold TextExport.css_line.
  rewrite (List.map_ext _
             (fun c => ("  " ++ TextExport.css_name (name c) ++ ": ")
                         ++ value c ++ (";" ++ String JS.LF "")))
    by (intros c; by rewrite !append_assoc).
  apply (match_hexes_lines _ (fun _ => ";" ++ String JS.LF "") value).
  - eapply Forall_impl; [exact H|]. intros c [Hn Hv]. split; [|split].
    + apply hashless_app; [by apply hashless_b_spec|].
      apply hashless_app; [by apply css_name_hashless|by apply hashless_b_spec].
    + done.
    + by apply hashless_b_spec.
  - by apply hashless_b_spec.
Qed.

Lemma exportToCSS_reimport_witness :
  PaletteImport.match_hexes
    (TextExport.exportToCSS
       [Color "--color-bg" "#0B1220"; Color "accent" "#818CF8"])
  = ["#0B1220"; "#818CF8"].
Proof.
  apply (exportToCSS_reimport
           [Color "--color-bg" "#0B1220"; Color "accent" "#818CF8"]).
  repeat (apply Forall_cons; split;
            [split; [by apply hashless_b_spec|reflexivity]|]).
  apply Forall_nil_2.
Defined.

(** X14. The Tailwind export of such colours is read back in the same
    way. *)
Theorem exportToTailwind_reimport (colors : list ExportColor) :
  Forall (fun c => hashless (name c) /\ well_formed (value c) = true) colors ->
  PaletteImport.match_hexes (TextExport.exportToTailwind colors)
  = List.map value colors.
Proof.
  intros H. unfold TextExport.exportToTailwind. rewrite foldl_out.
  rewrite append_assoc. rewrite match_hexes_skip by (by apply hashless_b_spec).
  unfold TextExport.tailwind_line.
  rewrite (List.map_ext _
             (fun c => ("        " ++ String JS.DQ (TextExport.token_key (name c))
                          ++ String JS.DQ ": '")
                         ++ value c ++ ("'," ++ String JS.LF "")))
    by (intros c; by rewrite !append_assoc).
  apply (match_hexes_lines _ (fun _ => "'," ++ String JS.LF "") value).
  - eapply Forall_impl; [exact H|]. intros c [Hn Hv]. split; [|split].
    + apply hashless_app; [by apply hashless_b_spec|].
      change (String JS.DQ (TextExport.token_key (name c)))
        with (String JS.DQ "" ++ TextExport.token_key (name c)).
      rewrite append_assoc.
      apply hashless_app; [by apply hashless_b_spec|].
      apply hashless_app; [by apply token_key_hashless|by apply hashless_b_spec].
    + done.
    + by apply hashless_b_spec.
  - by apply hashless_b_spec.
Qed.

Lemma exportToTailwind_reimport_witness :
  PaletteImport.match_hexes
    (TextExport.exportToTailwind
       [Color "--color-bg" "#0B1220"; Color "accent" "#818CF8"])
  = ["#0B1220"; "#818CF8"].
Proof.
  apply (exportToTailwind_reimport
           [Color "--color-bg" "#0B1220"; Color "accent" "#818CF8"]).
  repeat (apply Forall_cons; split;
            [split; [by apply hashless_b_spec|reflexivity]|]).
  apply Forall_nil_2.
Defined.

(** ** The objects built by the JSON exports *)

Lemma define_map (o : PaletteLive.object) (k v : string) :
  (list_to_map (PaletteLive.define o k v) : gmap string string)
  = <[k := v]> (list_to_map o).
Proof.
  induction o as [|[k' v'] o IH]; [done|].
  cbn [PaletteLive.define]. destruct (String.eqb k' k) eqn:E.
  - apply String.eqb_eq in E as ->. cbn [list_to_map foldr].
    by rewrite insert_insert_eq.
  - apply String.eqb_neq in E.
    change (list_to_map ((k', v') :: PaletteLive.define o k v) : gmap string string)
      with (<[k' := v']> (list_to_map (PaletteLive.define o k v) : gmap string string)).
    rewrite IH.
    change (list_to_map ((k', v') :: o) : gmap string string)
      with (<[k' := v']> (list_to_map o : gmap string string)).
    apply insert_insert_ne. congruence.
Qed.

Lemma define_keys (o : PaletteLive.object) (k v : string) :
  List.map fst (PaletteLive.define o k v)
  = if decide (k ∈ List.map fst o) then List.map fst o
    else (List.map fst o ++ [k])%list.
Proof.
  induction o as [|[k' v'] o IH].
  - cbn. rewrite decide_False; [done|]. by intros ?%elem_of_nil.
  - cbn [PaletteLive.define]. destruct (String.eqb k' k) eqn:E.
    + apply String.eqb_eq in E as ->. cbn [List.map fst].
      rewrite decide_True; [done|]. by left.
    + apply String.eqb_neq in E. cbn [List.map fst]. rewrite IH.
      destruct (decide (k ∈ List.map fst o)) as [Hin|Hnin].
      * rewrite decide_True; [done|]. by right.
      * rewrite decide_False; [done|].
        intros [->|?]%elem_of_cons; done.
Qed.

Lemma define_NoDup (o : PaletteLive.object) (k v : string) :
  NoDup (List.map fst o) -> NoDup (List.map fst (PaletteLive.define o k v)).
Proof.
  intros H. rewrite define_keys.
  destruct (decide (k ∈ List.map fst o)); [done|].
  apply NoDup_app. split; [done|]. split.
  - intros x Hx ->%list_elem_of_singleton. done.
  - apply NoDup_singleton.
Qed.

Lemma foldl_insert_reverse (l : list (string * string))
    (g : gmap string string) :
  foldl (fun g p => <[fst p := snd p]> g) g l = list_to_map (reverse l) ∪ g.
Proof.
  revert g. induction l as [|[k v] l IH]; intros g.
  - cbn. by rewrite (left_id_L ∅ (∪)).
  - cbn [foldl fst snd]. rewrite IH, reverse_cons, list_to_map_app.
    rewrite <- (assoc_L (∪)). f_equal. cbn [list_to_map foldr].
    by rewrite insert_union_singleton_l.
Qed.

(** The pairs that the assignments let through. *)
Lemma assign_fold (key : ExportColor -> string) (colors : list ExportColor)
    (acc : PaletteLive.object) :
  NoDup (List.map fst acc) ->
  NoDup (List.map fst
           (foldl (fun o c => PaletteLive.assign o (key c) (value c)) acc colors))
  /\ (list_to_map
        (foldl (fun o c => PaletteLive.assign o (key c) (value c)) acc colors)
       : gmap string string)
     = foldl (fun g p => <[fst p := snd p]> g) (list_to_map acc)
         (List.filter (fun p => negb (String.eqb (fst p) "__proto__"))
            (List.map (fun c => (key c, value c)) colors)).
Proof.
  revert acc. induction colors as [|c colors IH]; intros acc Hacc; [done|].
  cbn [foldl List.map List.filter fst]. unfold PaletteLive.assign at 2 4.
  destruct (String.eqb (key c) "__proto__"); cbn [negb].
  - by apply IH.
  - cbn [foldl fst snd]. rewrite <- define_map.
    apply IH. by apply define_NoDup.
Qed.

(** The map of the object that [JSON.stringify] writes for an object with
    distinct keys. *)
Lemma colour_map_own_properties (o : PaletteLive.object) :
  NoDup (List.map fst o) ->
  PaletteLive.colour_map
    (JSON.JObject (List.map (fun p => (fst p, JSON.JString (snd p)))
                     (PaletteLive.own_properties o)))
  = Some (list_to_map o).
Proof.
  intros Hnd. pose proof (own_properties_perm o) as Hperm.
  assert (NoDup (List.map fst (PaletteLive.own_properties o))) as Hnd'
    by (by rewrite (Permutation_map fst Hperm)).
  rewrite colour_map_object by done. f_equal. by apply list_to_map_proper.
Qed.

(** X15. Whatever the list of colours, the text of [exportToPaletteLive]
    parses to the record with version 1.0 and format palettelive whose
    overrides map each name other than [__proto__] to the value of the last
    colour with that name. *)
Theorem exportToPaletteLive_last_wins (colors : list ExportColor) :
  exists overrides,
    JSON.parse (PaletteLive.exportToPaletteLive colors)
    = Some (JSON.JObject [ ("version", JSON.JString "1.0");
                           ("format", JSON.JString "palettelive");
                           ("overrides", overrides) ])
    /\ PaletteLive.colour_map overrides
       = Some (list_to_map
                 (reverse
                    (List.filter
                       (fun p => negb (String.eqb (fst p) "__proto__"))
                       (PaletteLive.pairs colors)))).
Proof.
  eexists. split.
  - unfold PaletteLive.exportToPaletteLive. rewrite parse_stringify.
    reflexivity.
  - destruct (assign_fold name colors [] (NoDup_nil_2 (A := string))) as [Hnd Hmap].
    rewrite colour_map_own_properties by exact Hnd. f_equal.
    unfold PaletteLive.overrides_of. rewrite Hmap, foldl_insert_reverse.
    exact (right_id_L ∅ (∪) _).
Qed.

(** X16. Whatever the list of colours, the text of [exportToJSON] parses to
    an object that maps each key, the name without a leading [--], other
    than [__proto__] to the value of the last colour with that key. *)
Theorem exportToJSON_last_wins (colors : list ExportColor) :
  exists tokens,
    JSON.parse (TextExport.exportToJSON colors) = Some tokens
    /\ PaletteLive.colour_map tokens
       = Some (list_to_map
                 (reverse
                    (List.filter
                       (fun p => negb (String.eqb (fst p) "__proto__"))
                       (List.map
                          (fun c => (TextExport.token_key (name c), value c))
                          colors)))).
Proof.
  eexists. split.
  - unfold TextExport.exportToJSON. by rewrite parse_stringify.
  - destruct (assign_fold (fun c => TextExport.token_key (name c)) colors []
                (NoDup_nil_2 (A := string))) as [Hnd Hmap].
    rewrite colour_map_own_properties by exact Hnd. f_equal.
    unfold TextExport.tokens_of. rewrite Hmap, foldl_insert_reverse.
    exact (right_id_L ∅ (∪) _).
Qed.

(** ** Importing a JSON export *)

Lemma escape_hashless (c : ascii) :
  c <> "#"%char -> hashless (JSON.escape c).
Proof.
  intros Hc. apply hashless_b_spec.
  assert (forallb (fun n => let c := ascii_of_nat n in
                            Ascii.eqb c "#"%char || hashless_b (JSON.escape c))
            (seq 0 256) = true) as Hall by (vm_compute; reflexivity).
  rewrite forallb_forall in Hall.
  specialize (Hall (nat_of_ascii c)). cbv zeta in Hall.
  rewrite ascii_nat_embedding in Hall.
  apply Ascii.eqb_neq in Hc. rewrite Hc in Hall. apply Hall.
  apply in_seq. pose proof (nat_ascii_bounded c). lia.
Qed.

Lemma escape_all_hashless (s : string) :
  hashless s -> hashless (JSON.escape_all s).
Proof.
  unfold hashless at 1. induction s as [|c s IH]; intros H; [done|].
  cbn in H. apply Forall_cons in H as [Hc H]. cbn [JSON.escape_all].
  apply hashless_app; [by apply escape_hashless|by apply IH].
Qed.

Lemma escape_hex (c : ascii) :
  JS.is_hex c = true -> JSON.escape c = String c "".
Proof.
  intros H. apply is_hex_digit in H as [d Hd]. apply hex_digit_spec in Hd.
  unfold JSON.escape. cbv zeta.
  destruct Hd as [[H _]|[[H _]|[H _]]]; zbool; reflexivity.
Qed.

Lemma escape_all_well_formed (v : string) :
  well_formed v = true -> JSON.escape_all v = v.
Proof.
  intros H.
  apply well_formed_inv in H as (c1&c2&c3&c4&c5&c6&->&H1&H2&H3&H4&H5&H6).
  cbn [JSON.escape_all].
  rewrite (escape_hex c1), (escape_hex c2), (escape_hex c3), (escape_hex c4),
    (escape_hex c5), (escape_hex c6) by done.
  reflexivity.
Qed.

(** One member [ "key": "#rrggbb" ] followed by any text. *)
Lemma member_reimport (k v rest : string) :
  hashless k -> well_formed v = true ->
  PaletteImport.match_hexes
    ((JSON.quote k ++ ": " ++ JSON.quote v) ++ rest)
  = v :: PaletteImport.match_hexes (String JS.DQ rest).
Proof.
  intros Hk Hv. unfold JSON.quote. rewrite (escape_all_well_formed v Hv).
  assert ((String JS.DQ (JSON.escape_all k ++ String JS.DQ "")
             ++ ": " ++ String JS.DQ (v ++ String JS.DQ "")) ++ rest
          = (String JS.DQ (JSON.escape_all k ++ String JS.DQ "") ++ ": "
               ++ String JS.DQ "")
              ++ v ++ String JS.DQ rest) as ->.
  { autorewrite with text. reflexivity. }
  apply match_hexes_prefix; [|done].
  change (String JS.DQ (JSON.escape_all k ++ String JS.DQ ""))
    with (String JS.DQ "" ++ (JSON.escape_all k ++ String JS.DQ "")).
  repeat apply hashless_app; try (by apply hashless_b_spec).
  by apply escape_all_hashless.
Qed.

Lemma members_reimport (sep tail : string) (m : string * string)
    (l : list (string * string)) :
  hashless sep -> hashless tail ->
  Forall (fun p => hashless (fst p) /\ well_formed (snd p) = true) (m :: l) ->
  PaletteImport.match_hexes
    (JS.join sep
       (List.map (fun p => JSON.quote (fst p) ++ ": " ++ JSON.quote (snd p))
          (m :: l)) ++ tail)
  = List.map snd (m :: l).
Proof.
  intros Hsep Htail. revert m. induction l as [|m' l IH]; intros m Hall.
  - apply Forall_cons in Hall as [[Hk Hv] _].
    rewrite join_map_single. cbv beta. rewrite member_reimport by done.
    cbn [List.map]. f_equal. apply match_hexes_hashless.
    change (String JS.DQ tail) with (String JS.DQ "" ++ tail).
    apply hashless_app; [by apply hashless_b_spec|done].
  - apply Forall_cons in Hall as [[Hk Hv] Hall].
    rewrite join_map_cons. cbv beta.
    rewrite (append_assoc (JSON.quote (fst m) ++ ": " ++ JSON.quote (snd m))).
    rewrite member_reimport by done.
    cbn [List.map]. f_equal.
    match goal with
    | |- PaletteImport.match_hexes (String JS.DQ ?x) = _ =>
        change (String JS.DQ x) with (String JS.DQ "" ++ x)
    end.
    rewrite match_hexes_skip by (by apply hashless_b_spec).
    rewrite append_assoc, match_hexes_skip by done.
    by apply IH.
Qed.

(** The text of an object of colours, below any indentation of spaces. *)
Lemma object_reimport (indent tail : string) (l : list (string * string)) :
  hashless indent -> hashless tail ->
  Forall (fun p => hashless (fst p) /\ well_formed (snd p) = true) l ->
  PaletteImport.match_hexes
    (JSON.stringify indent
       (JSON.JObject (List.map (fun p => (fst p, JSON.JString (snd p))) l))
     ++ tail)
  = List.map snd l.
Proof.
  intros Hind Htail Hall. destruct l as [|m l].
  - cbn [List.map JSON.stringify]. apply match_hexes_hashless.
    apply hashless_app; [by apply hashless_b_spec|done].
  - cbn [List.map]. rewrite stringify_object.
    rewrite <- (List.map_cons (fun p => (fst p, JSON.JString (snd p)))).
    rewrite List.map_map. cbn [fst snd JSON.stringify].
    assert (hashless (String JS.LF (indent ++ "  "))) as Hinner.
    { change (String JS.LF (indent ++ "  "))
        with (String JS.LF "" ++ (indent ++ "  ")).
      apply hashless_app; [by apply hashless_b_spec|].
      apply hashless_app; [done|by apply hashless_b_spec]. }
    rewrite !append_assoc.
    rewrite match_hexes_skip by (by apply hashless_b_spec).
    rewrite match_hexes_skip by done.
    apply members_reimport; [| |done].
    + change ("," ++ String JS.LF (indent ++ "  "))
        with ("," ++ (String JS.LF (indent ++ "  "))).
      apply hashless_app; [by apply hashless_b_spec|done].
    + change (String JS.LF indent) with (String JS.LF "" ++ indent).
      rewrite !append_assoc.
      repeat apply hashless_app; try done; by apply hashless_b_spec.
Qed.

(** An object without index keys keeps its creation order. *)
Lemma own_properties_named (o : PaletteLive.object) :
  Forall (fun p => PaletteLive.array_index (fst p) = None) o ->
  PaletteLive.own_properties o = o.
Proof.
  intros H. unfold PaletteLive.own_properties, PaletteLive.named.
  assert (PaletteLive.indexed o = []) as ->.
  { induction H as [|[k v] o Hk H IH]; [done|].
    cbn [PaletteLive.indexed fst] in *. by rewrite Hk. }
  cbn [List.map app].
  induction H as [|[k v] o Hk H IH]; [done|].
  cbn [List.filter fst] in *. rewrite Hk. by rewrite IH.
Qed.

Lemma tokens_of_pairs (key : ExportColor -> string)
    (colors : list ExportColor) :
  NoDup (List.map key colors) ->
  "__proto__" ∉ List.map key colors ->
  foldl (fun o c => PaletteLive.assign o (key c) (value c)) [] colors
  = List.map (fun c => (key c, value c)) colors.
Proof.
  intros Hnd Hproto.
  pose (cs := List.map (fun c => Color (key c) (value c)) colors).
  assert (List.map name cs = List.map key colors) as Hnames.
  { unfold cs. rewrite List.map_map. by apply List.map_ext. }
  assert (foldl (fun o c => PaletteLive.assign o (key c) (value c)) [] colors
          = PaletteLive.overrides_of cs) as ->.
  { unfold PaletteLive.overrides_of, cs. clear.
    generalize ([] : PaletteLive.object).
    induction colors as [|c colors IH]; intros acc; [done|].
    cbn [foldl List.map name value]. apply IH. }
  rewrite overrides_of_pairs by (by rewrite Hnames).
  unfold PaletteLive.pairs, cs. rewrite List.map_map. by apply List.map_ext.
Qed.

(** X17. The JSON export of colours whose keys are distinct, are no array
    index and are not [__proto__], whose names hold no [#] and whose values
    are well-formed, is read back by the import's pattern as the list of
    their values, in order. *)
Theorem exportToJSON_reimport (colors : list ExportColor) :
  NoDup (List.map (fun c => TextExport.token_key (name c)) colors) ->
  Forall (fun c =>
            TextExport.token_key (name c) <> "__proto__"
            /\ PaletteLive.array_index (TextExport.token_key (name c)) = None
            /\ hashless (name c) /\ well_formed (value c) = true) colors ->
  PaletteImport.match_hexes (TextExport.exportToJSON colors)
  = List.map value colors.
Proof.
  intros Hnd Hall. unfold TextExport.exportToJSON, TextExport.tokens_of.
  rewrite tokens_of_pairs; [|done|].
  2: { intros Hin. apply list_elem_of_In, in_map_iff in Hin as (c & Hc & Hin).
       rewrite Forall_forall in Hall.
       apply list_elem_of_In, Hall in Hin. by destruct Hin as [Hne _]. }
  rewrite own_properties_named.
  2: { apply Forall_map. eapply Forall_impl; [exact Hall|].
       by intros c (_ & Hidx & _). }
  rewrite <- (append_nil_r (JSON.stringify _ _)).
  rewrite object_reimport.
  - rewrite List.map_map. by apply List.map_ext.
  - by apply hashless_b_spec.
  - by apply hashless_b_spec.
  - apply Forall_map. eapply Forall_impl; [exact Hall|].
    intros c (_ & _ & Hn & Hv). split; [by apply token_key_hashless|done].
Qed.

Lemma exportToJSON_reimport_witness :
  PaletteImport.match_hexes
    (TextExport.exportToJSON
       [Color "--color-bg" "#0B1220"; Color "--color-text" "#EAF0FF"])
  = ["#0B1220"; "#EAF0FF"].
Proof.
  apply (exportToJSON_reimport
           [Color "--color-bg" "#0B1220"; Color "--color-text" "#EAF0FF"]).
  - compute_done.
  - repeat (apply Forall_cons; split;
              [split; [discriminate|split; [reflexivity|
                 split; [by apply hashless_b_spec|reflexivity]]]|]).
    apply Forall_nil_2.
Defined.

(** The text of [exportToPaletteLive] under the same conditions on the
    names. *)
Lemma exportToPaletteLive_match_hexes (colors : list ExportColor) :
  NoDup (List.map name colors) ->
  Forall (fun c =>
            name c <> "__proto__"
            /\ PaletteLive.array_index (name c) = None
            /\ hashless (name c) /\ well_formed (value c) = true) colors ->
  PaletteImport.match_hexes (PaletteLive.exportToPaletteLive colors)
  = List.map value colors.
Proof.
  intros Hnd Hall.
  unfold PaletteLive.exportToPaletteLive, PaletteLive.document,
    PaletteLive.overrides_of.
  rewrite (tokens_of_pairs name); [|done|].
  2: { intros Hin. apply list_elem_of_In, in_map_iff in Hin as (c & Hc & Hin).
       rewrite Forall_forall in Hall.
       apply list_elem_of_In, Hall in Hin. by destruct Hin as [Hne _]. }
  rewrite own_properties_named.
  2: { apply Forall_map. eapply Forall_impl; [exact Hall|].
       by intros c (_ & Hidx & _). }
  set (ovs := JSON.JObject (List.map _ _)).
  assert (JSON.stringify ""
            (JSON.JObject [("version", JSON.JString "1.0");
                           ("format", JSON.JString "palettelive");
                           ("overrides", ovs)])
          = ("{" ++ String JS.LF ("  " ++ JSON.quote "version" ++ ": "
               ++ JSON.quote "1.0" ++ "," ++ String JS.LF ("  "
               ++ JSON.quote "format" ++ ": " ++ JSON.quote "palettelive"
               ++ "," ++ String JS.LF ("  " ++ JSON.quote "overrides" ++ ": "))))
            ++ JSON.stringify "  " ovs ++ (String JS.LF "}")) as ->.
  { rewrite stringify_object. rewrite !join_map_cons, join_map_single.
    cbn [fst snd JSON.stringify]. autorewrite with text. reflexivity. }
  rewrite match_hexes_skip by (by apply hashless_b_spec).
  unfold ovs. rewrite object_reimport.
  - rewrite List.map_map. by apply List.map_ext.
  - by apply hashless_b_spec.
  - by apply hashless_b_spec.
  - apply Forall_map. eapply Forall_impl; [exact Hall|].
    by intros c (_ & _ & Hn & Hv).
Qed.

Lemma role_names_plain (n : nat) :
  NoDup (take n Palette.ROLE_NAMES)
  /\ Forall (fun k => k <> "__proto__" /\ PaletteLive.array_index k = None
                      /\ hashless k) (take n Palette.ROLE_NAMES).
Proof.
  assert (NoDup Palette.ROLE_NAMES) as Hnd by compute_done.
  assert (Forall (fun k => k <> "__proto__" /\ PaletteLive.array_index k = None
                           /\ hashless k) Palette.ROLE_NAMES) as Hall.
  { repeat constructor; try done; by apply hashless_b_spec. }
  split.
  - eapply sublist_NoDup; [exact Hnd|apply sublist_take].
  - by apply Forall_take.
Qed.

Lemma getExportColors_names (swatches : list string)
    (customSwatches : gmap nat string) :
  List.map name (Palette.getExportColors swatches customSwatches)
  = take (length swatches) Palette.ROLE_NAMES.
Proof.
  destruct swatches as [|s0 [|s1 [|s2 [|s3 [|s4 [|s5 l]]]]]]; try reflexivity.
  rewrite (take_ge Palette.ROLE_NAMES) by (cbn; lia). reflexivity.
Qed.

Lemma getExportColors_length (swatches : list string)
    (customSwatches : gmap nat string) :
  length (Palette.getExportColors swatches customSwatches)
  = Nat.min 6 (length swatches).
Proof.
  unfold Palette.getExportColors, Palette.buildExportColors.
  rewrite length_imap, length_take. lia.
Qed.

(** X18. The colours that the application exports, when their values are
    well-formed, survive a round trip through the palette file: the import
    of the text of [exportToPaletteLive] finds exactly their values, in
    order, and, when there are at least two of them, makes them the
    overrides 0, 1, ... of the imported state. *)
Theorem palettelive_export_import (swatches : list string)
    (customSwatches : gmap nat string) (st : PaletteImport.state) :
  let cols := Palette.getExportColors swatches customSwatches in
  Forall (fun c => well_formed (value c) = true) cols ->
  PaletteImport.match_hexes (PaletteLive.exportToPaletteLive cols)
    = List.map value cols
  /\ ((2 <= length swatches)%nat ->
      PaletteImport.customSwatches
        (PaletteImport.applyImportText (PaletteLive.exportToPaletteLive cols) st)
      = map_seq 0 (List.map value cols)).
Proof.
  intros cols Hwf.
  assert (PaletteImport.match_hexes (PaletteLive.exportToPaletteLive cols)
          = List.map value cols) as Hre.
  { destruct (role_names_plain (length swatches)) as [Hnd Hall].
    rewrite <- (getExportColors_names swatches customSwatches) in Hnd, Hall.
    apply exportToPaletteLive_match_hexes; [done|].
    apply Forall_map in Hall. fold cols in Hall.
    rewrite Forall_forall in Hall, Hwf. apply Forall_forall.
    intros c Hc. destruct (Hall c Hc) as (H1 & H2 & H3).
    repeat split; try done. by apply Hwf. }
  split; [done|]. intros Hlen.
  unfold PaletteImport.applyImportText. rewrite Hre.
  pose proof (getExportColors_length swatches customSwatches) as Hl.
  fold cols in Hl.
  replace (length (List.map value cols) <? 2)%nat with false
    by (symmetry; apply Nat.ltb_ge; rewrite length_map; lia).
  cbn [PaletteImport.customSwatches].
  rewrite take_ge by (rewrite length_map; lia). done.
Qed.

Lemma palettelive_export_import_witness :
  PaletteImport.match_hexes
    (PaletteLive.exportToPaletteLive
       (Palette.getExportColors ["#0B1220"; "#111C33"; "#818CF8"]
          (<[1%nat := "#222222"]> ∅)))
  = ["#0B1220"; "#222222"; "#818CF8"]
  /\ PaletteImport.customSwatches
       (PaletteImport.applyImportText
          (PaletteLive.exportToPaletteLive
             (Palette.getExportColors ["#0B1220"; "#111C33"; "#818CF8"]
                (<[1%nat := "#222222"]> ∅)))
          (PaletteImport.State ∅ true "#818CF8" true PaletteImport.clipboard
             "x"))
     = map_seq 0 ["#0B1220"; "#222222"; "#818CF8"].
Proof.
  destruct (palettelive_export_import ["#0B1220"; "#111C33"; "#818CF8"]
              (<[1%nat := "#222222"]> ∅)
              (PaletteImport.State ∅ true "#818CF8" true
                 PaletteImport.clipboard "x")) as [H1 H2].
  - repeat constructor.
  - split; [exact H1|]. apply H2. cbn. lia.
Defined.

(** ** Names of tokens *)

(** X19. The name that the CSS export declares always starts with [--],
    declaring it again changes nothing, and the key that the JSON and
    Tailwind exports derive from the declared name is the key they derive
    from the original name. *)
Theorem css_name_token_key (n : string) :
  TextExport.starts_with_dashes (TextExport.css_name n) = true
  /\ TextExport.css_name (TextExport.css_name n) = TextExport.css_name n
  /\ TextExport.token_key (TextExport.css_name n) = TextExport.token_key n.
Proof.
  unfold TextExport.css_name.
  destruct (TextExport.starts_with_dashes n) eqn:E.
  - by rewrite E.
  - split; [reflexivity|]. split; [reflexivity|].
    change ("--" ++ n) with (String "-" (String "-" n)).
    cbn [TextExport.token_key Ascii.eqb]. cbn.
    destruct n as [|a [|b rest]]; try reflexivity.
    cbn [TextExport.token_key TextExport.starts_with_dashes] in *.
    by rewrite E.
Qed.

(** ** The contrast ratio of arbitrary strings *)

Local Open Scope R_scope.

(** X20. Whatever the two strings, the contrast ratio is [NaN] or at least
    1; the upper bound 21 of well-formed colours does not extend to them:
    the channels [-1] of [#-1-1-1] give a ratio above 21 against white. *)
Theorem contrastRatio_at_least_one (a b : string) :
  (contrastRatio a b = NaN \/ exists x, contrastRatio a b = Num x /\ 1 <= x)
  /\ exists y, contrastRatio "#-1-1-1" "#FFFFFF" = Num y /\ 21 < y.
Proof.
  split.
  - destruct (contrastRatio a b) as [|x] eqn:E; [by left|]. right.
    exists x. split; [done|].
    destruct (contrastRatio_num_inv _ _ _ E) as (la & lb & Ha & Hb).
    rewrite (contrastRatio_max_min _ _ _ _ Ha Hb) in E. injection E as <-.
    pose proof (luminance_lower _ _ Ha). pose proof (luminance_lower _ _ Hb).
    assert (0 < Rmin la lb + 0.05)
      by (unfold Rmin; destruct (Rle_dec la lb); lra).
    apply Rmult_le_reg_r with (Rmin la lb + 0.05); [done|].
    unfold Rdiv. rewrite Rmult_assoc, Rinv_l by lra.
    pose proof (Rmin_l la lb). pose proof (Rmax_l la lb).
    unfold Rmax, Rmin in *. destruct (Rle_dec la lb); lra.
  - assert (luminance "#-1-1-1" = Num (spec_luminance (-1) (-1) (-1))) as Ha
      by (by apply luminance_channels).
    rewrite (contrastRatio_max_min _ _ _ _ Ha luminance_white).
    eexists. split; [reflexivity|].
    unfold spec_luminance, spec_gamma. rewrite Rleb_true by lra.
    unfold Rmax, Rmin. destruct (Rle_dec _ 1) as [_|Hn]; [|exfalso; lra].
    apply Rmult_lt_reg_r
      with (0.2126 * (-1 / 255 / 12.92) + 0.7152 * (-1 / 255 / 12.92)
            + 0.0722 * (-1 / 255 / 12.92) + 0.05); [lra|].
    unfold Rdiv at 7. rewrite Rmult_assoc, Rinv_l; lra.
Qed.

Local Close Scope R_scope.

(** ** The CMYK numbers of a well-formed colour *)

Local Open Scope Q_scope.

Lemma Qdiv255 (z : Z) : inject_Z z / 255 == inject_Z z * (1 # 255).
Proof. reflexivity. Qed.




Local Close Scope Q_scope.

(** ** The demo contrast and the slider *)

Lemma parseInt16_digit (c : ascii) (d : Z) :
  JS.hex_digit c = Some d -> JS.parseInt16 (String c "") = Num d.
Proof.
  intros Hd. unfold JS.parseInt16. cbn [JS.trim_start].
  rewrite (hex_not_space c d Hd).
  rewrite (hex_not_char c d "-") by done.
  rewrite (hex_not_char c d "+") by done.
  cbn [JS.strip_0x JS.digits16]. by rewrite Hd.
Qed.

Lemma weigh_hex (s : string) :
  JS.all_hex s = true ->
  forall (i acc : Z), exists z, Demo.weigh i s (Num acc) = Num z.
Proof.
  induction s as [|c s IH]; intros H i acc; [by exists acc|].
  cbn [JS.all_hex] in H. apply andb_true_iff in H as [Hc Hs].
  apply is_hex_digit in Hc as [d Hd]. cbn [Demo.weigh].
  rewrite (parseInt16_digit c d Hd). cbn [nlift2]. by apply IH.
Qed.

Lemma n_well_formed (s : string) :
  well_formed s = true -> exists z, Demo.n s = Num z.
Proof.
  intros H. unfold Demo.n. destruct s as [|c s]; [done|].
  cbn [well_formed] in H. apply andb_true_iff in H as [H Hhex].
  apply andb_true_iff in H as [Hc _].
  cbn [JS.strip_hash]. rewrite Hc. by apply weigh_hex.
Qed.

Local Open Scope Q_scope.

Lemma floor_bounds (y : Q) (lo hi : Z) :
  inject_Z lo <= y -> y < inject_Z hi + 1 -> (lo <= Qfloor y <= hi)%Z.
Proof.
  intros Hlo Hhi. split.
  - rewrite <- (Qfloor_Z lo). by apply Qfloor_resp_le.
  - pose proof (Qfloor_le y) as Hf.
    assert (inject_Z (Qfloor y) < inject_Z (hi + 1)) as Hlt.
    { rewrite inject_Z_plus. change (inject_Z 1) with 1. lra. }
    rewrite <- Zlt_Qlt in Hlt. lia.
Qed.

Lemma fake_ratio_range (d : Z) :
  (10 <= Demo.Math_round ((1 + inject_Z (Z.rem (Z.abs d) 800) / 100) * 10)
   <= 90)%Z.
Proof.
  assert (0 <= Z.rem (Z.abs d) 800 < 800)%Z as Hm
    by (apply Z.rem_bound_pos; lia).
  set (m := Z.rem (Z.abs d) 800) in *.
  assert (0 <= inject_Z m) as H0 by (apply (inject_Z_le 0 m); lia).
  assert (inject_Z m <= 799) as H1 by (apply (inject_Z_le m 799); lia).
  unfold Demo.Math_round. apply floor_bounds.
  - change (inject_Z 10) with 10. unfold Qdiv. change (/ 100) with (1 # 100).
    lra.
  - change (inject_Z 90) with 90. unfold Qdiv. change (/ 100) with (1 # 100).
    lra.
Qed.

(** X22. The demo contrast is symmetric; it is [NaN] or a number between 1
    and 9; it is a number on well-formed colours, and equal to 1 when the
    two strings are the same. *)
Theorem fakeContrast_properties (hexA hexB : string) :
  Demo.fakeContrast hexA hexB = Demo.fakeContrast hexB hexA
  /\ (Demo.fakeContrast hexA hexB = NaN
      \/ exists q, Demo.fakeContrast hexA hexB = Num q /\ 1 <= q <= 9)
  /\ (well_formed hexA = true -> well_formed hexB = true ->
      exists q, Demo.fakeContrast hexA hexB = Num q)
  /\ (Demo.fakeContrast hexA hexA = NaN
      \/ exists q, Demo.fakeContrast hexA hexA = Num q /\ q == 1).
Proof.
  unfold Demo.fakeContrast. split; [|split; [|split]].
  - destruct (Demo.n hexA) as [|a], (Demo.n hexB) as [|b]; try reflexivity.
    cbn [nlift2 nmap]. by replace (Z.abs (b - a)) with (Z.abs (a - b)) by lia.
  - destruct (Demo.n hexA) as [|a], (Demo.n hexB) as [|b]; try (by left).
    right. cbn [nlift2 nmap]. eexists. split; [reflexivity|].
    pose proof (fake_ratio_range (a - b)) as [Hlo Hhi].
    apply inject_Z_le in Hlo, Hhi.
    change (inject_Z 10) with 10 in Hlo. change (inject_Z 90) with 90 in Hhi.
    set (F := inject_Z _) in *.
    unfold Qdiv. change (/ 10) with (1 # 10). lra.
  - intros Ha Hb. destruct (n_well_formed hexA Ha) as [a ->].
    destruct (n_well_formed hexB Hb) as [b ->]. by eexists.
  - destruct (Demo.n hexA) as [|a]; [by left|]. right.
    cbn [nlift2 nmap]. rewrite Z.sub_diag. by eexists.
Qed.

Lemma Qmaxb_spec (a b : Q) :
  a <= CMYK.Qmaxb a b /\ b <= CMYK.Qmaxb a b
  /\ (CMYK.Qmaxb a b == a \/ CMYK.Qmaxb a b == b).
Proof.
  unfold CMYK.Qmaxb. destruct (Qle_bool a b) eqn:E.
  - apply Qle_bool_iff in E. repeat split; [lra|lra|by right].
  - assert (~ a <= b) as Hn by (rewrite <- Qle_bool_iff; congruence).
    apply Qnot_le_lt in Hn. repeat split; [lra|lra|by left].
Qed.

Lemma Qminb_spec (a b : Q) :
  Demo.Qminb a b <= a /\ Demo.Qminb a b <= b
  /\ (Demo.Qminb a b == a \/ Demo.Qminb a b == b).
Proof.
  unfold Demo.Qminb. destruct (Qle_bool a b) eqn:E.
  - apply Qle_bool_iff in E. repeat split; [lra|lra|by left].
  - assert (~ a <= b) as Hn by (rewrite <- Qle_bool_iff; congruence).
    apply Qnot_le_lt in Hn. repeat split; [lra|lra|by right].
Qed.

(** X23. With a container of positive width the slider percentage is an
    integer between 0 and 100: 0 at or left of the container's left edge,
    100 at or right of its right edge; before the container is mounted the
    percentage is kept. *)
Theorem calcPct_range (r_left r_width clientX : Q) (pct : Number Z) :
  0 < r_width ->
  (exists p, Demo.calcPct (Some (r_left, r_width)) clientX pct = Num p
             /\ (0 <= p <= 100)%Z)
  /\ (clientX <= r_left ->
      Demo.calcPct (Some (r_left, r_width)) clientX pct = Num 0%Z)
  /\ (r_left + r_width <= clientX ->
      Demo.calcPct (Some (r_left, r_width)) clientX pct = Num 100%Z)
  /\ Demo.calcPct None clientX pct = pct.
Proof.
  intros Hw. unfold Demo.calcPct.
  replace (Qeq_bool r_width 0) with false.
  2: { symmetry. apply not_true_iff_false. rewrite Qeq_bool_iff. lra. }
  set (x := Demo.Qminb (CMYK.Qmaxb 0 (clientX - r_left)) r_width).
  destruct (Qmaxb_spec 0 (clientX - r_left)) as (Hm0 & Hm1 & Hm).
  destruct (Qminb_spec (CMYK.Qmaxb 0 (clientX - r_left)) r_width)
    as (Hx0 & Hx1 & Hx).
  fold x in Hx0, Hx1, Hx.
  assert (0 <= x) as Hxpos by (destruct Hx as [-> | ->]; lra).
  assert (0 <= x / r_width) as Hq0 by (apply Qle_shift_div_l; lra).
  assert (x / r_width <= 1) as Hq1 by (apply Qle_shift_div_r; lra).
  split; [|split; [|split]].
  - eexists. split; [reflexivity|]. unfold Demo.Math_round.
    apply floor_bounds.
    + change (inject_Z 0) with 0. set (q := x / r_width) in *. lra.
    + change (inject_Z 100) with 100. set (q := x / r_width) in *. lra.
  - intros Hle. f_equal. unfold Demo.Math_round.
    assert (x == 0) as Hx'.
    { destruct Hm as [Hm| Hm]; destruct Hx as [Hx | Hx]; lra. }
    assert (x / r_width == 0) as Hq by (rewrite Hx'; unfold Qdiv; ring).
    pose proof (floor_bounds (x / r_width * 100 + (1 # 2)) 0 0) as Hf.
    change (inject_Z 0) with 0 in Hf. set (q := x / r_width) in *.
    assert (0 <= Qfloor (q * 100 + (1 # 2)) <= 0)%Z by (apply Hf; lra). lia.
  - intros Hge. f_equal. unfold Demo.Math_round.
    assert (x == r_width) as Hx'.
    { destruct Hm as [Hm| Hm]; destruct Hx as [Hx | Hx]; lra. }
    assert (x / r_width == 1) as Hq.
    { rewrite Hx'. apply Qmult_inv_r. lra. }
    pose proof (floor_bounds (x / r_width * 100 + (1 # 2)) 100 100) as Hf.
    change (inject_Z 100) with 100 in Hf. set (q := x / r_width) in *.
    assert (100 <= Qfloor (q * 100 + (1 # 2)) <= 100)%Z by (apply Hf; lra).
    lia.
  - reflexivity.
Qed.

Lemma calcPct_range_witness :
  (exists p, Demo.calcPct (Some (10, 200)%Q) 60%Q (Num 50%Z) = Num p
             /\ (0 <= p <= 100)%Z)
  /\ Demo.calcPct None 60%Q (Num 50%Z) = Num 50%Z.
Proof.
  destruct (calcPct_range 10%Q 200%Q 60%Q (Num 50%Z)) as (H1 & _ & _ & H4).
  - reflexivity.
  - split; [exact H1|exact H4].
Defined.

Local Close Scope Q_scope.

(** ** LAB and OKLCH of a well-formed colour *)

Local Open Scope R_scope.

(** On an integer channel [toLinear] is the gamma expansion of the
    luminance. *)
Lemma toLinear_byte (n : Z) :
  toLinear (Num (IZR n)) = Num (spec_gamma (IZR n / 255)).
Proof.
  unfold spec_gamma, toLinear, nle, ndiv, nadd. cbn [nlift2 ncmp].
  destruct (Z_le_gt_dec n 10) as [Hle|Hgt].
  - apply IZR_le in Hle. rewrite !Rleb_true by lra. done.
  - assert (11 <= n)%Z as Hge by lia. apply IZR_le in Hge.
    rewrite !Rleb_false by lra.
    unfold Math_pow_2_4, nbind. rewrite Rltb_true; [done|].
    apply Rdiv_lt_0_compat; lra.
Qed.

Lemma cbrt_pos (x : R) : 0 < x -> OKLCH.cbrt x = Rpower x (1 / 3).
Proof. intros H. unfold OKLCH.cbrt. by rewrite Rltb_true. Qed.

Lemma cbrt_0 : OKLCH.cbrt 0 = 0.
Proof. unfold OKLCH.cbrt. by rewrite !Rltb_false by lra. Qed.

Lemma cbrt_cube (x : R) : 0 <= x -> OKLCH.cbrt x ^ 3 = x.
Proof.
  intros [H|<-].
  - rewrite cbrt_pos by done.
    rewrite <- (Rpower_pow 3) by apply exp_pos.
    rewrite Rpower_mult. replace (1 / 3 * INR 3) with 1 by (simpl; lra).
    by apply Rpower_1.
  - rewrite cbrt_0. simpl. lra.
Qed.

Lemma cbrt_nonneg (x : R) : 0 <= x -> 0 <= OKLCH.cbrt x.
Proof.
  intros [H|<-]; [|rewrite cbrt_0; lra].
  rewrite cbrt_pos by done. left. apply exp_pos.
Qed.

Lemma cube_lt (a b : R) : 0 <= a -> a < b -> a ^ 3 < b ^ 3.
Proof.
  intros Ha Hab. simpl.
  assert (0 <= a * a) by nra. assert (a * a < b * b) by nra. nra.
Qed.

Lemma cbrt_le_of_cube (x y : R) :
  0 <= x -> 0 <= y -> x <= y ^ 3 -> OKLCH.cbrt x <= y.
Proof.
  intros Hx Hy H.
  destruct (Rle_lt_dec (OKLCH.cbrt x) y) as [|Hlt]; [done|].
  pose proof (cube_lt _ _ Hy Hlt) as Hc. rewrite cbrt_cube in Hc by done. lra.
Qed.

Lemma cbrt_ge_of_cube (x y : R) :
  0 <= x -> 0 <= y -> y ^ 3 <= x -> y <= OKLCH.cbrt x.
Proof.
  intros Hx Hy H.
  destruct (Rle_lt_dec y (OKLCH.cbrt x)) as [|Hlt]; [done|].
  pose proof (cube_lt _ _ (cbrt_nonneg x Hx) Hlt) as Hc.
  rewrite cbrt_cube in Hc by done. lra.
Qed.

Lemma cbrt_mono (x y : R) : 0 <= x <= y -> OKLCH.cbrt x <= OKLCH.cbrt y.
Proof.
  intros [Hx Hxy]. apply cbrt_le_of_cube; [done| |].
  - apply cbrt_nonneg. lra.
  - rewrite cbrt_cube by lra. done.
Qed.

Lemma f_Num (v : R) : LAB.f (Num v) = Num (LAB.f_num v).
Proof.
  unfold LAB.f, LAB.f_num, ngt, nlt. cbn [ncmp].
  destruct (Rltb 0.008856 v); reflexivity.
Qed.

Lemma f_num_range (v : R) : 0 <= v <= 1 -> 16 / 116 <= LAB.f_num v <= 1.
Proof.
  intros [H0 H1]. unfold LAB.f_num.
  destruct (Rlt_le_dec 0.008856 v) as [Hlt|Hle].
  - rewrite Rltb_true by done. split.
    + apply cbrt_ge_of_cube; [lra|lra|]. lra.
    + apply cbrt_le_of_cube; [lra|lra|]. lra.
  - rewrite Rltb_false by done. lra.
Qed.

Lemma f_num_mono (v w : R) : 0 <= v <= w -> LAB.f_num v <= LAB.f_num w.
Proof.
  intros [H0 Hvw]. unfold LAB.f_num.
  destruct (Rlt_le_dec 0.008856 w) as [Hw|Hw].
  - rewrite (Rltb_true _ w) by done.
    destruct (Rlt_le_dec 0.008856 v) as [Hv|Hv].
    + rewrite Rltb_true by done. apply cbrt_mono. lra.
    + rewrite Rltb_false by done.
      apply Rle_trans with (7.787 * 0.008856 + 16 / 116); [lra|].
      apply cbrt_ge_of_cube; [lra|lra|]. lra.
  - rewrite !Rltb_false by lra. lra.
Qed.

Lemma hexToLab_l (s : string) (r g b : Z) :
  JS.slice 0 6 (JS.strip_hash s) = JS.strip_hash s ->
  JS.parseInt16 (JS.slice 0 2 (JS.strip_hash s)) = Num r ->
  JS.parseInt16 (JS.slice 2 4 (JS.strip_hash s)) = Num g ->
  JS.parseInt16 (JS.slice 4 6 (JS.strip_hash s)) = Num b ->
  LAB.l (LAB.hexToLab s) = Num (116 * LAB.f_num (spec_luminance r g b) - 16)
  /\ (exists x, LAB.a (LAB.hexToLab s) = Num x)
  /\ exists x, LAB.b (LAB.hexToLab s) = Num x.
Proof.
  intros Hsl Hr Hg Hb. unfold LAB.hexToLab. rewrite Hsl, Hr, Hg, Hb.
  unfold of_int. cbn [nmap]. rewrite !toLinear_byte.
  unfold nadd, nmul, ndiv. cbn [nlift2]. rewrite !f_Num.
  cbn [LAB.l LAB.a LAB.b LAB.nsub nlift2]. unfold LAB.nsub. cbn [nlift2].
  split; [|split; eauto].
  do 4 f_equal. unfold spec_luminance. ring.
Qed.

(** X24. For well-formed colours the three LAB components are numbers;
    the lightness is [116 f(Y) - 16] for the WCAG luminance [Y] of the
    colour, it lies between 0 and 100, and a colour of greater luminance
    never has a smaller lightness. *)
Theorem lab_lightness (s1 s2 : string) :
  well_formed s1 = true -> well_formed s2 = true ->
  exists L1 L2 : R,
    LAB.l (LAB.hexToLab s1) = Num L1 /\ LAB.l (LAB.hexToLab s2) = Num L2
    /\ LAB.l (LAB.hexToLab s1)
       = LAB.nsub (nmul (Num 116) (LAB.f (luminance s1))) (Num 16)
    /\ 0 <= L1 <= 100
    /\ (nle (luminance s1) (luminance s2) = true -> L1 <= L2)
    /\ (exists x, LAB.a (LAB.hexToLab s1) = Num x)
    /\ (exists x, LAB.b (LAB.hexToLab s1) = Num x).
Proof.
  intros H1 H2.
  destruct (well_formed_channels s1 H1)
    as (r1 & g1 & b1 & (Hr1 & Hg1 & Hb1) & E1 & E2 & E3 & Hsl1 & Fr1 & Fg1 & Fb1).
  destruct (well_formed_channels s2 H2)
    as (r2 & g2 & b2 & (Hr2 & Hg2 & Hb2) & E4 & E5 & E6 & Hsl2 & Fr2 & Fg2 & Fb2).
  destruct (hexToLab_l s1 r1 g1 b1 Hsl1 Fr1 Fg1 Fb1) as (HL1 & Ha & Hb).
  destruct (hexToLab_l s2 r2 g2 b2 Hsl2 Fr2 Fg2 Fb2) as (HL2 & _ & _).
  rewrite (luminance_channels s1 r1 g1 b1 E1 E2 E3).
  rewrite (luminance_channels s2 r2 g2 b2 E4 E5 E6).
  pose proof (spec_luminance_range r1 g1 b1 Hr1 Hg1 Hb1) as HY1.
  pose proof (spec_luminance_range r2 g2 b2 Hr2 Hg2 Hb2) as HY2.
  pose proof (f_num_range _ HY1) as Hf1.
  do 2 eexists. split; [exact HL1|]. split; [exact HL2|]. split; [|split; [|split]].
  - rewrite HL1, f_Num. reflexivity.
  - lra.
  - unfold nle. cbn [ncmp]. intros Hle%Rleb_spec.
    pose proof (f_num_mono (spec_luminance r1 g1 b1) (spec_luminance r2 g2 b2)
                  ltac:(lra)). lra.
  - done.
Qed.

Lemma lab_lightness_witness :
  exists L1 L2 : R,
    LAB.l (LAB.hexToLab "#000000") = Num L1
    /\ LAB.l (LAB.hexToLab "#FFFFFF") = Num L2
    /\ LAB.l (LAB.hexToLab "#000000")
       = LAB.nsub (nmul (Num 116%R) (LAB.f (luminance "#000000"))) (Num 16%R)
    /\ (0 <= L1 <= 100)%R
    /\ (nle (luminance "#000000") (luminance "#FFFFFF") = true -> (L1 <= L2)%R)
    /\ (exists x, LAB.a (LAB.hexToLab "#000000") = Num x)
    /\ (exists x, LAB.b (LAB.hexToLab "#000000") = Num x).
Proof. apply (lab_lightness "#000000" "#FFFFFF"); reflexivity. Defined.

(** X25. For a well-formed colour the OKLCH lightness and chroma are
    numbers: the lightness lies between 0 and 1.005 and the chroma is not
    negative. *)
Theorem oklch_lightness_chroma (s : string) :
  well_formed s = true ->
  exists L C : R,
    OKLCH.l (OKLCH.hexToOklch s) = Num L /\ OKLCH.c (OKLCH.hexToOklch s) = Num C
    /\ 0 <= L <= 1.005 /\ 0 <= C.
Proof.
  intros Hs.
  destruct (well_formed_channels s Hs)
    as (r & g & b & (Hr & Hg & Hb) & _ & _ & _ & Hsl & Fr & Fg & Fb).
  unfold OKLCH.hexToOklch. rewrite Hsl, Fr, Fg, Fb.
  unfold of_int. cbn [nmap]. rewrite !toLinear_byte.
  pose proof (spec_gamma_range _ (byte_unit r Hr)) as Gr.
  pose proof (spec_gamma_range _ (byte_unit g Hg)) as Gg.
  pose proof (spec_gamma_range _ (byte_unit b Hb)) as Gb.
  set (lr := spec_gamma (IZR r / 255)) in *.
  set (lg := spec_gamma (IZR g / 255)) in *.
  set (lb := spec_gamma (IZR b / 255)) in *.
  unfold OKLCH.lin3, OKLCH.Math_cbrt, nadd, nmul. cbn [nlift2 nmap OKLCH.l OKLCH.c].
  set (Lc := 0.4122214708 * lr + 0.5363325363 * lg + 0.0514459929 * lb).
  set (Mc := 0.2119034982 * lr + 0.6806995451 * lg + 0.1073969566 * lb).
  set (Sc := 0.0883024619 * lr + 0.2817188376 * lg + 0.6299787005 * lb).
  assert (0 <= Lc <= 1) as HLc by (unfold Lc; lra).
  assert (0 <= Mc <= 1) as HMc by (unfold Mc; lra).
  assert (0 <= Sc <= 8 * Mc) as HSc by (unfold Sc, Mc; lra).
  pose proof (cbrt_nonneg Lc ltac:(lra)) as Hl0.
  pose proof (cbrt_nonneg Mc ltac:(lra)) as Hm0.
  pose proof (cbrt_nonneg Sc ltac:(lra)) as Hs0.
  assert (OKLCH.cbrt Lc <= 1) as Hl1
    by (apply cbrt_le_of_cube; [lra|lra|simpl; lra]).
  assert (OKLCH.cbrt Mc <= 1) as Hm1
    by (apply cbrt_le_of_cube; [lra|lra|simpl; lra]).
  assert (OKLCH.cbrt Sc <= 2 * OKLCH.cbrt Mc) as Hs2.
  { apply cbrt_le_of_cube; [lra|lra|].
    replace ((2 * OKLCH.cbrt Mc) ^ 3) with (8 * OKLCH.cbrt Mc ^ 3) by ring.
    rewrite cbrt_cube by lra. lra. }
  set (l_ := OKLCH.cbrt Lc) in *. set (m_ := OKLCH.cbrt Mc) in *.
  set (s_ := OKLCH.cbrt Sc) in *.
  set (a := 1.9779984951 * l_ + - 2.428592205 * m_ + 0.4505937099 * s_).
  set (bOk := 0.0259040371 * l_ + 0.7827717662 * m_ + - 0.808675766 * s_).
  assert (0 <= a * a + bOk * bOk) as Hsq by nra.
  unfold OKLCH.Math_sqrt. cbn [nbind]. rewrite Rleb_true by done.
  do 2 eexists. split; [reflexivity|]. split; [reflexivity|].
  split; [lra|]. apply sqrt_pos.
Qed.

Lemma oklch_lightness_chroma_witness :
  exists L C : R,
    OKLCH.l (OKLCH.hexToOklch "#818CF8") = Num L
    /\ OKLCH.c (OKLCH.hexToOklch "#818CF8") = Num C
    /\ (0 <= L <= 1.005)%R /\ (0 <= C)%R.
Proof. apply (oklch_lightness_chroma "#818CF8"). reflexivity. Defined.

Local Close Scope R_scope.

(** ** The paste box and the contrast panel *)

(** X26. The paste box of the generator and the import of a file compute
    the same overrides from the same text. *)
Theorem pastePalette_as_import (raw : string) (st : PaletteImport.state) :
  Editor.pastePalette raw (PaletteImport.customSwatches st)
  = PaletteImport.customSwatches (PaletteImport.applyImportText raw st).
Proof.
  unfold Editor.pastePalette, PaletteImport.applyImportText.
  destruct (Nat.ltb_spec (length (PaletteImport.match_hexes raw)) 2) as [H|H].
  - by replace (2 <=? _)%nat with false by (symmetry; apply Nat.leb_gt; lia).
  - by replace (2 <=? _)%nat with true by (symmetry; apply Nat.leb_le; lia).
Qed.

Local Open Scope R_scope.

Lemma contrastRatio_self (c : string) (x : R) :
  luminance c = Num x -> contrastRatio c c = Num 1.
Proof.
  intros H. rewrite (contrastRatio_max_min _ _ _ _ H H).
  pose proof (luminance_lower _ _ H).
  unfold Rmax, Rmin. destruct (Rle_dec x x); f_equal; field; lra.
Qed.

(** X27. When the first swatch, the background, is selected, the panel
    compares it with itself: for a palette and overrides of well-formed
    colours the ratio is 1 and the four badges fail.  Whatever the ratio,
    the AAA badge for normal text implies the AA one, which implies AA for
    large text, and AAA for large text is AA for normal text. *)
Theorem panel_background_swatch (pal : Palette.PaletteData)
    (customSwatches : gmap nat string) (x : Number R) :
  Forall (fun s => well_formed s = true) (Palette.base pal) ->
  map_Forall (fun _ v => well_formed v = true) customSwatches ->
  Panel.ratio (Some 0%nat) customSwatches (Palette.swatches pal)
    (Palette.displayPal pal customSwatches) = Some (Num 1)
  /\ Panel.wcag (Num 1) = Panel.Badges false false false false
  /\ (Panel.passAAANorm (Panel.wcag x) = true ->
      Panel.passAANorm (Panel.wcag x) = true)
  /\ (Panel.passAANorm (Panel.wcag x) = true ->
      Panel.passAALarge (Panel.wcag x) = true)
  /\ Panel.passAAALarge (Panel.wcag x) = Panel.passAANorm (Panel.wcag x).
Proof.
  intros Hpal Hcu. split; [|split; [|split; [|split]]].
  - unfold Panel.ratio, Panel.activeColor, Panel.bgForContrast.
    cbn [Palette.displayPal Palette.bg].
    change (Palette.swatches pal !! 0%nat) with (Some (Palette.bg pal)).
    assert (well_formed (Palette.bg pal) = true) as Hbg
      by (by apply Forall_cons in Hpal as [? _]).
    destruct (customSwatches !! 0%nat) as [v|] eqn:Hv; cbn [from_option].
    + assert (well_formed v = true) as Hwf by (by eapply Hcu).
      destruct v as [|c v]; [done|]. cbn [Palette.truthy default].
      destruct (luminance_range _ Hwf) as (l & Hl & _).
      f_equal. by eapply contrastRatio_self.
    + cbn [Palette.truthy default].
      destruct (luminance_range _ Hbg) as (l & Hl & _).
      f_equal. by eapply contrastRatio_self.
  - unfold Panel.wcag, nge, nle. cbn [ncmp].
    by rewrite !Rleb_false by lra.
  - destruct x as [|x]; [done|]. unfold Panel.wcag, nge, nle.
    cbn [ncmp Panel.passAAANorm Panel.passAANorm].
    rewrite !Rleb_spec. lra.
  - destruct x as [|x]; [done|]. unfold Panel.wcag, nge, nle.
    cbn [ncmp Panel.passAALarge Panel.passAANorm].
    rewrite !Rleb_spec. lra.
  - reflexivity.
Qed.

Lemma panel_background_swatch_witness :
  Panel.ratio (Some 0%nat) ∅
    (Palette.swatches
       (Palette.Data "Midnight" "#0B1220" "#111C33" "#818CF8" "#EAF0FF"
          "#818CF8" "#22C55E"))
    (Palette.displayPal
       (Palette.Data "Midnight" "#0B1220" "#111C33" "#818CF8" "#EAF0FF"
          "#818CF8" "#22C55E") ∅)
  = Some (Num 1%R)
  /\ Panel.wcag (Num 1%R) = Panel.Badges false false false false.
Proof.
  destruct (panel_background_swatch
              (Palette.Data "Midnight" "#0B1220" "#111C33" "#818CF8" "#EAF0FF"
                 "#818CF8" "#22C55E") ∅ (Num 5%R)) as (H1 & H2 & _).
  - repeat constructor.
  - apply map_Forall_empty.
  - split; [exact H1|exact H2].
Defined.

Local Close Scope R_scope.

(** ** The variants of the swatch grid *)

Local Open Scope R_scope.

(** X28. The two variants that the swatch grid derives from a well-formed
    colour are what their names say: the luminance of the darker one is at
    most, and that of the lighter one at least, the luminance of the
    colour, all three between 0 and 1. *)
Theorem swatch_variants_luminance (hex : string) :
  well_formed hex = true ->
  exists lo mid hi : R,
    luminance (Palette.darker hex) = Num lo
    /\ luminance hex = Num mid
    /\ luminance (Palette.lighter hex) = Num hi
    /\ 0 <= lo <= mid /\ mid <= hi <= 1.
Proof.
  intros H.
  destruct (well_formed_channels hex H)
    as (r & g & b & (Hr & Hg & Hb) & E1 & E2 & E3 & _).
  unfold Palette.darker, Palette.lighter, Palette.channels.
  rewrite E1, E2, E3. cbn [red green blue Math_min Math_max nlift2].
  rewrite (luminance_channels hex r g b E1 E2 E3).
  rewrite !bytes_luminance by lia.
  do 3 eexists. split; [reflexivity|]. split; [reflexivity|].
  split; [reflexivity|].
  pose proof (spec_luminance_range (Z.max 0 (r - 30)) (Z.max 0 (g - 30))
                (Z.max 0 (b - 30)) ltac:(lia) ltac:(lia) ltac:(lia)).
  pose proof (spec_luminance_range (Z.min 255 (r + 40)) (Z.min 255 (g + 40))
                (Z.min 255 (b + 40)) ltac:(lia) ltac:(lia) ltac:(lia)).
  pose proof (spec_luminance_mono (Z.max 0 (r - 30)) (Z.max 0 (g - 30))
                (Z.max 0 (b - 30)) r g b
                ltac:(lia) ltac:(lia) ltac:(lia) ltac:(lia) ltac:(lia)
                ltac:(lia)).
  pose proof (spec_luminance_mono r g b (Z.min 255 (r + 40))
                (Z.min 255 (g + 40)) (Z.min 255 (b + 40))
                ltac:(lia) ltac:(lia) ltac:(lia) ltac:(lia) ltac:(lia)
                ltac:(lia)).
  lra.
Qed.

Lemma swatch_variants_luminance_witness :
  exists lo mid hi : R,
    luminance (Palette.darker "#818CF8") = Num lo
    /\ luminance "#818CF8" = Num mid
    /\ luminance (Palette.lighter "#818CF8") = Num hi
    /\ (0 <= lo <= mid)%R /\ (mid <= hi <= 1)%R.
Proof. apply (swatch_variants_luminance "#818CF8"). reflexivity. Defined.

Local Close Scope R_scope.
